(** * Minesweeper engine (src/main.ts): shallow embedding and verified properties

    The engine of [main.ts] works on one global [state : GameState].  It is
    embedded by explicit state passing: every engine function takes the
    session state and returns the next one.  A [TypeError] raised by a read
    or write through [undefined] (an out-of-range [state.board[row][col]])
    is the [None] of the option monad.  JavaScript numbers that hold
    integers are [Z]; arrays are lists read with [!!] and updated in place
    with [alter]; the [Set<number>] of [placeMines] is a [gset Z].

    [renderCell] is the function from a cell to what it leaves on the
    button of the cell.  The other DOM, audio and timer-handle effects
    ([setStatus], [playSound], [unlockAudio], [showHint], ...) do not
    touch the fields modelled here and are left out. *)

From Stdlib Require Import QArith.QArith QArith.Qround.
From Stdlib Require Import Ascii DecimalString DecimalN DecimalZ.
From stdpp Require Import base option list list_numbers numbers gmap sets strings sorting.

Local Open Scope Z_scope.

(* [set_solver] clears hypotheses by name and warns when one is gone. *)
#[local] Set Warnings "-clear-no-such-hyp".

(** ** Data model *)

Record GameConfig := mkConfig { rows : Z; cols : Z; mines : Z }.

Record Cell := mkCell {
  isMine : bool;
  isOpen : bool;
  isFlagged : bool;
  adjacent : Z;
  isWrongFlag : bool
}.

Abbreviation Board := (list (list Cell)).

(** [timerId] is [number | null]; only whether it is null matters. *)
Record GameState := mkState {
  config : GameConfig;
  board : Board;
  flags : Z;
  openCount : Z;
  minesPlaced : bool;
  isGameOver : bool;
  didWin : bool;
  timerId : bool;
  startTime : option Z;
  elapsed : Z;
  activeRow : Z;
  activeCol : Z;
  hintsUsed : Z
}.

Global Instance Cell_eq_dec : EqDecision Cell.
Proof. solve_decision. Defined.
Global Instance GameConfig_eq_dec : EqDecision GameConfig.
Proof. solve_decision. Defined.
Global Instance GameState_eq_dec : EqDecision GameState.
Proof. solve_decision. Defined.

(** Field assignments [cell.f = v] and [state.f = v]. *)
Definition set_isMine (v : bool) (c : Cell) : Cell :=
  mkCell v (isOpen c) (isFlagged c) (adjacent c) (isWrongFlag c).
Definition set_isOpen (v : bool) (c : Cell) : Cell :=
  mkCell (isMine c) v (isFlagged c) (adjacent c) (isWrongFlag c).
Definition set_isFlagged (v : bool) (c : Cell) : Cell :=
  mkCell (isMine c) (isOpen c) v (adjacent c) (isWrongFlag c).
Definition set_adjacent (v : Z) (c : Cell) : Cell :=
  mkCell (isMine c) (isOpen c) (isFlagged c) v (isWrongFlag c).
Definition set_isWrongFlag (v : bool) (c : Cell) : Cell :=
  mkCell (isMine c) (isOpen c) (isFlagged c) (adjacent c) v.

Definition set_board (b : Board) (s : GameState) : GameState :=
  mkState (config s) b (flags s) (openCount s) (minesPlaced s) (isGameOver s)
    (didWin s) (timerId s) (startTime s) (elapsed s) (activeRow s)
    (activeCol s) (hintsUsed s).
Definition set_flags (v : Z) (s : GameState) : GameState :=
  mkState (config s) (board s) v (openCount s) (minesPlaced s) (isGameOver s)
    (didWin s) (timerId s) (startTime s) (elapsed s) (activeRow s)
    (activeCol s) (hintsUsed s).
Definition set_openCount (v : Z) (s : GameState) : GameState :=
  mkState (config s) (board s) (flags s) v (minesPlaced s) (isGameOver s)
    (didWin s) (timerId s) (startTime s) (elapsed s) (activeRow s)
    (activeCol s) (hintsUsed s).
Definition set_minesPlaced (v : bool) (s : GameState) : GameState :=
  mkState (config s) (board s) (flags s) (openCount s) v (isGameOver s)
    (didWin s) (timerId s) (startTime s) (elapsed s) (activeRow s)
    (activeCol s) (hintsUsed s).
Definition set_isGameOver (v : bool) (s : GameState) : GameState :=
  mkState (config s) (board s) (flags s) (openCount s) (minesPlaced s) v
    (didWin s) (timerId s) (startTime s) (elapsed s) (activeRow s)
    (activeCol s) (hintsUsed s).
Definition set_didWin (v : bool) (s : GameState) : GameState :=
  mkState (config s) (board s) (flags s) (openCount s) (minesPlaced s)
    (isGameOver s) v (timerId s) (startTime s) (elapsed s) (activeRow s)
    (activeCol s) (hintsUsed s).
Definition set_timerId (v : bool) (s : GameState) : GameState :=
  mkState (config s) (board s) (flags s) (openCount s) (minesPlaced s)
    (isGameOver s) (didWin s) v (startTime s) (elapsed s) (activeRow s)
    (activeCol s) (hintsUsed s).
Definition set_startTime (v : option Z) (s : GameState) : GameState :=
  mkState (config s) (board s) (flags s) (openCount s) (minesPlaced s)
    (isGameOver s) (didWin s) (timerId s) v (elapsed s) (activeRow s)
    (activeCol s) (hintsUsed s).
Definition set_elapsed (v : Z) (s : GameState) : GameState :=
  mkState (config s) (board s) (flags s) (openCount s) (minesPlaced s)
    (isGameOver s) (didWin s) (timerId s) (startTime s) v (activeRow s)
    (activeCol s) (hintsUsed s).
Definition set_hintsUsed (v : Z) (s : GameState) : GameState :=
  mkState (config s) (board s) (flags s) (openCount s) (minesPlaced s)
    (isGameOver s) (didWin s) (timerId s) (startTime s) (elapsed s)
    (activeRow s) (activeCol s) v.

(** ** Board access *)

(** [state.board[row][col]] followed by a field access: [None] when the
    element is [undefined] (negative or too large an index). *)
Definition getCell (b : Board) (row col : Z) : option Cell :=
  if decide (0 ≤ row ∧ 0 ≤ col)
  then line ← b !! Z.to_nat row; line !! Z.to_nat col
  else None.

(** In-place mutation of the cell object at [row], [col]. *)
Definition updCell (f : Cell → Cell) (row col : Z) (b : Board) : Board :=
  alter (alter f (Z.to_nat col)) (Z.to_nat row) b.

(** [for (const x of xs) body], the body possibly throwing. *)
Fixpoint forEach {A S : Type} (xs : list A) (body : A → S → option S) (s : S)
  : option S :=
  match xs with
  | [] => Some s
  | x :: xs' => s' ← body x s; forEach xs' body s'
  end.

(** ** createInitialState / createEmptyBoard *)

Definition emptyCell : Cell := mkCell false false false 0 false.

Definition createEmptyBoard (rows cols : Z) : Board :=
  replicate (Z.to_nat rows) (replicate (Z.to_nat cols) emptyCell).

Definition createInitialState (cfg : GameConfig) : GameState :=
  mkState cfg (createEmptyBoard (rows cfg) (cols cfg)) 0 0 false false false
    false None 0 0 0 0.

(** ** Timer *)

Definition clamp (value lo hi : Z) : Z := Z.min (Z.max value lo) hi.

Definition updateTimer (now : Z) (s : GameState) : GameState :=
  match startTime s with
  | None => s
  | Some t0 => set_elapsed (clamp ((now - t0) `div` 1000) 0 999) s
  end.

Definition startTimer (now : Z) (s : GameState) : GameState :=
  if timerId s then s
  else updateTimer now (set_timerId true (set_startTime (Some now) s)).

Definition stopTimer (s : GameState) : GameState :=
  if timerId s then set_timerId false s else s.

Definition resetTimerOnly (now : Z) (s : GameState) : GameState :=
  let s := set_elapsed 0 s in
  if timerId s then set_startTime (Some now) s else set_startTime None s.

(** ** Randomness

    [Math.random()] is an oracle [rnd : nat → nat]: [rnd k] stands for the
    [k]-th draw of the operation being run, and
    [Math.floor(Math.random() * n)] for an integer [n > 0] is
    [rnd k mod n], so that exactly the values [0 .. n-1] can come out. *)
Definition Random := nat → nat.

Definition randomBelow (rnd : Random) (k : nat) (n : nat) : nat :=
  (rnd k `mod` n)%nat.

(** The oracle seen by code that runs after [n] draws have been made. *)
Definition afterDraws (n : nat) (rnd : Random) : Random := λ k, rnd (n + k)%nat.

(** ** placeMines *)

Definition updState (f : Cell → Cell) (row col : Z) (s : GameState) : GameState :=
  set_board (updCell f row col (board s)) s.

(** The first pair of loops of [placeMines]: the bounds-clipped 3x3 block
    around the excluded cell, as linear indices. *)
Definition exclusionZone (rows cols excludeRow excludeCol : Z) : gset Z :=
  foldl (λ ex dr,
    foldl (λ ex dc,
      let nr := excludeRow + dr in
      let nc := excludeCol + dc in
      if decide (0 ≤ nr ∧ nr < rows ∧ 0 ≤ nc ∧ nc < cols)
      then {[ nr * cols + nc ]} ∪ ex else ex) ex (seqZ (-1) 3))
    ∅ (seqZ (-1) 3).

(** [exclusions] after the fallback test. *)
Definition exclusionSet (cfg : GameConfig) (excludeRow excludeCol : Z) : gset Z :=
  let exclusions := exclusionZone (rows cfg) (cols cfg) excludeRow excludeCol in
  if decide (rows cfg * cols cfg - Z.of_nat (size exclusions) < mines cfg)
  then {[ excludeRow * cols cfg + excludeCol ]}
  else exclusions.

(** [positions]: every linear index outside [exclusions], row-major. *)
Definition candidatePositions (rows cols : Z) (exclusions : gset Z) : list Z :=
  foldl (λ positions row,
    foldl (λ positions col,
      let index := row * cols + col in
      if decide (index ∈ exclusions) then positions else positions ++ [index])
      positions (seqZ 0 cols))
    [] (seqZ 0 rows).

(** [[a[i], a[j]] = [a[j], a[i]]].  Both indices are in range wherever the
    shuffle uses it. *)
Definition swap (a : list Z) (i j : nat) : list Z :=
  match a !! i, a !! j with
  | Some x, Some y => <[j := x]> (<[i := y]> a)
  | _, _ => a
  end.

(** The Fisher-Yates loop with loop variable [i] counting down to 1; [k]
    is the number of draws made so far. *)
Fixpoint shuffleFrom (rnd : Random) (k : nat) (i : nat) (positions : list Z)
  : list Z :=
  match i with
  | O => positions
  | S i' =>
      let j := randomBelow rnd k (i + 1) in
      shuffleFrom rnd (S k) i' (swap positions i j)
  end.

Definition shuffle (rnd : Random) (positions : list Z) : list Z :=
  shuffleFrom rnd 0 (length positions - 1) positions.

Definition countAdjacentMines (s : GameState) (row col : Z) : option Z :=
  forEach (seqZ (-1) 3) (λ dr,
    forEach (seqZ (-1) 3) (λ dc count,
      if decide (dr = 0 ∧ dc = 0) then Some count else
      let nr := row + dr in
      let nc := col + dc in
      if decide (nr < 0 ∨ nr >= rows (config s) ∨ nc < 0 ∨ nc >= cols (config s))
      then Some count else
      cell ← getCell (board s) nr nc;
      Some (if isMine cell then count + 1 else count))) 0.

(** The loop of [placeMines] that marks the first [mines] positions.
    [positions[i]] beyond the end is [undefined]; the row computed from it
    is [NaN] and the write through [state.board[NaN]] throws. *)
Definition markMines (positions : list Z) (s : GameState) : option GameState :=
  forEach (seqZ 0 (mines (config s))) (λ i s,
    index ← positions !! Z.to_nat i;
    let row := index `div` cols (config s) in
    let col := index `rem` cols (config s) in
    _ ← getCell (board s) row col;
    Some (updState (set_isMine true) row col s)) s.

(** The loop of [placeMines] that fills in [adjacent]. *)
Definition fillAdjacent (s : GameState) : option GameState :=
  forEach (seqZ 0 (rows (config s))) (λ row,
    forEach (seqZ 0 (cols (config s))) (λ col s,
      cell ← getCell (board s) row col;
      if isMine cell then Some s else
      n ← countAdjacentMines s row col;
      Some (updState (set_adjacent n) row col s))) s.

Definition placeMines (rnd : Random) (excludeRow excludeCol : Z) (s : GameState)
  : option GameState :=
  let exclusions := exclusionSet (config s) excludeRow excludeCol in
  let positions :=
    shuffle rnd (candidatePositions (rows (config s)) (cols (config s)) exclusions) in
  s ← markMines positions s;
  s ← fillAdjacent s;
  Some (set_minesPlaced true s).

(** ** Reveal engine *)

Definition revealMines (s : GameState) : option GameState :=
  forEach (seqZ 0 (rows (config s))) (λ row,
    forEach (seqZ 0 (cols (config s))) (λ col s,
      cell ← getCell (board s) row col;
      if isMine cell then Some (updState (set_isOpen true) row col s)
      else if isFlagged cell
      then Some (updState (set_isWrongFlag true) row col
                   (updState (set_isOpen true) row col s))
      else Some s)) s.

(** [endGame].  On a win [recordWin(state.elapsed)] writes the leaderboard
    store only (see [recordWin] below), not [state]. *)
Definition endGame (won : bool) (s : GameState) : option GameState :=
  let s := stopTimer (set_didWin won (set_isGameOver true s)) in
  if won then Some s else revealMines s.

Definition checkWin (s : GameState) : option (GameState * bool) :=
  let safeCells := rows (config s) * cols (config s) - mines (config s) in
  if decide (openCount s >= safeCells)
  then s' ← endGame true s; Some (s', true)
  else Some (s, false).

(** One neighbour visit of [floodOpen]'s inner loop body.  The stack is a
    list whose head is the top: [push] is cons, [pop] takes the head. *)
Definition floodVisit (row col dr dc : Z) (st : GameState * list (Z * Z))
  : option (GameState * list (Z * Z)) :=
  let nr := row + dr in
  let nc := col + dc in
  if decide (nr < 0 ∨ nr >= rows (config st.1) ∨ nc < 0 ∨ nc >= cols (config st.1))
  then Some st else
  neighbor ← getCell (board st.1) nr nc;
  if isOpen neighbor || isFlagged neighbor || isMine neighbor then Some st else
  let s := set_openCount (openCount st.1 + 1)
             (updState (set_isOpen true) nr nc st.1) in
  Some (s, if decide (adjacent neighbor = 0) then (nr, nc) :: st.2 else st.2).

(** The nine visits made for one popped coordinate. *)
Definition floodStep (row col : Z) (st : GameState * list (Z * Z))
  : option (GameState * list (Z * Z)) :=
  forEach (seqZ (-1) 3) (λ dr,
    forEach (seqZ (-1) 3) (λ dc, floodVisit row col dr dc)) st.

Inductive Outcome (A : Type) : Type :=
  | Returned (a : A)
  | Threw
  | OutOfFuel.
Global Arguments Returned {A} a.
Global Arguments Threw {A}.
Global Arguments OutOfFuel {A}.

(** The [while (stack.length > 0)] loop, one unit of fuel per iteration. *)
Fixpoint floodLoop (fuel : nat) (stack : list (Z * Z)) (s : GameState)
  : Outcome GameState :=
  match stack with
  | [] => Returned s
  | (row, col) :: stack' =>
      match fuel with
      | O => OutOfFuel
      | S fuel' =>
          match floodStep row col (s, stack') with
          | None => Threw
          | Some (s', stack'') => floodLoop fuel' stack'' s'
          end
      end
  end.

(** Number of cells of the board on which [p] holds. *)
Definition countCells (p : Cell → bool) (b : Board) : nat :=
  length (filter (λ c, p c = true) (concat b)).

(** Number of cells of the board that are not open yet.  Every iteration
    of the loop lowers [length stack + closedCells], which bounds the
    number of iterations (see [floodLoop_enough_fuel]). *)
Definition closedCells (b : Board) : nat := countCells (λ c, negb (isOpen c)) b.
Definition openCells (b : Board) : nat := countCells isOpen b.
Definition flaggedCells (b : Board) : nat := countCells isFlagged b.
Definition mineCells (b : Board) : nat := countCells isMine b.
Definition openMines (b : Board) : nat := countCells (λ c, isMine c && isOpen c) b.
Definition closedSafe (b : Board) : nat :=
  countCells (λ c, negb (isMine c) && negb (isOpen c)) b.

Definition floodOpen (s : GameState) (startRow startCol : Z) : option GameState :=
  match floodLoop (S (closedCells (board s))) [(startRow, startCol)] s with
  | Returned s' => Some s'
  | Threw | OutOfFuel => None
  end.

Definition openCell (s : GameState) (row col : Z) : option (GameState * bool) :=
  cell ← getCell (board s) row col;
  if isOpen cell || isFlagged cell then Some (s, false) else
  let s := set_openCount (openCount s + 1) (updState (set_isOpen true) row col s) in
  if isMine cell then s' ← endGame false s; Some (s', false)
  else if decide (adjacent cell = 0)
  then s' ← floodOpen s row col; Some (s', true)
  else Some (s, true).

Definition handleCellClick (now : Z) (rnd : Random) (s : GameState) (row col : Z)
  : option GameState :=
  if isGameOver s then Some s else
  cell ← getCell (board s) row col;
  if isOpen cell || isFlagged cell then Some s else
  s ← (if minesPlaced s then Some s
       else s' ← placeMines rnd row col s; Some (startTimer now s'));
  r ← openCell s row col;
  if isGameOver r.1 then Some r.1 else
  w ← checkWin r.1;
  Some w.1.

Definition toggleFlag (s : GameState) (row col : Z) : option GameState :=
  if isGameOver s then Some s else
  cell ← getCell (board s) row col;
  if isOpen cell then Some s else
  let flagged := negb (isFlagged cell) in
  let s := updState (set_isFlagged flagged) row col s in
  Some (set_flags (flags s + (if flagged then 1 else -1)) s).

(** ** Hint selector *)

(** The scan of [findHintCell]: the pools [zeros] and [candidates]. *)
Definition hintPools (s : GameState)
  : option (list (Z * Z) * list (Z * Z)) :=
  forEach (seqZ 0 (rows (config s))) (λ row,
    forEach (seqZ 0 (cols (config s))) (λ col pools,
      cell ← getCell (board s) row col;
      if isOpen cell || isFlagged cell || isMine cell then Some pools else
      if decide (adjacent cell = 0)
      then Some (pools.1 ++ [(row, col)], pools.2)
      else Some (pools.1, pools.2 ++ [(row, col)]))) ([], []).

Definition findHintCell (rnd : Random) (s : GameState)
  : option (option (Z * Z)) :=
  pools ← hintPools s;
  let pool := if decide (0 < length pools.1)%nat then pools.1 else pools.2 in
  if decide (length pool = 0%nat) then Some None
  else Some (pool !! randomBelow rnd 0 (length pool)).

Definition handleHint (now : Z) (rnd : Random) (s : GameState) : option GameState :=
  if isGameOver s then Some s else
  if negb (minesPlaced s) then
    let row := Z.of_nat (randomBelow rnd 0 (Z.to_nat (rows (config s)))) in
    let col := Z.of_nat (randomBelow rnd 1 (Z.to_nat (cols (config s)))) in
    s ← handleCellClick now (afterDraws 2 rnd) s row col;
    Some (set_hintsUsed (hintsUsed s + 1) s)
  else
    hint ← findHintCell rnd s;
    match hint with
    | None => Some s
    | Some _ => Some (set_hintsUsed (hintsUsed s + 1) s)
    end.

(** [startNewGame]: the session is replaced wholesale, then
    [resetTimerOnly] runs on the fresh state. *)
Definition startNewGame (now : Z) (cfg : GameConfig) (s : GameState) : GameState :=
  resetTimerOnly now (createInitialState cfg).

(** ** Leaderboard store *)

(** A JavaScript number as far as the loader looks at it: [NaN], an
    infinity, or a finite value (every finite double is a rational). *)
Inductive Number : Type :=
  | NaN
  | Infinity (negative : bool)
  | Finite (q : Q).

(** A JavaScript string is a sequence of UTF-16 code units, and [length],
    [slice] and the test for the empty string go by code units.  The
    strings that the program measures or cuts (the nicknames, and with
    them every string value of a parsed document) are the lists of their
    code units, each a number below [2^16].  The keys of objects, the
    stored text and the texts put on the page are only built, compared
    and passed on; they are Rocq strings. *)
Abbreviation JSString := (list N).

(** A value produced by [JSON.parse].  The fields of an object are its own
    properties in [Object.entries] order. *)
#[local] Unset Elimination Schemes.
Inductive Json : Type :=
  | JNull
  | JBool (b : bool)
  | JNum (x : Number)
  | JStr (s : JSString)
  | JArr (items : list Json)
  | JObj (fields : list (string * Json)).
#[local] Set Elimination Schemes.

Record LeaderboardEntry := mkEntry { name : JSString; time : Z }.

Abbreviation LeaderboardStore := (gmap string (list LeaderboardEntry)).

Definition LEADERBOARD_LIMIT : nat := 5.
Definition MAX_NICKNAME_LENGTH : nat := 12.
(** ['玩家'], the code units U+73A9 and U+5BB6. *)
Definition DEFAULT_NICKNAME : JSString := [0x73a9; 0x5bb6]%N.

(** What [localStorage.getItem] does: throws, returns [null], or returns
    the stored string. *)
Inductive StorageRead : Type :=
  | ReadThrows
  | ReadNull
  | ReadString (raw : string).

(** [candidate.time], [candidate.name]: [None] is [undefined].  An array
    has neither property. *)
Definition getProp (key : string) (v : Json) : option Json :=
  match v with
  | JObj fields => (λ r, r.2.2) <$> list_find (λ kv, kv.1 = key) fields
  | _ => None
  end.

(** [Math.floor(x)] for an [x] accepted by [Number.isFinite]; [Math.floor]
    keeps [NaN] and the infinities, which [Number.isFinite] rejects. *)
Definition finiteFloor (x : Number) : option Z :=
  match x with
  | Finite q => Some (Qfloor q)
  | NaN | Infinity _ => None
  end.

(** [entries.sort((a, b) => a.time - b.time)]: a stable sort by time. *)
Fixpoint insertByTime (e : LeaderboardEntry) (l : list LeaderboardEntry)
  : list LeaderboardEntry :=
  match l with
  | [] => [e]
  | e' :: l' =>
      if decide (time e ≤ time e') then e :: l else e' :: insertByTime e l'
  end.

Definition sortByTime (l : list LeaderboardEntry) : list LeaderboardEntry :=
  foldr insertByTime [] l.

(** [store[key] = records] on an object literal.  The key ["__proto__"]
    reaches the accessor of [Object.prototype] and creates no own
    property. *)
Definition assignKey (key : string) (records : list LeaderboardEntry)
    (store : LeaderboardStore) : LeaderboardStore :=
  if decide (key = "__proto__") then store else <[key := records]> store.

Section Leaderboard.
(** Built-ins of the platform, left abstract: [JSON.parse] ([None] is a
    [SyntaxError]), the string-to-number conversion, the number
    conversion of an object or array ([None] is the [TypeError] of an
    object that has no callable [toString]/[valueOf]), and
    [String.prototype.trim]. *)
Variable JSON_parse : string → option Json.
Variable StringToNumber : JSString → Number.
Variable ObjectToNumber : Json → option Number.
Variable trim : JSString → JSString.

(** [Number(v)]. *)
Definition ToNumber (v : option Json) : option Number :=
  match v with
  | None => Some NaN
  | Some JNull => Some (Finite 0%Q)
  | Some (JBool b) => Some (Finite (if b then 1%Q else 0%Q))
  | Some (JNum x) => Some x
  | Some (JStr s) => Some (StringToNumber s)
  | Some (JArr items) => ObjectToNumber (JArr items)
  | Some (JObj fields) => ObjectToNumber (JObj fields)
  end.

(** [normalizeNickname].  [trimmed.slice(0, MAX_NICKNAME_LENGTH)] keeps
    the first twelve code units. *)
Definition normalizeNickname (value : option Json) : JSString :=
  match value with
  | Some (JStr v) =>
      let trimmed := trim v in
      if decide (trimmed = []) then DEFAULT_NICKNAME
      else take MAX_NICKNAME_LENGTH trimmed
  | _ => DEFAULT_NICKNAME
  end.

Definition inRange (time : Z) : bool :=
  bool_decide (time >= 0) && bool_decide (time <= 999).

(** The callback of [value.forEach] in [loadLeaderboard], on the pair of
    [entries] and [migrated]. *)
Definition sanitizeItem (item : Json) (st : list LeaderboardEntry * bool)
  : option (list LeaderboardEntry * bool) :=
  match item with
  | JNum _ | JStr _ =>
      x ← ToNumber (Some item);
      match finiteFloor x with
      | Some time =>
          if inRange time
          then Some (st.1 ++ [mkEntry DEFAULT_NICKNAME time], true)
          else Some st
      | None => Some st
      end
  | JNull | JBool _ => Some st
  | JArr _ | JObj _ =>
      x ← ToNumber (getProp "time" item);
      match finiteFloor x with
      | Some time =>
          if inRange time then
            let name := normalizeNickname (getProp "name" item) in
            let migrated :=
              match getProp "name" item with
              | Some (JStr v) => if decide (v = name) then st.2 else true
              | _ => true
              end in
            Some (st.1 ++ [mkEntry name time], migrated)
          else Some st
      | None => Some st
      end
  end.

(** The body of the [for ... of Object.entries(parsed)] loop, on the pair
    of [sanitized] and [migrated]. *)
Definition sanitizeKey (kv : string * Json) (st : LeaderboardStore * bool)
  : option (LeaderboardStore * bool) :=
  match kv.2 with
  | JArr value =>
      r ← forEach value sanitizeItem ([], st.2);
      if decide (0 < length r.1)%nat
      then Some (assignKey kv.1 (take LEADERBOARD_LIMIT (sortByTime r.1)) st.1, r.2)
      else Some (st.1, r.2)
  | _ => Some st
  end.

(** [loadLeaderboard]: the store returned, and whether
    [saveLeaderboard(sanitized)] was called.  Whatever is thrown inside
    the [try] block ends in [return {}]. *)
Definition loadLeaderboard (read : StorageRead) : LeaderboardStore * bool :=
  match read with
  | ReadThrows => (∅, false)
  | ReadNull => (∅, false)
  | ReadString raw =>
      if decide (raw = "") then (∅, false) else
      match JSON_parse raw with
      | None => (∅, false)
      | Some (JObj fields) =>
          match forEach fields sanitizeKey (∅, false) with
          | Some r => r
          | None => (∅, false)
          end
      | Some _ => (∅, false)
      end
  end.

(** [recordWin] on the store, for the nickname in the settings and the
    key of the configuration. *)
Definition recordWin (nickname : JSString) (key : string) (time : Z)
    (store : LeaderboardStore) : LeaderboardStore :=
  let records := default [] (store !! key) in
  let records := records ++ [mkEntry (normalizeNickname (Some (JStr nickname))) time] in
  assignKey key (take LEADERBOARD_LIMIT (sortByTime records)) store.
End Leaderboard.

(** ** Text of the counters, of the times and of the leaderboard keys *)

(** [n.toString()] and [String(n)] for an integer [n]: its decimal
    digits, after a minus sign when it is negative.  (JavaScript writes
    an exponent from 10^21 on; no counter, time or field of a
    configuration comes near.) *)
Definition toString (n : Z) : string := NilZero.string_of_int (Z.to_int n).

(** [s.padStart(n, '0')]: zeros in front, up to the length [n]. *)
Fixpoint zeros (n : nat) : string :=
  match n with
  | O => ""
  | S n' => String "0"%char (zeros n')
  end.

Definition padStart (n : nat) (s : string) : string :=
  zeros (n - String.length s) +:+ s.

Definition formatCounter (value : Z) : string :=
  let absValue := Z.abs value in
  let padded := padStart 3 (toString absValue) in
  if decide (value < 0) then "-" +:+ padded else padded.

(** [Math.floor(seconds / 60)] and [seconds % 60] are taken on
    [seconds >= 60] only, where the remainder of JavaScript is [rem]. *)
Definition formatTime (seconds : Z) : string :=
  if decide (seconds < 60) then toString seconds +:+ " 秒"
  else
    let minutes := seconds `div` 60 in
    let remain := seconds `rem` 60 in
    toString minutes +:+ ":" +:+ padStart 2 (toString remain).

Definition getConfigKey (config : GameConfig) : string :=
  toString (cols config) +:+ "x" +:+ toString (rows config) +:+ "-"
    +:+ toString (mines config).

(** ** Difficulty presets and the configuration read from the page *)

(** The keys of [difficulties] ([Exclude<DifficultyKey, 'custom'>]) and
    the type [DifficultyKey]. *)
Inductive Preset : Type := easy | medium | hard.

Inductive DifficultyKey : Type :=
  | preset (p : Preset)
  | custom.

Definition difficulties (p : Preset) : GameConfig :=
  match p with
  | easy => mkConfig 9 9 10
  | medium => mkConfig 16 16 40
  | hard => mkConfig 16 30 99
  end.

(** The keys in [Object.entries(difficulties)] order. *)
Definition presetKeys : list Preset := [easy; medium; hard].

Definition findDifficultyKey (config : GameConfig) : DifficultyKey :=
  match list_find (λ p, rows (difficulties p) = rows config ∧
                        cols (difficulties p) = cols config ∧
                        mines (difficulties p) = mines config) presetKeys with
  | Some (_, p) => preset p
  | None => custom
  end.

(** [Math.max], [Math.min], [*] and [-] on numbers.  [Infinity true] is
    the negative infinity.  A finite result is exact, as it is on the
    whole numbers below 2^53. *)
Definition Math_max (x y : Number) : Number :=
  match x, y with
  | NaN, _ | _, NaN => NaN
  | Infinity false, _ | _, Infinity false => Infinity false
  | Infinity true, z | z, Infinity true => z
  | Finite p, Finite q => if Qle_bool p q then Finite q else Finite p
  end.

Definition Math_min (x y : Number) : Number :=
  match x, y with
  | NaN, _ | _, NaN => NaN
  | Infinity true, _ | _, Infinity true => Infinity true
  | Infinity false, z | z, Infinity false => z
  | Finite p, Finite q => if Qle_bool p q then Finite p else Finite q
  end.

Definition Number_mul (x y : Number) : Number :=
  match x, y with
  | NaN, _ | _, NaN => NaN
  | Finite p, Finite q => Finite (p * q)
  | Infinity a, Infinity b => Infinity (xorb a b)
  | Infinity a, Finite q | Finite q, Infinity a =>
      if Qeq_bool q 0 then NaN else Infinity (xorb a (negb (Qle_bool 0 q)))
  end.

Definition Number_sub (x y : Number) : Number :=
  match x, y with
  | NaN, _ | _, NaN => NaN
  | Finite p, Finite q => Finite (p - q)
  | Infinity a, Infinity b => if Bool.eqb a b then NaN else Infinity a
  | Infinity a, Finite _ => Infinity a
  | Finite _, Infinity b => Infinity (negb b)
  end.

(** [clamp] on numbers that need not be whole. *)
Definition clampNumber (value lo hi : Number) : Number :=
  Math_min (Math_max value lo) hi.

Definition fromZ (n : Z) : Number := Finite (inject_Z n).

(** The object [{ rows, cols, mines }] before its fields are known to be
    whole numbers. *)
Record ConfigNumbers := mkConfigNumbers {
  rowsNumber : Number;
  colsNumber : Number;
  minesNumber : Number
}.

Section ConfigFromUI.
Variable StringToNumber : string → Number.

(** [Number(el.value || dflt)]: the default for an empty field, else the
    number conversion of its text. *)
Definition fieldNumber (value : string) (dflt : Z) : Number :=
  if decide (value = "") then fromZ dflt else StringToNumber value.

(** [getConfigFromUI], from the selected difficulty and the texts of the
    three custom fields. *)
Definition getConfigFromUI (selected : DifficultyKey)
    (customCols customRows customMines : string) : ConfigNumbers :=
  match selected with
  | preset p =>
      mkConfigNumbers (fromZ (rows (difficulties p))) (fromZ (cols (difficulties p)))
        (fromZ (mines (difficulties p)))
  | custom =>
      let cols := clampNumber (fieldNumber customCols 12) (fromZ 6) (fromZ 40) in
      let rows := clampNumber (fieldNumber customRows 12) (fromZ 6) (fromZ 30) in
      let maxMines := Number_sub (Number_mul rows cols) (fromZ 1) in
      let mines := clampNumber (fieldNumber customMines 10) (fromZ 1) maxMines in
      mkConfigNumbers rows cols mines
  end.
End ConfigFromUI.

(** ** Settings *)

Record Settings := mkSettings { soundEnabled : bool; nickname : JSString }.

(** [JSON.stringify(next)] of [saveSettings], as [JSON.parse] reads it
    back.  Every settings object is built with [soundEnabled] first. *)
Definition settingsJson (next : Settings) : Json :=
  JObj [("soundEnabled", JBool (soundEnabled next)); ("nickname", JStr (nickname next))].

Section Settings.
Variable JSON_parse : string → option Json.
Variable trim : JSString → JSString.

(** [loadSettings].  [JSON.parse] may return [null], on which the read of
    [parsed.soundEnabled] throws; on any other value that is not an object
    with these properties both reads give [undefined]. *)
Definition loadSettings (read : StorageRead) : Settings :=
  match read with
  | ReadThrows => mkSettings true DEFAULT_NICKNAME
  | ReadNull => mkSettings true DEFAULT_NICKNAME
  | ReadString raw =>
      if decide (raw = "") then mkSettings true DEFAULT_NICKNAME else
      match JSON_parse raw with
      | None => mkSettings true DEFAULT_NICKNAME
      | Some JNull => mkSettings true DEFAULT_NICKNAME
      | Some parsed =>
          mkSettings
            (match getProp "soundEnabled" parsed with
             | Some (JBool false) => false
             | _ => true
             end)
            (normalizeNickname trim (getProp "nickname" parsed))
      end
  end.

Definition setSoundEnabled (enabled : bool) (settings : Settings) : Settings :=
  mkSettings enabled (nickname settings).

Definition setNickname (value : JSString) (settings : Settings) : Settings :=
  let normalized := normalizeNickname trim (Some (JStr value)) in
  mkSettings (soundEnabled settings) normalized.

(** [handleNicknameInput], from the text of the nickname field. *)
Definition handleNicknameInput (value : JSString) (settings : Settings) : Settings :=
  let trimmed := take MAX_NICKNAME_LENGTH value in
  mkSettings (soundEnabled settings) (normalizeNickname trim (Some (JStr trimmed))).
End Settings.

(** ** Saving the leaderboard *)

(** [JSON.stringify(store)] of [saveLeaderboard], as [JSON.parse] reads
    it back, for the keys of the store in the order [fields] lists them.
    Every entry is built as [{ name, time }]. *)
Definition entryJson (e : LeaderboardEntry) : Json :=
  JObj [("name", JStr (name e)); ("time", JNum (fromZ (time e)))].

Definition storeJson (fields : list (string * list LeaderboardEntry)) : Json :=
  JObj ((λ kv, (kv.1, JArr (entryJson <$> kv.2))) <$> fields).

(** ** The active cell and the keyboard *)

Definition set_activeRow (v : Z) (s : GameState) : GameState :=
  mkState (config s) (board s) (flags s) (openCount s) (minesPlaced s)
    (isGameOver s) (didWin s) (timerId s) (startTime s) (elapsed s) v
    (activeCol s) (hintsUsed s).
Definition set_activeCol (v : Z) (s : GameState) : GameState :=
  mkState (config s) (board s) (flags s) (openCount s) (minesPlaced s)
    (isGameOver s) (didWin s) (timerId s) (startTime s) (elapsed s)
    (activeRow s) v (hintsUsed s).

(** [setActiveCell].  Once [buildBoardElements] has run, [state.cellEls]
    holds one button for every cell of the configured board, so [next] is
    defined exactly for the coordinates on the board. *)
Definition setActiveCell (row col : Z) (s : GameState) : GameState :=
  if decide (0 ≤ row < rows (config s) ∧ 0 ≤ col < cols (config s))
  then set_activeCol col (set_activeRow row s)
  else s.

Definition moveActiveCell (deltaRow deltaCol : Z) (s : GameState) : GameState :=
  let nextRow := clamp (activeRow s + deltaRow) 0 (rows (config s) - 1) in
  let nextCol := clamp (activeCol s + deltaCol) 0 (cols (config s) - 1) in
  if decide (nextRow = activeRow s ∧ nextCol = activeCol s) then s
  else setActiveCell nextRow nextCol s.

(** [handleKeyDown], from [isTypingTarget(event.target)] and [event.key]. *)
Definition handleKeyDown (typing : bool) (key : string) (now : Z) (rnd : Random)
    (s : GameState) : option GameState :=
  if typing then Some s
  else if decide (key = "ArrowUp") then Some (moveActiveCell (-1) 0 s)
  else if decide (key = "ArrowDown") then Some (moveActiveCell 1 0 s)
  else if decide (key = "ArrowLeft") then Some (moveActiveCell 0 (-1) s)
  else if decide (key = "ArrowRight") then Some (moveActiveCell 0 1 s)
  else if decide (key = " ") then handleCellClick now rnd s (activeRow s) (activeCol s)
  else if decide (key = "Enter") then handleCellClick now rnd s (activeRow s) (activeCol s)
  else if decide (key = "f" ∨ key = "F") then toggleFlag s (activeRow s) (activeCol s)
  else Some s.

(** ** renderCell *)

(** What [renderCell] leaves on the button of a cell: its class list, its
    text, its [data-num] attribute and its [aria-label]. *)
Record CellView := mkCellView {
  className : list string;
  textContent : string;
  dataNum : option string;
  ariaLabel : string
}.

Definition renderCell (cell : Cell) (isActive : bool) : CellView :=
  let classes := "cell" :: (if isActive then ["active"] else []) in
  if isOpen cell then
    let classes := classes ++ ["open"] in
    if isMine cell then mkCellView (classes ++ ["mine"]) "" None "地雷"
    else if isWrongFlag cell
    then mkCellView (classes ++ ["wrong"]) "錯" None "旗子錯誤"
    else if decide (adjacent cell > 0)
    then mkCellView classes (toString (adjacent cell)) (Some (toString (adjacent cell)))
           ("鄰近 " +:+ toString (adjacent cell) +:+ " 顆地雷")
    else mkCellView classes "" None "空白"
  else if isFlagged cell then mkCellView (classes ++ ["flagged"]) "" None "已插旗"
  else mkCellView classes "" None "未開啟".

(** ** Vocabulary of the statements *)

(** The board has the dimensions of the configuration. *)
Definition wfState (s : GameState) : Prop :=
  length (board s) = Z.to_nat (rows (config s)) ∧
  Forall (λ line, length line = Z.to_nat (cols (config s))) (board s).

Global Instance wfState_dec s : Decision (wfState s).
Proof. unfold wfState. apply _. Defined.

Definition inBounds (s : GameState) (row col : Z) : Prop :=
  0 ≤ row < rows (config s) ∧ 0 ≤ col < cols (config s).

(** The coordinates visited by [for row ... for col ...], in order. *)
Definition coords (rows cols : Z) : list (Z * Z) :=
  row ← seqZ 0 rows; col ← seqZ 0 cols; [(row, col)].

(** Two states that differ in their boards only. *)
Definition sameButBoard (s s' : GameState) : Prop :=
  s' = set_board (board s') s.

(** ** Reference count of mined neighbours

    Independent of the configuration and of the loops of the engine: over
    every coordinate of the rectangle that encloses the board, count those
    that are next to the cell (king's move) and hold a mine. *)
Definition boardExtent (b : Board) : Z * Z :=
  (Z.of_nat (length b), Z.of_nat (max_list (length <$> b))).

Definition mineAt (b : Board) (row col : Z) : bool :=
  match getCell b row col with
  | Some cell => isMine cell
  | None => false
  end.

Definition isNeighbour (row col row' col' : Z) : bool :=
  bool_decide (Z.abs (row' - row) ≤ 1 ∧ Z.abs (col' - col) ≤ 1 ∧
               (row', col') ≠ (row, col)).

Definition minedNeighbours (b : Board) (row col : Z) : Z :=
  Z.of_nat (length (filter
    (λ p, isNeighbour row col p.1 p.2 && mineAt b p.1 p.2 = true)
    (coords (boardExtent b).1 (boardExtent b).2))).

(** ** First-click neighbourhood

    The cells of the 3x3 block around a cell that lie on the board of the
    configuration, as coordinates. *)
Definition clippedBlock (cfg : GameConfig) (row col : Z) : list (Z * Z) :=
  filter (λ p, 0 ≤ p.1 < rows cfg ∧ 0 ≤ p.2 < cols cfg)
    (dr ← seqZ (-1) 3; dc ← seqZ (-1) 3; [(row + dr, col + dc)]).

(** ** The session as a state machine

    The events that reach the engine: a click, a flag toggle, a hint, a
    new game, the timer-only reset and the one-second tick, each with the
    clock value and the random draws it consumes. *)
Inductive Event : Type :=
  | Click (now : Z) (rnd : Random) (row col : Z)
  | Flag (row col : Z)
  | Hint (now : Z) (rnd : Random)
  | NewGame (now : Z) (cfg : GameConfig)
  | ResetTimer (now : Z)
  | Tick (now : Z).

Definition step (s : GameState) (e : Event) : option GameState :=
  match e with
  | Click now rnd row col => handleCellClick now rnd s row col
  | Flag row col => toggleFlag s row col
  | Hint now rnd => handleHint now rnd s
  | NewGame now cfg => Some (startNewGame now cfg s)
  | ResetTimer now => Some (resetTimerOnly now s)
  | Tick now => Some (if timerId s then updateTimer now s else s)
  end.

(** States reached from a fresh session by events that return. *)
Inductive reachable : GameState → Prop :=
  | reachable_init cfg : reachable (createInitialState cfg)
  | reachable_step s e s' : reachable s → step s e = Some s' → reachable s'.

(** Running a list of events. *)
Definition run (s : GameState) (events : list Event) : option GameState :=
  forEach events (λ e s, step s e) s.

(** ** The win condition *)

Definition validConfig (cfg : GameConfig) : Prop :=
  0 < rows cfg ∧ 0 < cols cfg ∧ 0 < mines cfg < rows cfg * cols cfg.

Definition safeCells (s : GameState) : Z :=
  rows (config s) * cols (config s) - mines (config s).

(** Every cell that is not a mine is open. *)
Definition allSafeOpen (b : Board) : Prop :=
  ∀ r c cell, getCell b r c = Some cell → isMine cell = false → isOpen cell = true.

(** No mine has been opened. *)
Definition noMineOpen (b : Board) : Prop :=
  ∀ r c cell, getCell b r c = Some cell → isMine cell = true → isOpen cell = false.

(** The four phases of a session, with what the counters say in each:
    before the first reveal, in play, won, lost. *)
Definition fresh (s : GameState) : Prop :=
  isGameOver s = false ∧ didWin s = false ∧ minesPlaced s = false ∧
  mineCells (board s) = 0%nat ∧ openCells (board s) = 0%nat ∧ openCount s = 0.

Definition inPlay (s : GameState) : Prop :=
  isGameOver s = false ∧ didWin s = false ∧ minesPlaced s = true ∧
  Z.of_nat (mineCells (board s)) = mines (config s) ∧
  openCount s = Z.of_nat (openCells (board s)) ∧
  openMines (board s) = 0%nat ∧ openCount s < safeCells s.

Definition won (s : GameState) : Prop :=
  isGameOver s = true ∧ didWin s = true ∧ minesPlaced s = true ∧
  Z.of_nat (mineCells (board s)) = mines (config s) ∧
  closedSafe (board s) = 0%nat ∧ openMines (board s) = 0%nat.

Definition lost (s : GameState) : Prop :=
  isGameOver s = true ∧ didWin s = false ∧ (0 < openMines (board s))%nat.

Definition sessionInv (s : GameState) : Prop :=
  wfState s ∧ validConfig (config s) ∧ (fresh s ∨ inPlay s ∨ won s ∨ lost s).

(** Events as the user interface produces them: coordinates of a cell of
    the board, and a valid configuration for a new game. *)
Definition uiEvent (s : GameState) (e : Event) : Prop :=
  match e with
  | Click _ _ row col | Flag row col => inBounds s row col
  | NewGame _ cfg => validConfig cfg
  | Hint _ _ | ResetTimer _ | Tick _ => True
  end.

(** The session status WON, and the number of steps of a run that enter
    it. *)
Definition isWon (s : GameState) : bool := isGameOver s && didWin s.

Definition isNewGame (e : Event) : bool :=
  match e with NewGame _ _ => true | _ => false end.

Fixpoint winTransitions (s : GameState) (events : list Event) : nat :=
  match events with
  | [] => 0
  | e :: events' =>
      match step s e with
      | None => 0
      | Some s' =>
          ((if negb (isWon s) && isWon s' then 1 else 0)
           + winTransitions s' events')%nat
      end
  end.

(** ** Vocabulary for the leaderboard loader *)

Section LeaderboardVocabulary.
Variable StringToNumber : JSString → Number.
Variable ObjectToNumber : Json → option Number.

(** The value whose number conversion is the time of a raw item: the
    item itself for a legacy number or string, its [time] property for an
    object, and nothing for [null] and booleans, which are skipped. *)
Definition rawTime (item : Json) : option (option Json) :=
  match item with
  | JNum _ | JStr _ => Some (Some item)
  | JNull | JBool _ => None
  | JArr _ | JObj _ => Some (getProp "time" item)
  end.

(** The coerced time of a raw item is the integer [t] in [0, 999]. *)
Definition validTime (item : Json) (t : Z) : Prop :=
  ∃ v x, rawTime item = Some v ∧
    ToNumber StringToNumber ObjectToNumber v = Some x ∧
    finiteFloor x = Some t ∧ 0 ≤ t ≤ 999.

(** The coerced time of a raw item is not a finite integer in [0, 999]
    (or the item is [null] or a boolean and has none). *)
Definition invalidTime (item : Json) : Prop :=
  ∀ v x t, rawTime item = Some v →
    ToNumber StringToNumber ObjectToNumber v = Some x →
    finiteFloor x = Some t → ¬ (0 ≤ t ≤ 999).

(** The entries that a list of raw items leaves, in order: an item with
    an invalid time leaves none, an item with a valid time leaves one
    entry with that time. *)
Inductive keptEntries : list Json → list LeaderboardEntry → Prop :=
  | kept_nil : keptEntries [] []
  | kept_drop item items es :
      invalidTime item → keptEntries items es → keptEntries (item :: items) es
  | kept_keep item items e es :
      validTime item (time e) → keptEntries items es →
      keptEntries (item :: items) (e :: es).

(** What is known of every key of the sanitized store: its entries are
    the first five, by time, of those that the raw items under the key
    leave. *)
Definition sanitizedKey (fields : list (string * Json)) (key : string)
    (entries : list LeaderboardEntry) : Prop :=
  ∃ value es, (key, JArr value) ∈ fields ∧ keptEntries value es ∧ es ≠ [] ∧
    entries = take LEADERBOARD_LIMIT (sortByTime es).
End LeaderboardVocabulary.

(** ** Relations between the states before and after an operation *)

(** What [revealMines] does to one cell. *)
Definition revealCell (cell : Cell) : Cell :=
  if isMine cell then set_isOpen true cell
  else if isFlagged cell then set_isWrongFlag true (set_isOpen true cell)
  else cell.

(** How [floodOpen] may change one cell: not at all, or by opening a cell
    that was closed, unflagged and not a mine. *)
Definition floodCell (old new : option Cell) : Prop :=
  new = old ∨
  ∃ cell, old = Some cell ∧ isOpen cell = false ∧ isFlagged cell = false ∧
          isMine cell = false ∧ new = Some (set_isOpen true cell).

(** The relation between the state before and after any number of
    neighbour visits. *)
Definition floodInv (s s' : GameState) : Prop :=
  s' = set_openCount (openCount s') (set_board (board s') s) ∧
  (wfState s → wfState s') ∧
  (∀ r c, floodCell (getCell (board s) r c) (getCell (board s') r c)) ∧
  openCount s' + Z.of_nat (closedCells (board s'))
  = openCount s + Z.of_nat (closedCells (board s)) ∧
  openCount s' - Z.of_nat (openCells (board s'))
  = openCount s - Z.of_nat (openCells (board s)) ∧
  flaggedCells (board s') = flaggedCells (board s) ∧
  mineCells (board s') = mineCells (board s) ∧
  openMines (board s') = openMines (board s).

(** [revealMines] never closes a cell, and keeps its mine, its flag and
    the counts of both; this needs no assumption on the board. *)
Definition revealKeeps (s s' : GameState) : Prop :=
  sameButBoard s s' ∧
  (wfState s → wfState s') ∧
  (∀ r c cell, getCell (board s) r c = Some cell →
     ∃ cell', getCell (board s') r c = Some cell' ∧
       isMine cell' = isMine cell ∧ isFlagged cell' = isFlagged cell ∧
       (isOpen cell = true → isOpen cell' = true)) ∧
  flaggedCells (board s') = flaggedCells (board s) ∧
  mineCells (board s') = mineCells (board s).

(** What every operation but a flag toggle, a hint and a new game keeps. *)
Definition keeps (s s' : GameState) : Prop :=
  config s' = config s ∧ flags s' = flags s ∧ hintsUsed s' = hintsUsed s ∧
  flaggedCells (board s') = flaggedCells (board s) ∧
  (wfState s → wfState s').

(** Boards of the same extent with mines in the same places. *)
Definition sameMines (b b' : Board) : Prop :=
  boardExtent b' = boardExtent b ∧ ∀ r c, mineAt b' r c = mineAt b r c.

(** ** Helpers of the statements about [placeMines] and hints *)

(** The nine offsets [(dr, dc)] of the 3x3 loops. *)
Definition offsets : list (Z * Z) := dr ← seqZ (-1) 3; dc ← seqZ (-1) 3; [(dr, dc)].

(** The linear index [row * cols + col] of [placeMines]. *)
Definition linearIndex (cols : Z) (p : Z * Z) : Z := p.1 * cols + p.2.

(** Some cell is still closed, unflagged and not a mine. *)
Definition hintAvailable (s : GameState) : Prop :=
  ∃ r c cell, getCell (board s) r c = Some cell ∧
    isOpen cell = false ∧ isFlagged cell = false ∧ isMine cell = false.

(** Ascending by time. *)
Definition byTime (a b : LeaderboardEntry) : Prop := time a ≤ time b.

(** ** The cascade of [floodOpen] *)

(** A cell at which the cascade stops: it is open, flagged or a mine. *)
Definition settled (b : Board) (r c : Z) : Prop :=
  ∃ cell, getCell b r c = Some cell ∧
    isOpen cell || isFlagged cell || isMine cell = true.

(** Every cell of the board in the 3x3 block around [(r, c)] is settled. *)
Definition blockSettled (s : GameState) (r c : Z) : Prop :=
  ∀ dr dc, -1 ≤ dr ≤ 1 → -1 ≤ dc ≤ 1 → inBounds s (r + dr) (c + dc) →
    settled (board s) (r + dr) (c + dc).

(** A cell that is closed in [s], open in [s'] and shows no number. *)
Definition openedBlank (s s' : GameState) (r c : Z) : Prop :=
  ∃ cell cell', getCell (board s) r c = Some cell ∧ isOpen cell = false ∧
    getCell (board s') r c = Some cell' ∧ isOpen cell' = true ∧
    adjacent cell' = 0.

(** ** What [placeMines] leaves alone *)

(** Boards of the same shape whose cells agree on [isOpen], [isFlagged]
    and [isWrongFlag]. *)
Definition sameMarks (b b' : Board) : Prop :=
  ∀ r c,
    match getCell b r c, getCell b' r c with
    | Some cell, Some cell' =>
        isOpen cell' = isOpen cell ∧ isFlagged cell' = isFlagged cell ∧
        isWrongFlag cell' = isWrongFlag cell
    | None, None => True
    | _, _ => False
    end.

(** ** Hints *)

(** A cell that a hint may show: closed, unflagged and not a mine. *)
Definition hintable (cell : Cell) : Prop :=
  isOpen cell = false ∧ isFlagged cell = false ∧ isMine cell = false.

(** ** The timer *)

(** The clock reading is within the three digits of the display, the
    interval timer runs exactly while the mines are placed and the game
    is on, and a running timer has a start time. *)
Definition timerInv (s : GameState) : Prop :=
  0 ≤ elapsed s ≤ 999 ∧
  timerId s = minesPlaced s && negb (isGameOver s) ∧
  (timerId s = true → is_Some (startTime s)).

(** ** Mines and numbers during a game *)

(** Boards of the same shape whose cells agree on [isMine] and
    [adjacent]. *)
Definition sameFaces (b b' : Board) : Prop :=
  ∀ r c,
    match getCell b r c, getCell b' r c with
    | Some cell, Some cell' =>
        isMine cell' = isMine cell ∧ adjacent cell' = adjacent cell
    | None, None => True
    | _, _ => False
    end.

(** Every cell that is not a mine carries the number of its mined
    neighbours. *)
Definition numbersRight (b : Board) : Prop :=
  ∀ r c cell, getCell b r c = Some cell → isMine cell = false →
    adjacent cell = minedNeighbours b r c.

(** ** Characters of a text *)

Definition chars (s : string) : list ascii := String.list_ascii_of_string s.

Definition isDigit (a : ascii) : Prop := a ∈ chars "0123456789".

(** The numeral of a non-negative integer, and a numeral with [k] zeros
    in front. *)
Definition digits (n : Z) : Decimal.uint := N.to_uint (Z.to_N n).

Fixpoint lead (k : nat) (d : Decimal.uint) : Decimal.uint :=
  match k with
  | O => d
  | S k' => Decimal.D0 (lead k' d)
  end.

(** ** Whole numbers *)

(** The number [x] is the whole number [n]. *)
Definition isWhole (x : Number) (n : Z) : Prop :=
  match x with
  | Finite q => (q == inject_Z n)%Q
  | NaN | Infinity _ => False
  end.

(** The fields of [numbers] are the whole numbers of [cfg]. *)
Definition holdsConfig (numbers : ConfigNumbers) (cfg : GameConfig) : Prop :=
  isWhole (rowsNumber numbers) (rows cfg) ∧
  isWhole (colsNumber numbers) (cols cfg) ∧
  isWhole (minesNumber numbers) (mines cfg).

(** ** The active cell *)

(** The active cell is a cell of the board. *)
Definition activeInBounds (s : GameState) : Prop :=
  inBounds s (activeRow s) (activeCol s).

(** ** Usable nicknames *)

(** A name that can be shown on the leaderboard: not empty and at most
    [MAX_NICKNAME_LENGTH] code units long, which is how the program
    measures it. *)
Definition usableName (n : JSString) : Prop :=
  n ≠ [] ∧ (length n ≤ MAX_NICKNAME_LENGTH)%nat.

(** ** Well-formed leaderboards *)

(** The records kept under one key: at least one and at most
    [LEADERBOARD_LIMIT], ascending by time, with times in [0, 999]. *)
Definition recordsOk (entries : list LeaderboardEntry) : Prop :=
  entries ≠ [] ∧ (length entries ≤ LEADERBOARD_LIMIT)%nat ∧
  StronglySorted byTime entries ∧ ∀ e, e ∈ entries → 0 ≤ time e ≤ 999.

Definition storeOk (store : LeaderboardStore) : Prop :=
  ∀ key entries, store !! key = Some entries → recordsOk entries.

(** The records that [recordWin] keeps under a key that held [old]: the
    new record goes behind every record that is not slower, and the first
    [LEADERBOARD_LIMIT] stay. *)
Definition withRecord (e : LeaderboardEntry) (old : list LeaderboardEntry)
  : list LeaderboardEntry :=
  take LEADERBOARD_LIMIT
    (filter (λ o, time o ≤ time e) old ++ e :: filter (λ o, time e < time o) old).

(** The names of the records of a leaderboard are usable. *)
Definition namesUsable (store : LeaderboardStore) : Prop :=
  ∀ key entries e, store !! key = Some entries → e ∈ entries → usableName (name e).

(** ** Example sessions and payloads *)

(** A 3x3 board with one mine in the corner (2,2), a wrong flag on (0,2)
    and nothing open yet, with mines placed and the clock running. *)
Definition demoCell (adj : Z) : Cell := mkCell false false false adj false.

Definition demoBoard : Board :=
  [ [demoCell 0; demoCell 0; set_isFlagged true (demoCell 0)];
    [demoCell 0; demoCell 1; demoCell 1];
    [demoCell 0; demoCell 1; set_isMine true (demoCell 0)] ].

Definition demoState : GameState :=
  mkState (mkConfig 3 3 1) demoBoard 1 0 true false false true (Some 0) 0 0 0 0.

Definition demoRandom : Random := λ k, (7 * k + 3)%nat.

(** A session on the smallest custom board (6x6) with 34 mines: the
    player flags (0,4), then clicks (0,0).  With [demoRandom] the only
    safe cell besides (0,0) is (0,4), so the game is still on and every
    closed safe cell is flagged. *)
Definition stuckEvents : list Event := [Flag 0 4; Click 5 demoRandom 0 0].

Definition stuckState : GameState :=
  default (createInitialState (mkConfig 6 6 34))
    (run (createInitialState (mkConfig 6 6 34)) stuckEvents).

(** A whole game on a 3x3 board with two mines: a flag is put on the last
    safe cell and taken off again before that cell is opened. *)
Definition winEvents : list Event :=
  [Flag 2 2; Click 1 demoRandom 0 0; Flag 2 2; Click 2 demoRandom 2 2].

Definition wonState : GameState :=
  Eval vm_compute in
    default (createInitialState (mkConfig 3 3 2))
      (run (createInitialState (mkConfig 3 3 2)) winEvents).

(** The same game before its last click: every safe cell but (2,2) is
    open. *)
Definition lastMoveState : GameState :=
  Eval vm_compute in
    default (createInitialState (mkConfig 3 3 2))
      (run (createInitialState (mkConfig 3 3 2)) (take 3 winEvents)).

(** A stored payload in the legacy shape: one key with times 30, 1000, -1
    and 17, and one key whose times are all out of range. *)
Definition demoNumber (z : Z) : Json := JNum (Finite (inject_Z z)).

Definition demoPayload : Json :=
  JObj [ ("9x9-10", JArr [demoNumber 30; demoNumber 1000; demoNumber (-1);
                          demoNumber 17]);
         ("16x16-40", JArr [demoNumber 1000; demoNumber (-1)]) ].

Definition demoLoad : LeaderboardStore * bool :=
  loadLeaderboard (λ _, Some demoPayload) (λ _, NaN) (λ _, Some NaN) (λ s, s)
    (ReadString "stored").

(** A conversion of the texts of the custom fields used in the examples:
    ["50"] is 50 and every other text is 50000. *)
Definition demoToNumber (text : string) : Number :=
  if decide (text = "50") then fromZ 50 else fromZ 50000.

(** The code units of a text of ASCII characters. *)
Definition codeUnits (text : string) : JSString :=
  N_of_ascii <$> String.list_ascii_of_string text.

(** A leaderboard with two records under the key of the easy preset; the
    second name is ['玩家一二三'], five code units. *)
Definition demoStore : LeaderboardStore :=
  {[ "9x9-10" := [mkEntry (codeUnits "Bob") 17;
                  mkEntry [0x73a9; 0x5bb6; 0x4e00; 0x4e8c; 0x4e09]%N 30] ]}.

(** * Proofs *)

Global Arguments placeMines : simpl never.
Global Arguments markMines : simpl never.
Global Arguments fillAdjacent : simpl never.
Global Arguments countAdjacentMines : simpl never.
Global Arguments revealMines : simpl never.
Global Arguments endGame : simpl never.
Global Arguments checkWin : simpl never.
Global Arguments floodOpen : simpl never.
Global Arguments floodStep : simpl never.
Global Arguments openCell : simpl never.
Global Arguments handleCellClick : simpl never.
Global Arguments toggleFlag : simpl never.
Global Arguments findHintCell : simpl never.
Global Arguments startTimer : simpl never.
Global Arguments stopTimer : simpl never.

(** ** Loops *)

Lemma forEach_app {A S} (xs ys : list A) (body : A → S → option S) s :
  forEach (xs ++ ys) body s = s' ← forEach xs body s; forEach ys body s'.
Proof.
  revert s. induction xs as [|x xs IH]; intros s; simpl; [done|].
  destruct (body x s); simpl; auto.
Qed.

Lemma forEach_nested {A B S} (xs : list A) (ys : list B)
    (body : A → B → S → option S) s :
  forEach xs (λ x, forEach ys (body x)) s
  = forEach (x ← xs; y ← ys; [(x, y)]) (λ p, body p.1 p.2) s.
Proof.
  revert s. induction xs as [|x xs IH]; intros s; [done|].
  cbn [forEach mbind list_bind]. rewrite forEach_app.
  assert (∀ s, forEach (y ← ys; [(x, y)]) (λ p, body p.1 p.2) s
               = forEach ys (body x) s) as ->.
  { clear. induction ys as [|y ys IH]; intros s; simpl; [done|].
    destruct (body x y s); simpl; auto. }
  destruct (forEach ys (body x) s); simpl; auto.
Qed.

(** Invariant rule: [I done s] relates the state to the prefix of the
    list already processed. *)
Lemma forEach_prefix {A S} (I : list A → S → Prop) body (xs : list A) s s' :
  I [] s →
  (∀ done x rest s1 s2, xs = done ++ x :: rest →
     I done s1 → body x s1 = Some s2 → I (done ++ [x]) s2) →
  forEach xs body s = Some s' → I xs s'.
Proof.
  intros H0 Hstep.
  assert (∀ rest done s1, xs = done ++ rest → I done s1 →
            forEach rest body s1 = Some s' → I xs s') as Hgen.
  { induction rest as [|x rest IH]; intros done s1 Hxs Hd Hrun.
    - simpl in Hrun. rewrite app_nil_r in Hxs. by simplify_eq.
    - simpl in Hrun. destruct (body x s1) as [s2|] eqn:Hb; [|done].
      simpl in Hrun. apply (IH (done ++ [x]) s2); [|eauto|done].
      by rewrite <- app_assoc. }
  apply (Hgen xs []); done.
Qed.

(** The same rule when every step is also shown to return. *)
Lemma forEach_total {A S} (I : list A → S → Prop) body (xs : list A) s :
  I [] s →
  (∀ done x rest s1, xs = done ++ x :: rest → I done s1 →
     ∃ s2, body x s1 = Some s2 ∧ I (done ++ [x]) s2) →
  ∃ s', forEach xs body s = Some s' ∧ I xs s'.
Proof.
  intros H0 Hstep.
  assert (∀ rest done s1, xs = done ++ rest → I done s1 →
            ∃ s', forEach rest body s1 = Some s' ∧ I xs s') as Hgen.
  { induction rest as [|x rest IH]; intros done s1 Hxs Hd.
    - rewrite app_nil_r in Hxs. subst. by exists s1.
    - destruct (Hstep done x rest s1 Hxs Hd) as (s2 & Hb & Hi).
      simpl. rewrite Hb. simpl. apply (IH (done ++ [x])); [|done].
      by rewrite <- app_assoc. }
  apply (Hgen xs []); done.
Qed.

(** ** Coordinates *)

Lemma elem_of_coords r c n m : (r, c) ∈ coords n m ↔ 0 ≤ r < n ∧ 0 ≤ c < m.
Proof.
  unfold coords. rewrite list_elem_of_bind. split.
  - intros (r' & Hc & Hr). apply list_elem_of_bind in Hc as (c' & Hc & Hc').
    apply list_elem_of_singleton in Hc. simplify_eq.
    apply elem_of_seqZ in Hr, Hc'. lia.
  - intros [Hr Hc]. exists r. rewrite elem_of_seqZ. split; [|lia].
    apply list_elem_of_bind. exists c. rewrite elem_of_seqZ.
    split; [apply list_elem_of_singleton; done|lia].
Qed.

Lemma NoDup_coords n m : NoDup (coords n m).
Proof.
  unfold coords. apply NoDup_bind.
  - intros r1 r2 p _ _ H1 H2.
    apply list_elem_of_bind in H1 as (c1 & H1 & _).
    apply list_elem_of_bind in H2 as (c2 & H2 & _).
    apply list_elem_of_singleton in H1, H2. by simplify_eq.
  - intros r _. apply NoDup_bind.
    + intros c1 c2 p _ _ H1 H2. apply list_elem_of_singleton in H1, H2. by simplify_eq.
    + intros c _. apply NoDup_singleton.
    + apply NoDup_seqZ.
  - apply NoDup_seqZ.
Qed.

(** ** Board access *)

Lemma getCell_Some_nonneg b r c x : getCell b r c = Some x → 0 ≤ r ∧ 0 ≤ c.
Proof. unfold getCell. case_decide; [done|discriminate]. Qed.

Lemma getCell_updCell f r c b r' c' :
  0 ≤ r → 0 ≤ c →
  getCell (updCell f r c b) r' c'
  = if decide (r' = r ∧ c' = c) then f <$> getCell b r c else getCell b r' c'.
Proof.
  intros Hr Hc. unfold getCell, updCell.
  destruct (decide (r' = r ∧ c' = c)) as [[-> ->]|Hne].
  - destruct (decide (0 ≤ r ∧ 0 ≤ c)) as [_|[]]; [|done].
    rewrite list_lookup_alter_eq.
    destruct (b !! Z.to_nat r) as [line|]; simpl; [|done].
    by rewrite list_lookup_alter_eq.
  - destruct (decide (0 ≤ r' ∧ 0 ≤ c')) as [[Hr' Hc']|]; [|done].
    destruct (decide (r' = r)) as [->|Hrr].
    + rewrite list_lookup_alter_eq.
      destruct (b !! Z.to_nat r) as [line|]; simpl; [|done].
      rewrite list_lookup_alter_ne; [done|]. intros Heq. apply Hne. split; [done|lia].
    + rewrite list_lookup_alter_ne; [done|lia].
Qed.

Lemma getCell_updCell_eq f r c b x :
  getCell b r c = Some x → getCell (updCell f r c b) r c = Some (f x).
Proof.
  intros H. destruct (getCell_Some_nonneg _ _ _ _ H).
  rewrite getCell_updCell, decide_True, H by done. done.
Qed.

Lemma getCell_updCell_ne f r c b r' c' :
  0 ≤ r → 0 ≤ c → (r', c') ≠ (r, c) →
  getCell (updCell f r c b) r' c' = getCell b r' c'.
Proof.
  intros Hr Hc Hne. rewrite getCell_updCell by done.
  rewrite decide_False; [done|]. intros [-> ->]. done.
Qed.

Lemma length_updCell f r c b : length (updCell f r c b) = length b.
Proof. apply length_alter. Qed.

Lemma Forall_length_updCell f r c b n :
  Forall (λ line, length line = n) b →
  Forall (λ line : list Cell, length line = n) (updCell f r c b).
Proof.
  unfold updCell. intros H. apply Forall_alter; [done|].
  intros line Hl Hlen. rewrite length_alter.
  rewrite Forall_forall in H. apply H. by eapply list_elem_of_lookup_2.
Qed.

Lemma wfState_updState f r c s : wfState s → wfState (updState f r c s).
Proof.
  intros [Hl Hf]. split; simpl.
  - by rewrite length_updCell.
  - by apply Forall_length_updCell.
Qed.

Lemma wfState_getCell s r c :
  wfState s → inBounds s r c → is_Some (getCell (board s) r c).
Proof.
  intros [Hl Hf] [Hr Hc]. unfold getCell. rewrite decide_True by lia.
  destruct (lookup_lt_is_Some_2 (board s) (Z.to_nat r)) as [line Hline]; [lia|].
  rewrite Hline. simpl. apply lookup_lt_is_Some_2.
  rewrite Forall_forall in Hf. rewrite (Hf line); [lia|].
  by eapply list_elem_of_lookup_2.
Qed.

Lemma wfState_getCell_inv s r c x :
  wfState s → getCell (board s) r c = Some x → inBounds s r c.
Proof.
  intros [Hl Hf] H. destruct (getCell_Some_nonneg _ _ _ _ H) as [Hr Hc].
  unfold getCell in H. rewrite decide_True in H by done.
  destruct (board s !! Z.to_nat r) as [line|] eqn:Hline; [|done]. simpl in H.
  rewrite Forall_forall in Hf.
  assert (length line = Z.to_nat (cols (config s))) as Hlen.
  { apply Hf. by eapply list_elem_of_lookup_2. }
  apply lookup_lt_Some in Hline, H. unfold inBounds. lia.
Qed.

Lemma NoDup_split_notin {A} (done rest : list A) x :
  NoDup (done ++ x :: rest) → x ∉ done.
Proof.
  intros H Hin. apply NoDup_app in H as (_ & H & _).
  apply (H x Hin). left.
Qed.

Lemma elem_of_snoc {A} (l : list A) x y : y ∈ l ++ [x] ↔ y ∈ l ∨ y = x.
Proof. rewrite elem_of_app, list_elem_of_singleton. done. Qed.

(** ** revealMines *)

Lemma revealMines_cells s :
  wfState s →
  ∃ s', revealMines s = Some s' ∧ wfState s' ∧ sameButBoard s s' ∧
    ∀ r c, getCell (board s') r c = revealCell <$> getCell (board s) r c.
Proof.
  intros Hwf. unfold revealMines. rewrite forEach_nested.
  fold (coords (rows (config s)) (cols (config s))).
  pose proof (NoDup_coords (rows (config s)) (cols (config s))) as Hnd.
  destruct (forEach_total
    (λ done s', wfState s' ∧ sameButBoard s s' ∧
       ∀ r c, getCell (board s') r c
              = (if decide ((r, c) ∈ done) then revealCell else id)
                  <$> getCell (board s) r c)
    (λ p s0, cell ← getCell (board s0) p.1 p.2;
       if isMine cell then Some (updState (set_isOpen true) p.1 p.2 s0)
       else if isFlagged cell
       then Some (updState (set_isWrongFlag true) p.1 p.2
                    (updState (set_isOpen true) p.1 p.2 s0))
       else Some s0)
    (coords (rows (config s)) (cols (config s))) s) as (s' & Hrun & Hwf' & Hsame & Hcells).
  - split; [done|]. split; [by destruct s|].
    intros r c. rewrite decide_False by apply not_elem_of_nil.
    by destruct (getCell (board s) r c).
  - intros done [r c] rest s1 Hxs (Hwf1 & Hsame1 & Hc1). simpl.
    assert ((r, c) ∉ done) as Hfresh.
    { eapply NoDup_split_notin. rewrite <- Hxs. done. }
    assert (inBounds s r c) as Hb.
    { apply elem_of_coords. rewrite Hxs. apply elem_of_app. right. left. }
    destruct (wfState_getCell s r c Hwf Hb) as [cell Hcell].
    pose proof (Hc1 r c) as Hrc. rewrite decide_False, Hcell in Hrc by done.
    simpl in Hrc. rewrite Hrc. simpl.
    destruct Hb as [[Hr0 _] [Hc0 _]].
    assert (∀ f s2, wfState s2 → sameButBoard s s2 →
              (∀ r' c', getCell (board s2) r' c'
                 = (if decide ((r', c') = (r, c)) then f
                    else if decide ((r', c') ∈ done) then revealCell else id)
                   <$> getCell (board s) r' c') →
              f cell = revealCell cell →
              wfState s2 ∧ sameButBoard s s2 ∧
              ∀ r' c', getCell (board s2) r' c'
                 = (if decide ((r', c') ∈ done ++ [(r, c)]) then revealCell else id)
                   <$> getCell (board s) r' c') as Hfin.
    { intros f s2 Hw2 Hs2 Hget Hf. split; [done|]. split; [done|].
      intros r' c'. rewrite Hget. destruct (decide ((r', c') = (r, c))) as [Heq|Hne].
      - simplify_eq. rewrite decide_True by (apply elem_of_snoc; auto).
        rewrite Hcell. simpl. by rewrite Hf.
      - destruct (decide ((r', c') ∈ done)) as [Hin|Hnin].
        + rewrite decide_True by (apply elem_of_snoc; auto). done.
        + rewrite decide_False; [done|]. rewrite elem_of_snoc. by intros [?|?]. }
    unfold revealCell in Hfin.
    destruct (isMine cell) eqn:Hm; [|destruct (isFlagged cell) eqn:Hfl].
    + eexists. split; [done|]. apply (Hfin (set_isOpen true)); [| | |done].
      * by apply wfState_updState.
      * rewrite Hsame1. done.
      * intros r' c'. simpl. rewrite getCell_updCell by done.
        destruct (decide ((r', c') = (r, c))) as [Heq|Hne].
        -- simplify_eq. rewrite decide_True by done. by rewrite Hrc, Hcell.
        -- rewrite decide_False by (by intros [-> ->]). apply Hc1.
    + eexists. split; [done|].
      apply (Hfin (set_isWrongFlag true ∘ set_isOpen true)); [| | |done].
      * by do 2 apply wfState_updState.
      * rewrite Hsame1. done.
      * intros r' c'. simpl. rewrite !getCell_updCell by done.
        destruct (decide ((r', c') = (r, c))) as [Heq|Hne].
        -- simplify_eq. rewrite !decide_True by done. by rewrite Hrc, Hcell.
        -- rewrite !decide_False by (by intros [-> ->]). apply Hc1.
    + eexists. split; [done|]. apply (Hfin id); [done|done| |done].
      intros r' c'. destruct (decide ((r', c') = (r, c))) as [Heq|Hne].
      * simplify_eq. by rewrite Hrc, Hcell.
      * apply Hc1.
  - exists s'. split; [done|]. split; [done|]. split; [done|].
    intros r c. rewrite Hcells.
    destruct (getCell (board s) r c) as [cell|] eqn:Hcell; [|done].
    rewrite decide_True; [done|]. apply elem_of_coords.
    by eapply wfState_getCell_inv.
Qed.

(** ** Counting cells *)

Lemma filter_length_alter {A} (P : A → Prop) `{!∀ x, Decision (P x)}
    (f : A → A) (l : list A) i x :
  l !! i = Some x →
  (length (filter P (alter f i l)) + (if decide (P x) then 1 else 0)
   = length (filter P l) + (if decide (P (f x)) then 1 else 0))%nat.
Proof.
  revert i. induction l as [|y l IH]; intros [|i] Hi; simplify_eq/=.
  - rewrite !filter_cons. repeat case_decide; simpl; lia.
  - rewrite !filter_cons. specialize (IH i Hi).
    destruct (decide (P y)); simpl; lia.
Qed.

Lemma filter_concat_length_alter {A} (P : A → Prop) `{!∀ x, Decision (P x)}
    (f : A → A) (b : list (list A)) i j line x :
  b !! i = Some line → line !! j = Some x →
  (length (filter P (concat (alter (alter f j) i b)))
     + (if decide (P x) then 1 else 0)
   = length (filter P (concat b)) + (if decide (P (f x)) then 1 else 0))%nat.
Proof.
  revert i. induction b as [|l b IH]; intros [|i] Hi Hj; simplify_eq/=.
  - rewrite !filter_app, !length_app.
    pose proof (filter_length_alter P f line j x Hj). lia.
  - rewrite !filter_app, !length_app. specialize (IH i Hi Hj). lia.
Qed.

Lemma getCell_lookup b r c x :
  getCell b r c = Some x →
  ∃ line, b !! Z.to_nat r = Some line ∧ line !! Z.to_nat c = Some x.
Proof.
  unfold getCell. case_decide; [|done].
  destruct (b !! Z.to_nat r) as [line|]; [|done]. simpl. eauto.
Qed.

Lemma countCells_updCell p f b r c cell :
  getCell b r c = Some cell →
  (countCells p (updCell f r c b) + (if p cell then 1 else 0)
   = countCells p b + (if p (f cell) then 1 else 0))%nat.
Proof.
  intros Hg. apply getCell_lookup in Hg as (line & Hl & Hc).
  unfold countCells, updCell.
  pose proof (filter_concat_length_alter (λ c, p c = true) f b _ _ line cell Hl Hc) as H.
  cbv beta in H.
  destruct (p cell), (p (f cell)); repeat case_decide; try done; lia.
Qed.

Lemma filter_length_alter_same {A} (P : A → Prop) `{!∀ x, Decision (P x)}
    (f : A → A) (l : list A) i :
  (∀ x, P (f x) ↔ P x) →
  length (filter P (alter f i l)) = length (filter P l).
Proof.
  intros Hp. revert i.
  induction l as [|y l IH]; intros [|i]; cbn [alter list_alter]; [done..| |].
  - rewrite !filter_cons. pose proof (Hp y).
    destruct (decide (P (f y))), (decide (P y)); simpl; try done; exfalso; tauto.
  - rewrite !filter_cons. destruct (decide (P y)); simpl; auto.
Qed.

Lemma countCells_updCell_same p f b r c :
  (∀ cell, p (f cell) = p cell) → countCells p (updCell f r c b) = countCells p b.
Proof.
  intros Hp. unfold countCells, updCell.
  generalize (Z.to_nat r). induction b as [|line b IH]; intros [|n]; [done..| |].
  - cbn [alter list_alter concat]. rewrite !filter_app, !length_app. f_equal.
    apply filter_length_alter_same. intros x. by rewrite Hp.
  - cbn [alter list_alter concat]. rewrite !filter_app, !length_app. f_equal.
    apply IH.
Qed.

Lemma closedCells_open b r c cell :
  getCell b r c = Some cell → isOpen cell = false →
  (closedCells (updCell (set_isOpen true) r c b) + 1 = closedCells b)%nat.
Proof.
  intros Hg Ho.
  pose proof (countCells_updCell (λ c, negb (isOpen c)) (set_isOpen true) b r c cell Hg) as H.
  simpl in H. rewrite Ho in H. simpl in H. unfold closedCells. lia.
Qed.

(** ** floodOpen *)

Lemma floodCell_refl o : floodCell o o.
Proof. by left. Qed.

Lemma floodCell_trans o1 o2 o3 : floodCell o1 o2 → floodCell o2 o3 → floodCell o1 o3.
Proof.
  intros [->|(c1 & -> & H1)] [->|(c2 & H2 & H3)].
  - by left.
  - right. eauto.
  - right. eauto.
  - destruct H1 as (? & ? & ? & ->), H3 as (Ho & _). by simplify_eq.
Qed.

Lemma floodInv_refl s : floodInv s s.
Proof.
  split; [by destruct s|]. split; [done|]. split; [|done].
  intros r c. apply floodCell_refl.
Qed.

Lemma openCells_open b r c cell :
  getCell b r c = Some cell → isOpen cell = false →
  openCells (updCell (set_isOpen true) r c b) = S (openCells b).
Proof.
  intros Hg Ho.
  pose proof (countCells_updCell isOpen (set_isOpen true) b r c cell Hg) as H.
  simpl in H. rewrite Ho in H. unfold openCells. lia.
Qed.

Lemma floodInv_trans s1 s2 s3 : floodInv s1 s2 → floodInv s2 s3 → floodInv s1 s3.
Proof.
  intros (E1 & W1 & C1 & N1 & O1 & F1 & M1 & X1) (E2 & W2 & C2 & N2 & O2 & F2 & M2 & X2).
  split_and!; [|auto| |lia|lia|congruence|congruence|congruence].
  - rewrite E2. rewrite E1. done.
  - intros r c. eapply floodCell_trans; eauto.
Qed.

(** One visit either changes nothing or opens one closed, unflagged,
    mine-free cell, counts it, and pushes at most one coordinate. *)
Lemma floodVisit_spec row col dr dc s st s' st' :
  floodVisit row col dr dc (s, st) = Some (s', st') →
  floodInv s s' ∧
  (length st' + closedCells (board s') ≤ length st + closedCells (board s))%nat.
Proof.
  unfold floodVisit. cbn [fst snd]. intros H.
  case_decide as Hb.
  { simplify_eq. split; [apply floodInv_refl|done]. }
  destruct (getCell (board s) (row + dr) (col + dc)) as [nb|] eqn:Hnb; [|done].
  simpl in H.
  destruct (isOpen nb) eqn:Ho; simpl in H.
  { simplify_eq. split; [apply floodInv_refl|done]. }
  destruct (isFlagged nb) eqn:Hf; simpl in H.
  { simplify_eq. split; [apply floodInv_refl|done]. }
  destruct (isMine nb) eqn:Hm; simpl in H.
  { simplify_eq. split; [apply floodInv_refl|done]. }
  pose proof (closedCells_open _ _ _ _ Hnb Ho) as Hcl.
  pose proof (openCells_open _ _ _ _ Hnb Ho) as Hop.
  destruct (getCell_Some_nonneg _ _ _ _ Hnb) as [Hr0 Hc0].
  injection H as <- <-. split.
  - split_and!; [done|apply wfState_updState| |simpl; lia..| | |].
    + intros r c. simpl. rewrite getCell_updCell by done.
      case_decide as Heq; [|by left]. destruct Heq as [-> ->].
      right. exists nb. rewrite Hnb. done.
    + by apply countCells_updCell_same.
    + by apply countCells_updCell_same.
    + pose proof (countCells_updCell (λ c, isMine c && isOpen c) (set_isOpen true)
                    (board s) _ _ nb Hnb) as Hx.
      simpl in Hx. rewrite Hm, Ho in Hx. simpl in Hx. unfold openMines. simpl. lia.
  - simpl. case_decide; simpl; lia.
Qed.

Lemma forEach_inv {A S} (I : S → Prop) body (xs : list A) s s' :
  I s → (∀ x s1 s2, x ∈ xs → I s1 → body x s1 = Some s2 → I s2) →
  forEach xs body s = Some s' → I s'.
Proof.
  intros H0 Hstep. apply (forEach_prefix (λ _, I)); [done|].
  intros done x rest s1 s2 Hxs. apply Hstep. rewrite Hxs.
  apply elem_of_app. right. left.
Qed.

Lemma floodStep_spec row col s st s' st' :
  floodStep row col (s, st) = Some (s', st') →
  floodInv s s' ∧
  (length st' + closedCells (board s') ≤ length st + closedCells (board s))%nat.
Proof.
  unfold floodStep. rewrite forEach_nested.
  apply (forEach_inv (λ x, floodInv s x.1 ∧
    (length x.2 + closedCells (board x.1) ≤ length st + closedCells (board s))%nat)
    _ _ (s, st) (s', st')).
  - split; [apply floodInv_refl|done].
  - intros [dr dc] [s1 st1] [s2 st2] _ [Hi Hm] Hv. simpl in *.
    apply floodVisit_spec in Hv as [Hi2 Hm2]. split; [|lia].
    eapply floodInv_trans; eauto.
Qed.

Lemma floodLoop_spec fuel stack s s' :
  floodLoop fuel stack s = Returned s' → floodInv s s'.
Proof.
  revert stack s. induction fuel as [|fuel IH]; intros [|[row col] stack] s H;
    simpl in H; simplify_eq; try apply floodInv_refl.
  destruct (floodStep row col (s, stack)) as [[s1 st1]|] eqn:Hs; [|done].
  apply floodStep_spec in Hs as [Hi _].
  eapply floodInv_trans; eauto.
Qed.

(** Fuel: [length stack + closedCells] iterations always suffice. *)
Lemma floodLoop_enough_fuel fuel stack s :
  (length stack + closedCells (board s) ≤ fuel)%nat →
  floodLoop fuel stack s ≠ OutOfFuel.
Proof.
  revert stack s. induction fuel as [|fuel IH]; intros [|[row col] stack] s Hm;
    simpl in *; try done; try lia.
  destruct (floodStep row col (s, stack)) as [[s1 st1]|] eqn:Hs; [|done].
  apply floodStep_spec in Hs as [_ Hle]. apply IH. lia.
Qed.

(** More fuel does not change a run that did not run out of fuel. *)
Lemma floodLoop_more_fuel fuel fuel' stack s :
  (fuel ≤ fuel')%nat → floodLoop fuel stack s ≠ OutOfFuel →
  floodLoop fuel' stack s = floodLoop fuel stack s.
Proof.
  revert fuel' stack s. induction fuel as [|fuel IH];
    intros fuel' [|[row col] stack] s Hle Hne; simpl in *; try done;
    try by destruct fuel'.
  destruct fuel' as [|fuel']; [lia|]. simpl.
  destruct (floodStep row col (s, stack)) as [[s1 st1]|]; [|done].
  apply IH; [lia|done].
Qed.

(** The fuel that [floodOpen] gives its loop is enough, and any larger
    amount gives the same outcome: [floodOpen] is [None] only when the
    loop throws. *)
Lemma floodOpen_fuel_suffices s r c fuel :
  (S (closedCells (board s)) ≤ fuel)%nat →
  floodLoop (S (closedCells (board s))) [(r, c)] s ≠ OutOfFuel ∧
  floodLoop fuel [(r, c)] s = floodLoop (S (closedCells (board s))) [(r, c)] s.
Proof.
  intros Hle.
  assert (floodLoop (S (closedCells (board s))) [(r, c)] s ≠ OutOfFuel) as Hne.
  { apply floodLoop_enough_fuel. simpl. lia. }
  split; [done|]. by apply floodLoop_more_fuel.
Qed.

(** On a well-formed board no visit throws. *)
Lemma floodVisit_total row col dr dc s st :
  wfState s → is_Some (floodVisit row col dr dc (s, st)).
Proof.
  intros Hwf. unfold floodVisit. cbn [fst snd]. case_decide as Hb; [done|].
  destruct (wfState_getCell s (row + dr) (col + dc) Hwf) as [nb Hnb].
  { unfold inBounds. lia. }
  rewrite Hnb. simpl. by destruct (_ || _).
Qed.

Lemma floodStep_total row col s st :
  wfState s → is_Some (floodStep row col (s, st)).
Proof.
  intros Hwf. unfold floodStep. rewrite forEach_nested.
  destruct (forEach_total (λ _ x, floodInv s x.1)
    (λ p, floodVisit row col p.1 p.2)
    (dr ← seqZ (-1) 3; dc ← seqZ (-1) 3; [(dr, dc)]) (s, st)) as (x & Hx & _).
  - apply floodInv_refl.
  - intros done [dr dc] rest [s1 st1] _ Hi. simpl in *.
    destruct (floodVisit_total row col dr dc s1 st1) as [[s2 st2] Hv].
    { by apply Hi. }
    exists (s2, st2). split; [done|]. simpl.
    apply floodVisit_spec in Hv as [Hv _]. eapply floodInv_trans; eauto.
  - rewrite Hx. done.
Qed.

Lemma floodLoop_no_throw fuel stack s :
  wfState s → floodLoop fuel stack s ≠ Threw.
Proof.
  revert stack s. induction fuel as [|fuel IH]; intros [|[row col] stack] s Hwf;
    simpl; try done.
  destruct (floodStep_total row col s stack Hwf) as [[s1 st1] Hs]. rewrite Hs.
  apply IH. apply floodStep_spec in Hs as [(_ & Hw & _) _]. auto.
Qed.

Lemma floodOpen_spec s r c s' : floodOpen s r c = Some s' → floodInv s s'.
Proof.
  unfold floodOpen. intros H.
  destruct (floodLoop _ _ s) eqn:Hl; simplify_eq.
  by eapply floodLoop_spec.
Qed.

Lemma floodOpen_total s r c : wfState s → is_Some (floodOpen s r c).
Proof.
  intros Hwf. unfold floodOpen.
  pose proof (floodLoop_enough_fuel (S (closedCells (board s))) [(r, c)] s) as Hf.
  pose proof (floodLoop_no_throw (S (closedCells (board s))) [(r, c)] s Hwf) as Ht.
  destruct (floodLoop _ _ s); [done| |]; [done|].
  exfalso. apply Hf; simpl; [lia|done].
Qed.

(** ** What the reveal at a loss keeps *)

Lemma revealKeeps_refl s : revealKeeps s s.
Proof. split_and!; [by destruct s|done|eauto|done..]. Qed.

Lemma revealKeeps_updState f r c s0 s :
  (∀ x, isMine (f x) = isMine x) → (∀ x, isFlagged (f x) = isFlagged x) →
  (∀ x, isOpen x = true → isOpen (f x) = true) →
  0 ≤ r → 0 ≤ c →
  revealKeeps s0 s → revealKeeps s0 (updState f r c s).
Proof.
  intros Hm Hf Ho Hr Hc (E & W & Hcells & F & M). split_and!.
  - rewrite E. done.
  - intros Hw. apply wfState_updState. auto.
  - intros r' c' cell Hcell. destruct (Hcells r' c' cell Hcell) as (x & Hx & ? & ? & ?).
    simpl. rewrite getCell_updCell by done. case_decide as Heq.
    + destruct Heq as [-> ->]. rewrite Hx. simpl. eexists. split; [done|].
      rewrite Hm, Hf. split_and!; [done..|]. auto.
    + eauto.
  - simpl. unfold flaggedCells in *. rewrite countCells_updCell_same; done.
  - simpl. unfold mineCells in *. rewrite countCells_updCell_same; done.
Qed.

Lemma revealMines_keeps s s' : revealMines s = Some s' → revealKeeps s s'.
Proof.
  unfold revealMines. rewrite forEach_nested.
  apply (forEach_inv (revealKeeps s)); [apply revealKeeps_refl|].
  intros [r c] s1 s2 _ Hk. simpl.
  destruct (getCell (board s1) r c) as [cell|] eqn:Hcell; [|done]. simpl.
  destruct (getCell_Some_nonneg _ _ _ _ Hcell) as [Hr Hc].
  destruct (isMine cell); [|destruct (isFlagged cell)]; intros ?; simplify_eq.
  - by apply revealKeeps_updState.
  - by do 2 (apply revealKeeps_updState; [done..|]).
  - done.
Qed.

Lemma revealMines_total s : wfState s → is_Some (revealMines s).
Proof. intros H. destruct (revealMines_cells s H) as (s' & -> & _). done. Qed.

(** ** endGame, checkWin *)

Lemma endGame_win s : endGame true s = Some (stopTimer (set_didWin true (set_isGameOver true s))).
Proof. done. Qed.

Lemma stopTimer_board s : board (stopTimer s) = board s.
Proof. unfold stopTimer. by destruct (timerId s). Qed.

Lemma stopTimer_config s : config (stopTimer s) = config s.
Proof. unfold stopTimer. by destruct (timerId s). Qed.

Lemma wfState_stopTimer s : wfState (stopTimer s) ↔ wfState s.
Proof. unfold wfState. by rewrite stopTimer_board, stopTimer_config. Qed.

(** ** openCell *)

Lemma openCell_blocked s r c cell :
  getCell (board s) r c = Some cell → isOpen cell || isFlagged cell = true →
  openCell s r c = Some (s, false).
Proof. intros Hc Hb. unfold openCell. rewrite Hc. simpl. by rewrite Hb. Qed.

(** After [openCell] returns, the cell it was called on is open or flagged. *)
Lemma openCell_leaves_blocked s r c s' b :
  openCell s r c = Some (s', b) →
  ∃ cell', getCell (board s') r c = Some cell' ∧
           isOpen cell' || isFlagged cell' = true.
Proof.
  unfold openCell. intros H.
  destruct (getCell (board s) r c) as [cell|] eqn:Hcell; [|done]. simpl in H.
  destruct (isOpen cell || isFlagged cell) eqn:Hb.
  { simplify_eq. eauto. }
  pose proof (getCell_updCell_eq (set_isOpen true) r c _ _ Hcell) as Hopen.
  destruct (isMine cell).
  - destruct (endGame false _) as [s1|] eqn:He; simplify_eq/=.
    unfold endGame in He. apply revealMines_keeps in He as (_ & _ & Hk & _).
    rewrite stopTimer_board in Hk. simpl in Hk.
    destruct (Hk _ _ _ Hopen) as (x & Hx & _ & _ & Ho).
    exists x. split; [done|]. rewrite Ho; done.
  - case_decide.
    + destruct (floodOpen _ r c) as [s1|] eqn:Hf; simplify_eq/=.
      apply floodOpen_spec in Hf as (_ & _ & Hcells & _).
      specialize (Hcells r c). simpl in Hcells. rewrite Hopen in Hcells.
      destruct Hcells as [->|(x & ? & ? & _)]; [|by simplify_eq].
      eauto.
    + simplify_eq/=. eauto.
Qed.

(** ** revealMines, terminal states, openCell and floodOpen: main results *)

(** [wfState] of a concrete state. *)
Ltac solve_wf := split; [reflexivity | repeat constructor].

(** C5. On a board of the configured dimensions [revealMines] returns; it
    changes nothing but the board; every mine cell ends up open; every
    flagged cell that is not a mine ends up open and marked as a wrong
    flag; every other cell (neither mine nor flagged) is left exactly as
    it was; and no cell appears or disappears. *)
Theorem revealMines_frame s :
  wfState s →
  ∃ s', revealMines s = Some s' ∧ sameButBoard s s' ∧
    ∀ r c,
      match getCell (board s) r c with
      | None => getCell (board s') r c = None
      | Some cell =>
          ∃ cell', getCell (board s') r c = Some cell' ∧
            (isMine cell = true → isOpen cell' = true) ∧
            (isMine cell = false → isFlagged cell = true →
               isOpen cell' = true ∧ isWrongFlag cell' = true) ∧
            (isMine cell = false → isFlagged cell = false → cell' = cell)
      end.
Proof.
  intros Hwf. destruct (revealMines_cells s Hwf) as (s' & Hrun & _ & Hsame & Hcells).
  exists s'. split; [done|]. split; [done|].
  intros r c. rewrite Hcells. destruct (getCell (board s) r c) as [cell|]; [|done].
  simpl. eexists. split; [done|]. unfold revealCell.
  split_and!.
  - intros ->. done.
  - intros -> ->. done.
  - intros -> ->. done.
Qed.

Lemma revealMines_frame_witness :
  ∃ s', revealMines demoState = Some s' ∧ sameButBoard demoState s' ∧
    ∀ r c,
      match getCell (board demoState) r c with
      | None => getCell (board s') r c = None
      | Some cell =>
          ∃ cell', getCell (board s') r c = Some cell' ∧
            (isMine cell = true → isOpen cell' = true) ∧
            (isMine cell = false → isFlagged cell = true →
               isOpen cell' = true ∧ isWrongFlag cell' = true) ∧
            (isMine cell = false → isFlagged cell = false → cell' = cell)
      end.
Proof. apply (revealMines_frame demoState). solve_wf. Defined.

(** C6. Once the session is over, a click and a flag toggle both return
    without an exception and leave the whole state as it was, whatever
    the coordinates. *)
Theorem terminal_operations_are_noops now rnd s row col :
  isGameOver s = true →
  handleCellClick now rnd s row col = Some s ∧ toggleFlag s row col = Some s.
Proof.
  intros Hover. unfold handleCellClick, toggleFlag. rewrite Hover. done.
Qed.

Lemma terminal_operations_are_noops_witness :
  handleCellClick 5 demoRandom (set_isGameOver true demoState) 1 1
    = Some (set_isGameOver true demoState) ∧
  toggleFlag (set_isGameOver true demoState) 1 1
    = Some (set_isGameOver true demoState).
Proof.
  apply (terminal_operations_are_noops 5 demoRandom (set_isGameOver true demoState) 1 1).
  reflexivity.
Defined.

(** C7. [openCell] on a cell that is open or flagged returns [false] and
    the state it was given; and whenever a call of [openCell] on a cell
    has returned, a second call on the same cell returns [false] and
    changes nothing (neither [openCount] nor any cell). *)
Theorem openCell_idempotent s row col :
  (∀ cell, getCell (board s) row col = Some cell →
     isOpen cell || isFlagged cell = true →
     openCell s row col = Some (s, false)) ∧
  (∀ s' opened, openCell s row col = Some (s', opened) →
     openCell s' row col = Some (s', false)).
Proof.
  split.
  - intros cell. apply openCell_blocked.
  - intros s' opened H.
    apply openCell_leaves_blocked in H as (cell' & Hc & Hb).
    by eapply openCell_blocked.
Qed.

Lemma openCell_idempotent_witness :
  openCell demoState 0 2 = Some (demoState, false) ∧
  ∃ s', openCell demoState 0 0 = Some (s', true) ∧
        openCell s' 0 0 = Some (s', false).
Proof.
  split.
  - apply (proj1 (openCell_idempotent demoState 0 2)
             (set_isFlagged true (demoCell 0))); reflexivity.
  - eexists. split; [vm_compute; reflexivity|].
    eapply (proj2 (openCell_idempotent demoState 0 0) _ true).
    vm_compute. reflexivity.
Defined.

(** C8. On a board of the configured dimensions [floodOpen] returns; it
    changes only the board and [openCount]; every cell is either left as
    it was or was closed, unflagged and not a mine and has only had
    [isOpen] set (so no flagged cell and no mine is opened); and
    [openCount] grows by exactly the number of cells that became open. *)
Theorem floodOpen_opens_only_safe_cells s startRow startCol :
  wfState s →
  ∃ s', floodOpen s startRow startCol = Some s' ∧
    s' = set_openCount (openCount s') (set_board (board s') s) ∧
    (∀ r c,
       match getCell (board s) r c with
       | None => getCell (board s') r c = None
       | Some cell =>
           getCell (board s') r c = Some cell ∨
           (isOpen cell = false ∧ isFlagged cell = false ∧ isMine cell = false ∧
            getCell (board s') r c = Some (set_isOpen true cell))
       end) ∧
    openCount s' - openCount s
    = Z.of_nat (openCells (board s')) - Z.of_nat (openCells (board s)).
Proof.
  intros Hwf. destruct (floodOpen_total s startRow startCol Hwf) as [s' Hrun].
  exists s'. split; [done|].
  apply floodOpen_spec in Hrun as (E & _ & Hcells & _ & Hopen & _).
  split; [done|]. split; [|lia].
  intros r c. specialize (Hcells r c).
  destruct (getCell (board s) r c) as [cell|].
  - destruct Hcells as [->|(x & ? & ? & ? & ? & ->)]; [by left|].
    simplify_eq. right. done.
  - destruct Hcells as [->|(x & ? & _)]; done.
Qed.

Lemma floodOpen_opens_only_safe_cells_witness :
  ∃ s', floodOpen demoState 0 0 = Some s' ∧
    s' = set_openCount (openCount s') (set_board (board s') demoState) ∧
    (∀ r c,
       match getCell (board demoState) r c with
       | None => getCell (board s') r c = None
       | Some cell =>
           getCell (board s') r c = Some cell ∨
           (isOpen cell = false ∧ isFlagged cell = false ∧ isMine cell = false ∧
            getCell (board s') r c = Some (set_isOpen true cell))
       end) ∧
    openCount s' - openCount demoState
    = Z.of_nat (openCells (board s')) - Z.of_nat (openCells (board demoState)).
Proof. apply (floodOpen_opens_only_safe_cells demoState 0 0). solve_wf. Defined.

(** ** Fields that only [toggleFlag], a hint and a new game change *)

Lemma keeps_refl s : keeps s s.
Proof. done. Qed.

Lemma keeps_trans s1 s2 s3 : keeps s1 s2 → keeps s2 s3 → keeps s1 s3.
Proof.
  unfold keeps. intros (? & ? & ? & ? & ?) (? & ? & ? & ? & ?).
  split_and!; [congruence..|auto].
Qed.

Lemma keeps_updState f r c s :
  (∀ x, isFlagged (f x) = isFlagged x) → keeps s (updState f r c s).
Proof.
  intros Hf. split_and!; simpl; try done.
  - unfold flaggedCells. by apply countCells_updCell_same.
  - apply wfState_updState.
Qed.

Lemma keeps_stopTimer s : keeps s (stopTimer s).
Proof. unfold stopTimer. by destruct (timerId s). Qed.

Lemma keeps_startTimer now s : keeps s (startTimer now s).
Proof. unfold startTimer, updateTimer. by destruct (timerId s). Qed.

Lemma keeps_revealMines s s' : revealMines s = Some s' → keeps s s'.
Proof.
  intros (E & W & _ & F & _)%revealMines_keeps. split_and!; [by rewrite E..|done|done].
Qed.

Lemma keeps_endGame won s s' : endGame won s = Some s' → keeps s s'.
Proof.
  unfold endGame. destruct won; intros H.
  - simplify_eq. eapply keeps_trans; [|apply keeps_stopTimer]. done.
  - apply keeps_revealMines in H. eapply keeps_trans; [|done].
    eapply keeps_trans; [|apply keeps_stopTimer]. done.
Qed.

Lemma keeps_checkWin s s' w : checkWin s = Some (s', w) → keeps s s'.
Proof.
  unfold checkWin. case_decide; intros Hw; [|by simplify_eq].
  destruct (endGame true s) eqn:He; simplify_eq/=. by eapply keeps_endGame.
Qed.

Lemma keeps_floodOpen s r c s' : floodOpen s r c = Some s' → keeps s s'.
Proof.
  intros (E & W & _ & _ & _ & F & _)%floodOpen_spec.
  split_and!; [by rewrite E..|done|done].
Qed.

Lemma keeps_openCell s r c s' b : openCell s r c = Some (s', b) → keeps s s'.
Proof.
  unfold openCell. intros H.
  destruct (getCell (board s) r c) as [cell|]; [|done]. simpl in H.
  destruct (isOpen cell || isFlagged cell); [by simplify_eq|].
  assert (keeps s (set_openCount (openCount s + 1)
                     (updState (set_isOpen true) r c s))) as Hk.
  { eapply keeps_trans; [by apply (keeps_updState (set_isOpen true) r c)|done]. }
  destruct (isMine cell).
  - destruct (endGame false _) eqn:He; simplify_eq/=.
    eapply keeps_trans; [done|]. by eapply keeps_endGame.
  - case_decide; [|by simplify_eq].
    destruct (floodOpen _ r c) eqn:Hf; simplify_eq/=.
    eapply keeps_trans; [done|]. by eapply keeps_floodOpen.
Qed.

Lemma keeps_markMines positions s s' : markMines positions s = Some s' → keeps s s'.
Proof.
  unfold markMines. apply (forEach_inv (keeps s)); [done|].
  intros i s1 s2 _ Hk H.
  destruct (positions !! Z.to_nat i) as [index|]; [|done]. simpl in H.
  destruct (getCell (board s1) _ _); simplify_eq/=.
  eapply keeps_trans; [done|]. by apply keeps_updState.
Qed.

Lemma keeps_fillAdjacent s s' : fillAdjacent s = Some s' → keeps s s'.
Proof.
  unfold fillAdjacent. rewrite forEach_nested.
  apply (forEach_inv (keeps s)); [done|].
  intros [r c] s1 s2 _ Hk H. simpl in H.
  destruct (getCell (board s1) r c) as [cell|]; [|done]. simpl in H.
  destruct (isMine cell); [by simplify_eq|].
  destruct (countAdjacentMines s1 r c); simplify_eq/=.
  eapply keeps_trans; [done|]. by apply keeps_updState.
Qed.

Lemma keeps_placeMines rnd r c s s' : placeMines rnd r c s = Some s' → keeps s s'.
Proof.
  unfold placeMines. intros H.
  destruct (markMines _ s) as [s1|] eqn:H1; [|done]. simpl in H.
  destruct (fillAdjacent s1) as [s2|] eqn:H2; simplify_eq/=.
  apply keeps_markMines in H1. apply keeps_fillAdjacent in H2.
  eapply keeps_trans; [done|]. eapply keeps_trans; [done|]. done.
Qed.

Lemma keeps_handleCellClick now rnd s r c s' :
  handleCellClick now rnd s r c = Some s' → keeps s s'.
Proof.
  unfold handleCellClick. intros H.
  destruct (isGameOver s); [by simplify_eq|].
  destruct (getCell (board s) r c) as [cell|]; [|done]. simpl in H.
  destruct (isOpen cell || isFlagged cell); [by simplify_eq|].
  assert (∃ s1, keeps s s1 ∧
     (r0 ← openCell s1 r c;
      if isGameOver r0.1 then Some r0.1 else w ← checkWin r0.1; Some w.1) = Some s')
    as (s1 & Hk1 & H1).
  { destruct (minesPlaced s); [by exists s|].
    destruct (placeMines rnd r c s) as [s0|] eqn:Hp; [|done]. simpl in H.
    exists (startTimer now s0). split; [|done].
    eapply keeps_trans; [by eapply keeps_placeMines|apply keeps_startTimer]. }
  clear H. destruct (openCell s1 r c) as [[s2 b]|] eqn:Ho; [|done]. simpl in H1.
  apply keeps_openCell in Ho.
  destruct (isGameOver s2).
  - simplify_eq. by eapply keeps_trans.
  - destruct (checkWin s2) as [[s3 w]|] eqn:Hw; simplify_eq/=.
    apply keeps_checkWin in Hw. eapply keeps_trans; [done|]. by eapply keeps_trans.
Qed.

(** ** A fresh session *)

Lemma countCells_createEmptyBoard p n m :
  p emptyCell = false → countCells p (createEmptyBoard n m) = 0%nat.
Proof.
  intros Hp. unfold countCells, createEmptyBoard.
  generalize (Z.to_nat n) (Z.to_nat m). intros a b.
  induction a as [|a IH]; [done|]. simpl. rewrite filter_app, length_app, IH.
  clear IH. induction b as [|b IH]; [done|]. simpl.
  rewrite filter_cons, decide_False; [done|]. by rewrite Hp.
Qed.

Lemma wfState_createInitialState cfg : wfState (createInitialState cfg).
Proof.
  split; simpl; unfold createEmptyBoard.
  - by rewrite length_replicate.
  - apply Forall_replicate. by rewrite length_replicate.
Qed.

Lemma getCell_createEmptyBoard n m r c cell :
  getCell (createEmptyBoard n m) r c = Some cell → cell = emptyCell.
Proof.
  intros (line & Hl & Hc)%getCell_lookup. unfold createEmptyBoard in Hl.
  apply lookup_replicate_1 in Hl as [-> _].
  by apply lookup_replicate_1 in Hc as [-> _].
Qed.

(** ** toggleFlag *)

Lemma toggleFlag_spec s r c s' :
  toggleFlag s r c = Some s' →
  s' = s ∨
  ∃ cell, getCell (board s) r c = Some cell ∧ isGameOver s = false ∧
    isOpen cell = false ∧
    s' = set_flags (flags s + (if isFlagged cell then -1 else 1))
           (updState (set_isFlagged (negb (isFlagged cell))) r c s) ∧
    Z.of_nat (flaggedCells (board s'))
    = Z.of_nat (flaggedCells (board s)) + (if isFlagged cell then -1 else 1).
Proof.
  unfold toggleFlag. intros H.
  destruct (isGameOver s) eqn:Hover; [left; by simplify_eq|].
  destruct (getCell (board s) r c) as [cell|] eqn:Hcell; [|done]. simpl in H.
  destruct (isOpen cell) eqn:Ho; [left; by simplify_eq|].
  right. exists cell. simplify_eq. split_and!; try done.
  - by destruct (isFlagged cell).
  - pose proof (countCells_updCell isFlagged (set_isFlagged (negb (isFlagged cell)))
                  (board s) r c cell Hcell) as Hn.
    simpl in *. unfold flaggedCells. destruct (isFlagged cell); simpl in *; lia.
Qed.

Lemma wfState_toggleFlag s r c s' :
  toggleFlag s r c = Some s' → wfState s → wfState s'.
Proof.
  intros [->|(cell & _ & _ & _ & -> & _)]%toggleFlag_spec Hwf; [done|].
  by apply (wfState_updState (set_isFlagged (negb (isFlagged cell))) r c) in Hwf.
Qed.

(** ** Events *)

Lemma keeps_timer_events now s :
  keeps s (resetTimerOnly now s) ∧ keeps s (updateTimer now s).
Proof.
  unfold resetTimerOnly, updateTimer. split.
  - simpl. by destruct (timerId s).
  - by destruct (startTime s).
Qed.

Lemma handleHint_spec now rnd s s' :
  handleHint now rnd s = Some s' →
  if isGameOver s then s' = s
  else if minesPlaced s then
    ∃ hint, findHintCell rnd s = Some hint ∧
      s' = match hint with
           | None => s
           | Some _ => set_hintsUsed (hintsUsed s + 1) s
           end
  else
    ∃ row col s1, handleCellClick now (afterDraws 2 rnd) s row col = Some s1 ∧
      s' = set_hintsUsed (hintsUsed s1 + 1) s1.
Proof.
  unfold handleHint. destruct (isGameOver s); [by intros; simplify_eq|].
  destruct (minesPlaced s); simpl.
  - destruct (findHintCell rnd s) as [hint|]; [|done]. simpl. intros H.
    exists hint. split; [done|]. by destruct hint; simplify_eq.
  - intros H. destruct (handleCellClick _ _ _ _ _) as [s1|] eqn:Hc; simplify_eq/=.
    eauto.
Qed.

Lemma wfState_step s e s' : step s e = Some s' → wfState s → wfState s'.
Proof.
  destruct e as [now rnd r c|r c|now rnd|now cfg|now|now]; simpl; intros H Hwf.
  - apply keeps_handleCellClick in H as (_ & _ & _ & _ & W). auto.
  - by eapply wfState_toggleFlag.
  - apply handleHint_spec in H. destruct (isGameOver s); [by subst|].
    destruct (minesPlaced s).
    + destruct H as ([p|] & _ & ->); done.
    + destruct H as (r & c & s1 & Hc & ->).
      apply keeps_handleCellClick in Hc as (_ & _ & _ & _ & W).
      by apply W in Hwf.
  - simplify_eq. apply wfState_createInitialState.
  - simplify_eq. destruct (keeps_timer_events now s) as [(_ & _ & _ & _ & W) _]. auto.
  - simplify_eq. destruct (timerId s); [|done].
    destruct (keeps_timer_events now s) as [_ (_ & _ & _ & _ & W)]. auto.
Qed.

Lemma reachable_wfState s : reachable s → wfState s.
Proof.
  induction 1 as [cfg|s e s' _ IH Hstep].
  - apply wfState_createInitialState.
  - by eapply wfState_step.
Qed.

Lemma run_reachable s events s' :
  reachable s → run s events = Some s' → reachable s'.
Proof.
  unfold run. revert s. induction events as [|e events IH]; intros s Hr H; simpl in H.
  - by simplify_eq.
  - destruct (step s e) as [s1|] eqn:Hs; [|done]. simpl in H.
    apply (IH s1); [|done]. by eapply reachable_step.
Qed.

(** An event other than a flag toggle and a new game changes neither the
    flag counter nor the number of flagged cells. *)
Lemma step_keeps_flags s e s' :
  step s e = Some s' →
  match e with
  | Flag _ _ | NewGame _ _ => True
  | _ => flags s' = flags s ∧ flaggedCells (board s') = flaggedCells (board s)
  end.
Proof.
  destruct e as [now rnd r c|r c|now rnd|now cfg|now|now]; simpl; intros H; try done.
  - by apply keeps_handleCellClick in H as (_ & ? & _ & ? & _).
  - apply handleHint_spec in H. destruct (isGameOver s); [by subst|].
    destruct (minesPlaced s).
    + destruct H as ([p|] & _ & ->); done.
    + destruct H as (r & c & s1 & Hc & ->).
      by apply keeps_handleCellClick in Hc as (_ & ? & _ & ? & _).
  - simplify_eq. by destruct (keeps_timer_events now s) as [(_ & ? & _ & ? & _) _].
  - simplify_eq. destruct (timerId s); [|done].
    by destruct (keeps_timer_events now s) as [_ (_ & ? & _ & ? & _)].
Qed.

(** C10. The flag counter and the number of flagged cells are both 0 in a
    fresh session; a flag toggle that returns either changes nothing or
    moves both by the same +1 or -1; every other event except a new game
    leaves both as they are; hence in every reachable state the counter
    equals the number of flagged cells. *)
Theorem flags_counts_flagged_cells :
  (∀ cfg, flags (createInitialState cfg) = 0 ∧
          flaggedCells (board (createInitialState cfg)) = 0%nat) ∧
  (∀ s row col s', toggleFlag s row col = Some s' →
     s' = s ∨
     ∃ d, (d = 1 ∨ d = -1) ∧ flags s' = flags s + d ∧
          Z.of_nat (flaggedCells (board s')) = Z.of_nat (flaggedCells (board s)) + d) ∧
  (∀ s e s', step s e = Some s' →
     match e with
     | Flag _ _ | NewGame _ _ => True
     | _ => flags s' = flags s ∧ flaggedCells (board s') = flaggedCells (board s)
     end) ∧
  (∀ s, reachable s → flags s = Z.of_nat (flaggedCells (board s))).
Proof.
  assert (∀ cfg, flags (createInitialState cfg) = 0 ∧
            flaggedCells (board (createInitialState cfg)) = 0%nat) as Hinit.
  { intros cfg. split; [done|]. by apply countCells_createEmptyBoard. }
  assert (∀ s row col s', toggleFlag s row col = Some s' →
     s' = s ∨
     ∃ d, (d = 1 ∨ d = -1) ∧ flags s' = flags s + d ∧
          Z.of_nat (flaggedCells (board s')) = Z.of_nat (flaggedCells (board s)) + d)
    as Htoggle.
  { intros s r c s' [->|(cell & _ & _ & _ & E & Hn)]%toggleFlag_spec; [by left|].
    right. exists (if isFlagged cell then -1 else 1). split_and!.
    - destruct (isFlagged cell); auto.
    - rewrite E. done.
    - done. }
  split; [done|]. split; [done|]. split; [apply step_keeps_flags|].
  induction 1 as [cfg|s e s' _ IH Hstep].
  - destruct (Hinit cfg) as [-> ->]. done.
  - pose proof (step_keeps_flags _ _ _ Hstep) as Hk.
    destruct e as [now rnd r c|r c|now rnd|now cfg|now|now].
    + destruct Hk as [-> ->]. done.
    + simpl in Hstep. apply Htoggle in Hstep as [->|(d & _ & -> & Hn)]; lia.
    + destruct Hk as [-> ->]. done.
    + simpl in Hstep. simplify_eq. unfold startNewGame, resetTimerOnly. simpl.
      destruct (Hinit cfg) as [_ H0]. simpl in H0. rewrite H0. done.
    + destruct Hk as [-> ->]. done.
    + destruct Hk as [-> ->]. done.
Qed.

Lemma flags_counts_flagged_cells_witness :
  ∃ s, run (createInitialState (mkConfig 3 3 1))
         [Flag 0 2; Flag 1 1; Click 5 demoRandom 0 0; Flag 1 1] = Some s ∧
       flags s = Z.of_nat (flaggedCells (board s)) ∧ flags s = 1.
Proof.
  eexists. split; [vm_compute; reflexivity|]. split; [|reflexivity].
  apply (proj2 (proj2 (proj2 flags_counts_flagged_cells))).
  apply (run_reachable (createInitialState (mkConfig 3 3 1))
           [Flag 0 2; Flag 1 1; Click 5 demoRandom 0 0; Flag 1 1]).
  - apply reachable_init.
  - vm_compute. reflexivity.
Defined.

(** ** Hints *)

Lemma hintPools_spec s pools :
  hintPools s = Some pools →
  ∀ p, p ∈ pools.1 ++ pools.2 ↔
       p ∈ coords (rows (config s)) (cols (config s)) ∧
       ∃ cell, getCell (board s) p.1 p.2 = Some cell ∧
         isOpen cell = false ∧ isFlagged cell = false ∧ isMine cell = false.
Proof.
  unfold hintPools. rewrite forEach_nested.
  fold (coords (rows (config s)) (cols (config s))).
  apply (forEach_prefix (λ done pools, ∀ p, p ∈ pools.1 ++ pools.2 ↔
       p ∈ done ∧
       ∃ cell, getCell (board s) p.1 p.2 = Some cell ∧
         isOpen cell = false ∧ isFlagged cell = false ∧ isMine cell = false)).
  - intros p. simpl. split; [by intros ?%not_elem_of_nil|by intros [?%not_elem_of_nil _]].
  - intros done [r c] rest [zs cs] pools' _ IH H. simpl in *.
    destruct (getCell (board s) r c) as [cell|] eqn:Hcell; [|done]. simpl in H.
    assert (∀ p : Z * Z, p ∈ done ++ [(r, c)] ∧
              (∃ cell, getCell (board s) p.1 p.2 = Some cell ∧
                 isOpen cell = false ∧ isFlagged cell = false ∧ isMine cell = false)
            ↔ p ∈ zs ++ cs ∨
              (p = (r, c) ∧ isOpen cell || isFlagged cell || isMine cell = false))
      as Hiff.
    { intros p. rewrite elem_of_snoc. split.
      - intros [[Hd| ->] (x & Hx & Ho & Hf & Hm)];
          [left; apply IH; split; [done|]; by exists x|].
        right. simpl in Hx. rewrite Hcell in Hx. simplify_eq. by rewrite Ho, Hf, Hm.
      - intros [[Hd Hx]%IH|[-> Hb]]; [by auto|].
        split; [by right|]. exists cell. simpl.
        destruct (isOpen cell), (isFlagged cell), (isMine cell); done. }
    intros p. rewrite Hiff. clear Hiff IH.
    destruct (isOpen cell || isFlagged cell || isMine cell).
    + simplify_eq. simpl. split; [by left|]. by intros [?|[_ ?]].
    + case_decide; simplify_eq; simpl.
      * rewrite !elem_of_app, list_elem_of_singleton. split.
        -- intros [[?|?]|?]; auto.
        -- intros [[?|?]|[? _]]; auto.
      * rewrite !elem_of_app, list_elem_of_singleton. split.
        -- intros [?|[?|?]]; auto.
        -- intros [[?|?]|[? _]]; auto.
Qed.

Lemma randomBelow_lt rnd k n : (0 < n)%nat → (randomBelow rnd k n < n)%nat.
Proof. intros. unfold randomBelow. apply Nat.mod_upper_bound. lia. Qed.

(** [findHintCell] returns [null] exactly when no eligible cell is left. *)
Lemma findHintCell_spec rnd s hint :
  wfState s → findHintCell rnd s = Some hint →
  (hint = None ↔ ¬ hintAvailable s).
Proof.
  intros Hwf. unfold findHintCell. intros H.
  destruct (hintPools s) as [[zs cs]|] eqn:Hp; [|done]. simpl in H.
  pose proof (hintPools_spec s _ Hp) as Hpools. simpl in Hpools.
  assert (hintAvailable s ↔ ∃ p, p ∈ zs ++ cs) as ->.
  { split.
    - intros (r & c & cell & Hc & ?). exists (r, c). apply Hpools. split; [|eauto].
      apply elem_of_coords. by eapply wfState_getCell_inv.
    - intros ([r c] & (_ & cell & ?)%Hpools). by exists r, c, cell. }
  destruct (decide (0 < length zs)%nat) as [Hz|Hz].
  - destruct (decide (length zs = 0%nat)) as [Hz0|Hz0]; [lia|]. simplify_eq.
    destruct (lookup_lt_is_Some_2 zs (randomBelow rnd 0 (length zs))) as [p Hl].
    { apply randomBelow_lt. lia. }
    rewrite Hl. split; [done|]. intros []. exists p.
    apply elem_of_app. left. by eapply list_elem_of_lookup_2.
  - assert (zs = []) as -> by (destruct zs; [done|simpl in Hz; lia]).
    destruct (decide (length cs = 0%nat)) as [Hc0|Hc0]; simplify_eq.
    + apply length_zero_iff_nil in Hc0 as ->. split; [|done].
      intros _ [p Hp']. by apply not_elem_of_nil in Hp'.
    + destruct (lookup_lt_is_Some_2 cs (randomBelow rnd 0 (length cs))) as [p Hl].
      { apply randomBelow_lt. lia. }
      rewrite Hl. split; [done|]. intros []. exists p.
      by eapply list_elem_of_lookup_2.
Qed.

Lemma keeps_hintsUsed_step s e s' :
  step s e = Some s' →
  match e with
  | Hint _ _ => hintsUsed s ≤ hintsUsed s' ≤ hintsUsed s + 1
  | NewGame _ _ => hintsUsed s' = 0
  | _ => hintsUsed s' = hintsUsed s
  end.
Proof.
  destruct e as [now rnd r c|r c|now rnd|now cfg|now|now]; simpl; intros H.
  - by apply keeps_handleCellClick in H as (_ & _ & ? & _).
  - apply toggleFlag_spec in H as [->|(cell & _ & _ & _ & -> & _)]; done.
  - apply handleHint_spec in H. destruct (isGameOver s); [subst; lia|].
    destruct (minesPlaced s).
    + destruct H as ([p|] & _ & ->); simpl; lia.
    + destruct H as (r & c & s1 & Hc & ->).
      apply keeps_handleCellClick in Hc as (_ & _ & ? & _). simpl. lia.
  - by simplify_eq.
  - simplify_eq. by destruct (keeps_timer_events now s) as [(_ & _ & ? & _) _].
  - simplify_eq. destruct (timerId s); [|done].
    by destruct (keeps_timer_events now s) as [_ (_ & _ & ? & _)].
Qed.

Lemma stuckState_reachable : reachable stuckState.
Proof.
  apply (run_reachable (createInitialState (mkConfig 6 6 34)) stuckEvents).
  - apply reachable_init.
  - vm_compute. reflexivity.
Qed.

(** C4 as stated fails: in a reachable state where the game is still on,
    a hint invocation returns and leaves [hintsUsed] as it was. *)
Lemma hint_invocation_not_counted :
  ¬ (∀ now rnd s s', reachable s → isGameOver s = false →
       handleHint now rnd s = Some s' → hintsUsed s' = hintsUsed s + 1).
Proof.
  intros H.
  specialize (H 9 demoRandom stuckState stuckState stuckState_reachable).
  vm_compute in H. specialize (H eq_refl eq_refl). discriminate H.
Qed.

(** C4, amended.  A hint invocation while the game is on adds exactly one
    to [hintsUsed] when it opens the game (no mines placed yet) or when a
    closed, unflagged, mine-free cell exists; when mines are placed and no
    such cell exists it changes nothing.  A hint in a finished game
    changes nothing, every event other than a hint and a new game keeps
    [hintsUsed], and a new game sets it to 0: the counter never
    decreases and only a new game resets it. *)
Theorem hintsUsed_counter s e s' :
  wfState s → step s e = Some s' →
  match e with
  | Hint _ _ =>
      (isGameOver s = true → s' = s) ∧
      (isGameOver s = false → minesPlaced s = false ∨ hintAvailable s →
         hintsUsed s' = hintsUsed s + 1) ∧
      (isGameOver s = false → minesPlaced s = true → ¬ hintAvailable s → s' = s)
  | NewGame _ _ => hintsUsed s' = 0
  | _ => hintsUsed s' = hintsUsed s
  end.
Proof.
  intros Hwf Hstep. pose proof (keeps_hintsUsed_step s e s' Hstep) as Hk.
  destruct e as [now rnd r c|r c|now rnd|now cfg|now|now]; try done.
  clear Hk. simpl in Hstep. apply handleHint_spec in Hstep.
  destruct (isGameOver s); [by split_and!|].
  split; [done|]. destruct (minesPlaced s).
  - destruct Hstep as (hint & Hfind & ->).
    pose proof (findHintCell_spec rnd s hint Hwf Hfind) as Hiff.
    split.
    + intros _ [?|Hav]; [done|]. destruct hint; [done|].
      exfalso. by apply Hiff.
    + intros _ _ Hno. apply Hiff in Hno as ->. done.
  - destruct Hstep as (r & c & s1 & Hc & ->).
    apply keeps_handleCellClick in Hc as (_ & _ & -> & _).
    split; [done|]. done.
Qed.

Lemma hintsUsed_counter_witness :
  hintsUsed (set_hintsUsed 1 demoState) = hintsUsed demoState + 1.
Proof.
  refine (proj1 (proj2 (hintsUsed_counter demoState (Hint 5 demoRandom)
                          (set_hintsUsed 1 demoState) _ _)) _ _).
  - solve_wf.
  - vm_compute. reflexivity.
  - reflexivity.
  - right. exists 0, 0, (demoCell 0). done.
Defined.

(** ** countAdjacentMines against the reference count *)

Lemma forEach_ext {A S} (xs : list A) (f g : A → S → option S) s :
  (∀ x s, x ∈ xs → f x s = g x s) → forEach xs f s = forEach xs g s.
Proof.
  revert s. induction xs as [|x xs IH]; intros s H; simpl; [done|].
  rewrite H by left. destruct (g x s); simpl; [|done].
  apply IH. intros y s' Hy. apply H. by right.
Qed.

Lemma forEach_count {A} (P : A → Prop) `{!∀ x, Decision (P x)} (xs : list A) n :
  forEach xs (λ x count, Some (if decide (P x) then count + 1 else count)) n
  = Some (n + Z.of_nat (length (filter P xs))).
Proof.
  revert n. induction xs as [|x xs IH]; intros n; simpl.
  - f_equal. lia.
  - rewrite IH, filter_cons. destruct (decide (P x)); simpl; f_equal; lia.
Qed.

Lemma filter_fmap_length {A B} (f : A → B) (P : B → Prop) `{!∀ x, Decision (P x)}
    (l : list A) :
  length (filter P (f <$> l)) = length (filter (P ∘ f) l).
Proof.
  induction l as [|x l IH]; [done|]. csimpl. rewrite !filter_cons. simpl.
  destruct (decide (P (f x))); simpl; auto.
Qed.

Lemma filter_iff_elem {A} (P1 P2 : A → Prop)
    `{!∀ x, Decision (P1 x), !∀ x, Decision (P2 x)} (l : list A) :
  (∀ x, x ∈ l → P1 x ↔ P2 x) → filter P1 l = filter P2 l.
Proof.
  induction l as [|a l IH]; intros Hl; [done|].
  rewrite !filter_cons. rewrite IH by (intros x Hx; apply Hl; by right).
  pose proof (Hl a (list_elem_of_here _ _)) as Ha.
  destruct (decide (P1 a)), (decide (P2 a)); try done; exfalso; tauto.
Qed.

Lemma elem_of_offsets dr dc : (dr, dc) ∈ offsets ↔ -1 ≤ dr ≤ 1 ∧ -1 ≤ dc ≤ 1.
Proof.
  unfold offsets. rewrite list_elem_of_bind. split.
  - intros (r' & Hc & Hr). apply list_elem_of_bind in Hc as (c' & Hc & Hc').
    apply list_elem_of_singleton in Hc. simplify_eq.
    apply elem_of_seqZ in Hr, Hc'. lia.
  - intros [Hr Hc]. exists dr. rewrite elem_of_seqZ. split; [|lia].
    apply list_elem_of_bind. exists dc. rewrite elem_of_seqZ.
    split; [apply list_elem_of_singleton; done|lia].
Qed.

Lemma NoDup_offsets : NoDup offsets.
Proof.
  unfold offsets. apply NoDup_bind; [| |apply NoDup_seqZ].
  - intros r1 r2 p _ _ H1 H2.
    apply list_elem_of_bind in H1 as (c1 & H1 & _).
    apply list_elem_of_bind in H2 as (c2 & H2 & _).
    apply list_elem_of_singleton in H1, H2. by simplify_eq.
  - intros r _. apply NoDup_bind; [| |apply NoDup_seqZ].
    + intros c1 c2 p _ _ H1 H2. apply list_elem_of_singleton in H1, H2. by simplify_eq.
    + intros c _. apply NoDup_singleton.
Qed.

Lemma mineAt_wf s r c :
  wfState s → mineAt (board s) r c = true → inBounds s r c.
Proof.
  unfold mineAt. intros Hwf H.
  destruct (getCell (board s) r c) as [cell|] eqn:Hc; [|done].
  by eapply wfState_getCell_inv.
Qed.

Lemma countAdjacentMines_count s r c :
  wfState s →
  countAdjacentMines s r c
  = Some (Z.of_nat (length (filter
      (λ d, d ≠ (0, 0) ∧ mineAt (board s) (r + d.1) (c + d.2) = true) offsets))).
Proof.
  intros Hwf. unfold countAdjacentMines. rewrite forEach_nested. fold offsets.
  rewrite <- (Z.add_0_l (Z.of_nat _)). rewrite <- forEach_count.
  apply forEach_ext. intros [dr dc] n _. simpl.
  destruct (decide (dr = 0 ∧ dc = 0)) as [[-> ->]|Hne].
  { rewrite decide_False; [done|]. by intros [? _]. }
  case_decide as Hout.
  { rewrite decide_False; [done|]. intros [_ Hm].
    apply (mineAt_wf s _ _ Hwf) in Hm. unfold inBounds in Hm. lia. }
  destruct (wfState_getCell s (r + dr) (c + dc) Hwf) as [cell Hcell].
  { unfold inBounds. lia. }
  unfold mineAt. rewrite Hcell. simpl. destruct (isMine cell).
  - rewrite decide_True; [done|]. split; [|done]. intros ?. simplify_eq. by apply Hne.
  - rewrite decide_False; [done|]. by intros [_ ?].
Qed.

Lemma getCell_boardExtent b r c cell :
  getCell b r c = Some cell → (r, c) ∈ coords (boardExtent b).1 (boardExtent b).2.
Proof.
  intros H. destruct (getCell_Some_nonneg _ _ _ _ H) as [Hr Hc].
  apply getCell_lookup in H as (line & Hl & Hx).
  apply elem_of_coords. simpl.
  assert (length line ≤ max_list (length <$> b))%nat.
  { apply max_list_elem_of_le. apply list_elem_of_fmap. exists line.
    split; [done|]. by eapply list_elem_of_lookup_2. }
  apply lookup_lt_Some in Hl, Hx. lia.
Qed.

(** The count made by the engine is the reference count. *)
Lemma countAdjacentMines_reference s r c :
  wfState s → countAdjacentMines s r c = Some (minedNeighbours (board s) r c).
Proof.
  intros Hwf. rewrite countAdjacentMines_count by done.
  unfold minedNeighbours. f_equal. f_equal.
  set (P := λ p : Z * Z, isNeighbour r c p.1 p.2 && mineAt (board s) p.1 p.2 = true).
  set (shift := λ d : Z * Z, (r + d.1, c + d.2)).
  transitivity (length (filter P (shift <$> offsets))).
  { rewrite filter_fmap_length. f_equal. apply filter_iff_elem.
    intros [dr dc] Hd%elem_of_offsets. unfold P, shift, isNeighbour. simpl.
    rewrite andb_true_iff, bool_decide_eq_true. split.
    - intros [Hne Hm]. split; [|done]. split_and!; [lia..|].
      intros ?. simplify_eq. apply Hne. f_equal; lia.
    - intros [(_ & _ & Hne) Hm]. split; [|done]. intros ?. simplify_eq.
      apply Hne. f_equal; lia. }
  apply Permutation_length. apply NoDup_Permutation.
  - apply NoDup_filter. apply NoDup_fmap_2_strong; [|apply NoDup_offsets].
    intros [a1 a2] [b1 b2] _ _ Heq. unfold shift in Heq. simpl in Heq.
    simplify_eq. f_equal; lia.
  - apply NoDup_filter, NoDup_coords.
  - intros [r' c']. rewrite !list_elem_of_filter. unfold P. cbn [fst snd].
    rewrite andb_true_iff. unfold isNeighbour. rewrite bool_decide_eq_true.
    split; intros [[(Hr & Hc & Hne) Hm] _]; (split; [done|]).
    + unfold mineAt in Hm.
      destruct (getCell (board s) r' c') as [cell|] eqn:Hcell; [|done].
      by eapply getCell_boardExtent.
    + apply list_elem_of_fmap. exists (r' - r, c' - c). split.
      * unfold shift. simpl. f_equal; lia.
      * apply elem_of_offsets. lia.
Qed.

(** ** fillAdjacent *)

Lemma sameMines_refl b : sameMines b b.
Proof. done. Qed.

Lemma sameMines_trans b1 b2 b3 : sameMines b1 b2 → sameMines b2 b3 → sameMines b1 b3.
Proof. intros [E1 M1] [E2 M2]. split; [congruence|]. intros r c. by rewrite M2. Qed.

Lemma boardExtent_updCell f r c b : boardExtent (updCell f r c b) = boardExtent b.
Proof.
  unfold boardExtent, updCell. rewrite length_alter. do 3 f_equal.
  generalize (Z.to_nat r). induction b as [|line b IH]; intros [|n]; [done..| |].
  - cbn [alter list_alter]. rewrite !fmap_cons. by rewrite length_alter.
  - cbn [alter list_alter]. rewrite !fmap_cons. f_equal. apply IH.
Qed.

Lemma sameMines_updCell f r c b :
  (∀ x, isMine (f x) = isMine x) → 0 ≤ r → 0 ≤ c → sameMines b (updCell f r c b).
Proof.
  intros Hf Hr Hc. split; [apply boardExtent_updCell|].
  intros r' c'. unfold mineAt. rewrite getCell_updCell by done.
  case_decide as Heq; [|done]. destruct Heq as [-> ->].
  destruct (getCell b r c); simpl; [apply Hf|done].
Qed.

Lemma minedNeighbours_sameMines b b' r c :
  sameMines b b' → minedNeighbours b' r c = minedNeighbours b r c.
Proof.
  intros [E M]. unfold minedNeighbours. rewrite E. do 2 f_equal.
  apply list_filter_iff. intros p. by rewrite M.
Qed.

Lemma fillAdjacent_spec s s' :
  wfState s → fillAdjacent s = Some s' →
  wfState s' ∧ sameButBoard s s' ∧ sameMines (board s) (board s') ∧
  ∀ r c cell, getCell (board s') r c = Some cell → isMine cell = false →
    adjacent cell = minedNeighbours (board s) r c.
Proof.
  intros Hwf. unfold fillAdjacent. rewrite forEach_nested.
  fold (coords (rows (config s)) (cols (config s))). intros Hrun.
  pose (I := λ (done : list (Z * Z)) s', wfState s' ∧ sameButBoard s s' ∧
       sameMines (board s) (board s') ∧
       ∀ r c cell, (r, c) ∈ done → getCell (board s') r c = Some cell →
         isMine cell = false → adjacent cell = minedNeighbours (board s) r c).
  assert (I (coords (rows (config s)) (cols (config s))) s') as (W & E & M & Hadj);
    [eapply (forEach_prefix I); [| |exact Hrun]; unfold I; clear I|].
  - split_and!; [done|by destruct s|done|]. by intros r c cell ?%not_elem_of_nil.
  - intros done [r c] rest s1 s2 _ (W1 & E1 & M1 & A1) Hbody. simpl in Hbody.
    destruct (getCell (board s1) r c) as [cell|] eqn:Hcell; [|done]. simpl in Hbody.
    destruct (isMine cell) eqn:Hm.
    { simplify_eq. split_and!; try done.
      intros r' c' cell' [Hin|Heq]%elem_of_snoc Hc' Hm'; [by eapply A1|].
      injection Heq as -> ->. rewrite Hcell in Hc'. injection Hc' as <-. congruence. }
    rewrite countAdjacentMines_reference in Hbody by done. simpl in Hbody.
    simplify_eq. destruct (getCell_Some_nonneg _ _ _ _ Hcell) as [Hr Hc].
    split_and!.
    + by apply wfState_updState.
    + rewrite E1. done.
    + eapply sameMines_trans; [done|]. by apply sameMines_updCell.
    + intros r' c' cell' Hin. simpl. rewrite getCell_updCell by done.
      case_decide as Heq.
      * destruct Heq as [-> ->]. rewrite Hcell. simpl. intros Hx _.
        injection Hx as <-. simpl. by apply minedNeighbours_sameMines.
      * intros Hc' Hm'. apply elem_of_snoc in Hin as [Hin|?];
          [|exfalso; apply Heq; by simplify_eq].
        by eapply A1.
  - split_and!; try done. intros r c cell Hcell. apply Hadj; [|done].
    apply elem_of_coords. apply (wfState_getCell_inv s' r c cell W) in Hcell.
    unfold inBounds in Hcell. rewrite E in Hcell. done.
Qed.

(** C3. When [placeMines] has returned on a board of the configured
    dimensions, the [adjacent] field of every cell that is not a mine is
    the reference count of its mined neighbours on the resulting board. *)
Theorem placeMines_adjacent rnd excludeRow excludeCol s s' :
  wfState s → placeMines rnd excludeRow excludeCol s = Some s' →
  ∀ r c cell, getCell (board s') r c = Some cell → isMine cell = false →
    adjacent cell = minedNeighbours (board s') r c.
Proof.
  intros Hwf Hrun. unfold placeMines in Hrun.
  destruct (markMines _ s) as [s1|] eqn:H1; [|done]. simpl in Hrun.
  destruct (fillAdjacent s1) as [s2|] eqn:H2; simplify_eq/=.
  apply keeps_markMines in H1 as (_ & _ & _ & _ & W1).
  apply fillAdjacent_spec in H2 as (_ & _ & M & Hadj); [|auto].
  intros r c cell Hcell Hm. rewrite (minedNeighbours_sameMines _ _ _ _ M).
  by eapply Hadj.
Qed.

Lemma placeMines_adjacent_witness :
  ∃ s', placeMines demoRandom 4 4 (createInitialState (mkConfig 9 9 10)) = Some s' ∧
    ∀ r c cell, getCell (board s') r c = Some cell → isMine cell = false →
      adjacent cell = minedNeighbours (board s') r c.
Proof.
  eexists. split; [vm_compute; reflexivity|].
  apply (placeMines_adjacent demoRandom 4 4 (createInitialState (mkConfig 9 9 10))).
  - apply wfState_createInitialState.
  - vm_compute. reflexivity.
Defined.

(** ** placeMines: exclusions and candidate positions *)

Lemma foldl_nested {A B S} (xs : list A) (ys : list B) (body : S → A → B → S) s :
  foldl (λ acc x, foldl (λ acc y, body acc x y) acc ys) s xs
  = foldl (λ acc p, body acc p.1 p.2) s (x ← xs; y ← ys; [(x, y)]).
Proof.
  revert s. induction xs as [|x xs IH]; intros s; [done|].
  cbn [foldl mbind list_bind]. rewrite foldl_app, IH. f_equal.
  clear. revert s. induction ys as [|y ys IH]; intros s; [done|].
  simpl. by rewrite IH.
Qed.

Lemma foldl_push {A B} (P : A → Prop) `{!∀ x, Decision (P x)} (g : A → B)
    (xs : list A) (acc : list B) :
  foldl (λ acc x, if decide (P x) then acc else acc ++ [g x]) acc xs
  = acc ++ (g <$> filter (λ x, ¬ P x) xs).
Proof.
  revert acc. induction xs as [|x xs IH]; intros acc; simpl.
  - by rewrite app_nil_r.
  - rewrite IH, filter_cons. destruct (decide (P x)).
    + by rewrite decide_False by tauto.
    + rewrite decide_True by done. csimpl. by rewrite <- app_assoc.
Qed.

Lemma foldl_add `{Countable B} {A} (P : A → Prop) `{!∀ x, Decision (P x)}
    (g : A → B) (xs : list A) (acc : gset B) :
  foldl (λ acc x, if decide (P x) then {[ g x ]} ∪ acc else acc) acc xs
  = acc ∪ list_to_set (g <$> filter P xs).
Proof.
  revert acc. induction xs as [|x xs IH]; intros acc; simpl.
  - set_solver.
  - rewrite IH, filter_cons. destruct (decide (P x)); csimpl; set_solver.
Qed.

Lemma candidatePositions_filter rows cols exclusions :
  candidatePositions rows cols exclusions
  = linearIndex cols <$>
      filter (λ p, linearIndex cols p ∉ exclusions) (coords rows cols).
Proof.
  unfold candidatePositions.
  rewrite (foldl_nested _ _ (λ positions row col,
    if decide (row * cols + col ∈ exclusions) then positions
    else positions ++ [row * cols + col])).
  fold (coords rows cols).
  exact (foldl_push (λ p, linearIndex cols p ∈ exclusions) (linearIndex cols)
           (coords rows cols) []).
Qed.

Lemma clippedBlock_alt cfg row col :
  clippedBlock cfg row col
  = filter (λ p, 0 ≤ p.1 < rows cfg ∧ 0 ≤ p.2 < cols cfg)
      ((λ d, (row + d.1, col + d.2)) <$> offsets).
Proof.
  reflexivity.
Qed.

Lemma exclusionZone_list cfg row col :
  exclusionZone (rows cfg) (cols cfg) row col
  = list_to_set (linearIndex (cols cfg) <$> clippedBlock cfg row col).
Proof.
  unfold exclusionZone.
  rewrite (foldl_nested _ _ (λ ex dr dc,
    if decide (0 ≤ row + dr ∧ row + dr < rows cfg ∧ 0 ≤ col + dc ∧ col + dc < cols cfg)
    then {[ (row + dr) * cols cfg + (col + dc) ]} ∪ ex else ex)).
  fold offsets.
  rewrite (foldl_add
    (λ d : Z * Z, 0 ≤ row + d.1 ∧ row + d.1 < rows cfg ∧ 0 ≤ col + d.2 ∧ col + d.2 < cols cfg)
    (λ d, (row + d.1) * cols cfg + (col + d.2))).
  rewrite (left_id_L ∅ (∪)). f_equal. rewrite clippedBlock_alt.
  generalize offsets. intros l. induction l as [|d l IH]; [done|].
  csimpl. rewrite !filter_cons. simpl.
  destruct (decide (0 ≤ row + d.1 ∧ row + d.1 < rows cfg ∧ 0 ≤ col + d.2 ∧ col + d.2 < cols cfg)).
  - rewrite decide_True by lia. csimpl. by rewrite IH.
  - rewrite decide_False by lia. done.
Qed.

(** Linear indices determine in-bounds coordinates. *)
Lemma linearIndex_inj cols p q :
  0 ≤ p.2 < cols → 0 ≤ q.2 < cols →
  linearIndex cols p = linearIndex cols q → p = q.
Proof.
  destruct p as [r c], q as [r' c']. unfold linearIndex. simpl. intros Hc Hc' Heq.
  assert (r = r') by nia. subst. f_equal. lia.
Qed.

Lemma linearIndex_decode cols r c :
  0 ≤ r → 0 ≤ c < cols →
  linearIndex cols (r, c) `div` cols = r ∧ linearIndex cols (r, c) `rem` cols = c.
Proof.
  intros Hr Hc. unfold linearIndex. simpl.
  assert ((r * cols + c) `div` cols = r) as Hd.
  { symmetry. apply (Z.div_unique_pos _ _ r c); lia. }
  split; [done|]. rewrite Z.rem_mod_nonneg by nia.
  symmetry. apply (Z.mod_unique_pos _ _ r c); lia.
Qed.

Lemma NoDup_linearIndex_coords rows cols :
  NoDup (linearIndex cols <$> coords rows cols).
Proof.
  apply NoDup_fmap_2_strong; [|apply NoDup_coords].
  intros [r c] [r' c'] H1%elem_of_coords H2%elem_of_coords Heq.
  apply (linearIndex_inj cols); simpl; [lia..|done].
Qed.

Lemma length_coords rows cols :
  0 ≤ rows → 0 ≤ cols → Z.of_nat (length (coords rows cols)) = rows * cols.
Proof.
  intros Hr Hc. unfold coords.
  assert (∀ l : list Z, length (row ← l; col ← seqZ 0 cols; [(row, col)])
            = (length l * Z.to_nat cols)%nat) as Hlen.
  { induction l as [|r l IH]; [done|]. csimpl. rewrite length_app, IH. f_equal.
    generalize (seqZ 0 cols) (length_seqZ 0 cols). clear.
    intros l <-. induction l as [|c l IH]; [done|]. csimpl. by rewrite IH. }
  rewrite Hlen, length_seqZ. lia.
Qed.

Lemma size_exclusionZone cfg row col :
  size (exclusionZone (rows cfg) (cols cfg) row col)
  = length (clippedBlock cfg row col).
Proof.
  rewrite exclusionZone_list, size_list_to_set, length_fmap; [done|].
  apply NoDup_fmap_2_strong.
  - intros p q Hp%list_elem_of_filter Hq%list_elem_of_filter.
    apply linearIndex_inj; tauto.
  - rewrite clippedBlock_alt. apply NoDup_filter.
    apply NoDup_fmap_2_strong; [|apply NoDup_offsets].
    intros [a1 a2] [b1 b2] _ _ Heq. simpl in Heq. simplify_eq. f_equal; lia.
Qed.

(** Enough candidates are left for the mines. *)
Lemma length_filter_not_in (l : list Z) (X : gset Z) :
  NoDup l → (length l ≤ length (filter (λ i, i ∉ X) l) + size X)%nat.
Proof.
  intros Hnd.
  pose proof (filter_app_complement (λ i, i ∈ X) l) as Hp.
  apply Permutation_length in Hp. rewrite length_app in Hp.
  assert (length (filter (λ i, i ∈ X) l) ≤ size X)%nat.
  { rewrite <- (size_list_to_set (C:=gset Z)) by by apply NoDup_filter.
    apply subseteq_size. intros i Hi%elem_of_list_to_set.
    by apply list_elem_of_filter in Hi as [? _]. }
  lia.
Qed.

(** ** The shuffle is a permutation *)

Lemma swap_Permutation (a : list Z) i j : swap a i j ≡ₚ a.
Proof.
  unfold swap. destruct (a !! i) as [x|] eqn:Hi; [|done].
  destruct (a !! j) as [y|] eqn:Hj; [|done].
  apply Permutation_inj. split; [by rewrite !length_insert|].
  exists (λ k, if decide (k = i) then j else if decide (k = j) then i else k).
  split.
  - intros k1 k2. repeat case_decide; lia.
  - intros k. apply lookup_lt_Some in Hi as Hil, Hj as Hjl.
    destruct (decide (k = i)) as [->|Hki].
    + destruct (decide (i = j)) as [->|Hij].
      * rewrite list_lookup_insert_eq by (by rewrite length_insert). congruence.
      * rewrite list_lookup_insert_ne by done.
        rewrite list_lookup_insert_eq by done. done.
    + destruct (decide (k = j)) as [->|Hkj].
      * rewrite list_lookup_insert_eq by (by rewrite length_insert). done.
      * by rewrite !list_lookup_insert_ne.
Qed.

Lemma shuffleFrom_Permutation rnd k i positions :
  shuffleFrom rnd k i positions ≡ₚ positions.
Proof.
  revert k positions. induction i as [|i IH]; intros k positions; simpl; [done|].
  rewrite IH. apply swap_Permutation.
Qed.

Lemma shuffle_Permutation rnd positions : shuffle rnd positions ≡ₚ positions.
Proof. apply shuffleFrom_Permutation. Qed.

(** ** markMines *)

Lemma seqZ_split_nth (n : Z) (done rest : list Z) i :
  seqZ 0 n = done ++ i :: rest → i = Z.of_nat (length done) ∧ i < n.
Proof.
  intros H.
  assert (seqZ 0 n !! length done = Some i) as Hl.
  { rewrite H. by apply list_lookup_middle. }
  apply lookup_seqZ in Hl. lia.
Qed.

Lemma mineAt_false_getCell b r c cell :
  getCell b r c = Some cell → mineAt b r c = isMine cell.
Proof. unfold mineAt. by intros ->. Qed.

Lemma markMines_spec positions s :
  wfState s → 0 < cols (config s) →
  (∀ index, index ∈ positions →
     ∃ p, p ∈ coords (rows (config s)) (cols (config s)) ∧
          index = linearIndex (cols (config s)) p) →
  NoDup positions →
  mines (config s) ≤ Z.of_nat (length positions) →
  (∀ r c, mineAt (board s) r c = false) →
  ∃ s', markMines positions s = Some s' ∧ wfState s' ∧ sameButBoard s s' ∧
    (∀ r c, inBounds s r c →
       (mineAt (board s') r c = true
        ↔ linearIndex (cols (config s)) (r, c)
            ∈ take (Z.to_nat (mines (config s))) positions)) ∧
    mineCells (board s') = (mineCells (board s) + Z.to_nat (mines (config s)))%nat.
Proof.
  intros Hwf Hcols Hpos Hnd Hlen Hno. unfold markMines.
  pose (I := λ (done : list Z) s', wfState s' ∧ sameButBoard s s' ∧
    (∀ r c, inBounds s r c →
       (mineAt (board s') r c = true
        ↔ linearIndex (cols (config s)) (r, c) ∈ take (length done) positions)) ∧
    mineCells (board s') = (mineCells (board s) + length done)%nat).
  destruct (forEach_total I
    (λ i s0, index ← positions !! Z.to_nat i;
       let row := index `div` cols (config s0) in
       let col := index `rem` cols (config s0) in
       _ ← getCell (board s0) row col;
       Some (updState (set_isMine true) row col s0))
    (seqZ 0 (mines (config s))) s) as (s' & Hrun & W & E & M & N).
  - unfold I. split_and!; [done|by destruct s| |simpl; lia].
    intros r c _. rewrite Hno. simpl. split; [done|]. by intros ?%not_elem_of_nil.
  - intros done i rest s1 Hsplit (W1 & E1 & M1 & N1).
    apply seqZ_split_nth in Hsplit as [-> Hlt]. rewrite Nat2Z.id.
    destruct (lookup_lt_is_Some_2 positions (length done)) as [index Hidx]; [lia|].
    rewrite Hidx. simpl.
    destruct (Hpos index) as ([r c] & Hp & ->); [by eapply list_elem_of_lookup_2|].
    apply elem_of_coords in Hp.
    assert (config s1 = config s) as Hcfg by (by rewrite E1).
    rewrite Hcfg.
    destruct (linearIndex_decode (cols (config s)) r c) as [-> ->]; [lia..|].
    destruct (wfState_getCell s1 r c W1) as [cell Hcell].
    { unfold inBounds. by rewrite Hcfg. }
    rewrite Hcell. simpl. eexists. split; [done|].
    assert (mineAt (board s1) r c = false) as Hfresh.
    { apply not_true_is_false. intros Hm. apply M1 in Hm; [|done].
      apply list_elem_of_lookup in Hm as (k & Hk).
      apply lookup_take_Some in Hk as [Hk Hkl].
      assert (k = length done) by by eapply NoDup_lookup. lia. }
    rewrite (mineAt_false_getCell _ _ _ _ Hcell) in Hfresh.
    unfold I. split_and!.
    + by apply wfState_updState.
    + rewrite E1. done.
    + intros r' c' Hb'. rewrite length_app. simpl.
      rewrite Nat.add_1_r, (take_S_r _ _ _ Hidx), elem_of_snoc.
      unfold mineAt. simpl. rewrite getCell_updCell by lia.
      case_decide as Heq.
      * destruct Heq as [-> ->]. rewrite Hcell. simpl. split; auto.
      * fold (mineAt (board s1) r' c'). rewrite (M1 r' c' Hb'). split; [auto|].
        intros [?|Heq']; [done|]. exfalso. apply Heq.
        apply linearIndex_inj in Heq'; [by simplify_eq|simpl..];
          unfold inBounds in Hb'; lia.
    + pose proof (countCells_updCell isMine (set_isMine true) (board s1) r c cell Hcell) as Hn.
      simpl in Hn. rewrite Hfresh in Hn. rewrite length_app. simpl.
      unfold mineCells in *. lia.
  - exists s'. unfold I in *. split; [done|]. split; [done|]. split; [done|].
    rewrite length_seqZ in M, N. done.
Qed.

(** ** placeMines *)

Lemma elem_of_clippedBlock cfg row col p :
  p ∈ clippedBlock cfg row col ↔
  (-1 ≤ p.1 - row ≤ 1 ∧ -1 ≤ p.2 - col ≤ 1) ∧
  0 ≤ p.1 < rows cfg ∧ 0 ≤ p.2 < cols cfg.
Proof.
  rewrite clippedBlock_alt, list_elem_of_filter, list_elem_of_fmap. split.
  - intros [Hb ([dr dc] & -> & Hd%elem_of_offsets)]. simpl in *. lia.
  - intros [Hd Hb]. split; [done|]. exists (p.1 - row, p.2 - col). split.
    + destruct p. simpl. f_equal; lia.
    + apply elem_of_offsets. lia.
Qed.

Lemma fillAdjacent_total s : wfState s → is_Some (fillAdjacent s).
Proof.
  intros Hwf. unfold fillAdjacent. rewrite forEach_nested.
  fold (coords (rows (config s)) (cols (config s))).
  destruct (forEach_total (λ _ s', wfState s' ∧ sameButBoard s s')
    (λ p s0, cell ← getCell (board s0) p.1 p.2;
       if isMine cell then Some s0 else
       n ← countAdjacentMines s0 p.1 p.2;
       Some (updState (set_adjacent n) p.1 p.2 s0))
    (coords (rows (config s)) (cols (config s))) s) as (s' & -> & _); [| |done].
  - split; [done|by destruct s].
  - intros done [r c] rest s1 Hsplit [W1 E1]. simpl.
    assert (inBounds s1 r c) as Hb.
    { unfold inBounds. rewrite E1. simpl. apply elem_of_coords.
      rewrite Hsplit. apply elem_of_app. right. left. }
    destruct (wfState_getCell s1 r c W1 Hb) as [cell ->]. simpl.
    destruct (isMine cell); [by eexists|].
    rewrite countAdjacentMines_reference by done. simpl. eexists. split; [done|].
    split; [by apply wfState_updState|]. rewrite E1. done.
Qed.

Lemma fillAdjacent_mineCells s s' :
  fillAdjacent s = Some s' → mineCells (board s') = mineCells (board s).
Proof.
  unfold fillAdjacent. rewrite forEach_nested.
  apply (forEach_inv (λ s', mineCells (board s') = mineCells (board s))); [done|].
  intros [r c] s1 s2 _ Hk H. simpl in H.
  destruct (getCell (board s1) r c) as [cell|]; [|done]. simpl in H.
  destruct (isMine cell); [by simplify_eq|].
  destruct (countAdjacentMines s1 r c); simplify_eq/=.
  rewrite <- Hk. unfold mineCells. by apply countCells_updCell_same.
Qed.

(** Where the mines are after [placeMines], on a board that had none. *)
Lemma placeMines_spec rnd excludeRow excludeCol s :
  wfState s →
  0 < mines (config s) < rows (config s) * cols (config s) →
  inBounds s excludeRow excludeCol →
  (∀ r c, mineAt (board s) r c = false) →
  ∃ s', placeMines rnd excludeRow excludeCol s = Some s' ∧
    wfState s' ∧ s' = set_minesPlaced true (set_board (board s') s) ∧
    (∀ r c, mineAt (board s') r c = true →
       linearIndex (cols (config s)) (r, c)
         ∉ exclusionSet (config s) excludeRow excludeCol) ∧
    mineCells (board s') = (mineCells (board s) + Z.to_nat (mines (config s)))%nat.
Proof.
  intros Hwf Hmines Hclick Hno. unfold placeMines.
  set (excl := exclusionSet (config s) excludeRow excludeCol).
  set (cands := candidatePositions (rows (config s)) (cols (config s)) excl).
  assert (0 < cols (config s)) as Hcols by (unfold inBounds in Hclick; lia).
  assert (0 < rows (config s)) as Hrows by (unfold inBounds in Hclick; lia).
  assert (NoDup cands) as Hnd.
  { unfold cands. rewrite candidatePositions_filter.
    apply NoDup_fmap_2_strong; [|apply NoDup_filter, NoDup_coords].
    intros [r c] [r' c'] [_ H1%elem_of_coords]%list_elem_of_filter
      [_ H2%elem_of_coords]%list_elem_of_filter Heq.
    apply (linearIndex_inj (cols (config s))); simpl; [lia..|done]. }
  assert (rows (config s) * cols (config s) ≤ Z.of_nat (length cands) + Z.of_nat (size excl))
    as Hlen.
  { pose proof (length_filter_not_in
      (linearIndex (cols (config s)) <$> coords (rows (config s)) (cols (config s)))
      excl (NoDup_linearIndex_coords _ _)) as Hl.
    rewrite length_fmap, filter_fmap_length in Hl.
    unfold cands. rewrite candidatePositions_filter, length_fmap.
    rewrite <- (length_coords (rows (config s)) (cols (config s))) by lia.
    unfold compose in Hl. lia. }
  assert (mines (config s) ≤ Z.of_nat (length cands)) as Hmany.
  { unfold excl, exclusionSet in Hlen. case_decide as Hfb.
    - rewrite size_singleton in Hlen. lia.
    - lia. }
  destruct (markMines_spec (shuffle rnd cands) s) as (s1 & -> & W1 & E1 & M1 & N1);
    try done.
  - intros index Hin. rewrite shuffle_Permutation in Hin.
    unfold cands in Hin. rewrite candidatePositions_filter in Hin.
    apply list_elem_of_fmap in Hin as (p & -> & [_ Hp]%list_elem_of_filter). eauto.
  - by rewrite shuffle_Permutation.
  - by rewrite shuffle_Permutation.
  - simpl. destruct (fillAdjacent_total s1 W1) as [s2 H2]. rewrite H2. simpl.
    pose proof (fillAdjacent_mineCells _ _ H2) as Hmc.
    apply fillAdjacent_spec in H2 as (W2 & E2 & [_ Msame] & _); [|done].
    eexists. split; [done|]. split_and!.
    + done.
    + simpl. rewrite E2, E1. done.
    + intros r c Hm. simpl in Hm. rewrite Msame in Hm.
      assert (inBounds s r c) as Hb.
      { apply (mineAt_wf s1 _ _ W1) in Hm. unfold inBounds in *. by rewrite E1 in Hm. }
      apply (M1 r c Hb) in Hm. apply subseteq_take in Hm.
      rewrite shuffle_Permutation in Hm. unfold cands in Hm.
      rewrite candidatePositions_filter in Hm.
      apply list_elem_of_fmap in Hm as (p & Heq & [Hp _]%list_elem_of_filter).
      by rewrite Heq.
    + simpl. by rewrite <- N1.
Qed.

Lemma countCells_zero p b r c cell :
  countCells p b = 0%nat → getCell b r c = Some cell → p cell = false.
Proof.
  unfold countCells. intros Hz (line & Hl & Hc)%getCell_lookup.
  apply not_true_is_false. intros Hp.
  assert (cell ∈ filter (λ c, p c = true) (concat b)) as Hin.
  { apply list_elem_of_filter. split; [done|].
    apply list_elem_of_lookup_2 in Hc. clear -Hl Hc.
    revert Hl. generalize (Z.to_nat r).
    induction b as [|l b IH]; intros [|n] Hl; simplify_eq/=;
      apply elem_of_app; [by left|right; eauto]. }
  apply length_zero_iff_nil in Hz. rewrite Hz in Hin. by apply not_elem_of_nil in Hin.
Qed.

Lemma clicked_in_exclusionSet cfg row col :
  0 ≤ row < rows cfg → 0 ≤ col < cols cfg →
  linearIndex (cols cfg) (row, col) ∈ exclusionSet cfg row col.
Proof.
  intros Hr Hc. unfold exclusionSet. case_decide.
  - apply elem_of_singleton. done.
  - rewrite exclusionZone_list. apply elem_of_list_to_set.
    apply list_elem_of_fmap. exists (row, col). split; [done|].
    apply elem_of_clippedBlock. simpl. lia.
Qed.

(** C1. On a board of the configured dimensions that holds no mine yet,
    with [0 < mines < rows*cols] and the clicked cell on the board,
    [placeMines] succeeds whatever the random draws: it returns, the
    mines are placed ([minesPlaced] is set and the board holds exactly
    [mines] mines), and the clicked cell is not a mine; and when
    [rows*cols] minus the number of cells of the clipped 3x3 block around
    the click is at least [mines], no cell of that block is a mine.  The
    first part covers every configuration with
    [rows*cols - 9 < mines < rows*cols]. *)
Theorem placeMines_first_click_safe rnd s excludeRow excludeCol :
  wfState s → mineCells (board s) = 0%nat →
  0 < mines (config s) < rows (config s) * cols (config s) →
  inBounds s excludeRow excludeCol →
  ∃ s', placeMines rnd excludeRow excludeCol s = Some s' ∧
    minesPlaced s' = true ∧
    Z.of_nat (mineCells (board s')) = mines (config s) ∧
    (∃ cell, getCell (board s') excludeRow excludeCol = Some cell ∧
             isMine cell = false) ∧
    (rows (config s) * cols (config s)
       - Z.of_nat (length (clippedBlock (config s) excludeRow excludeCol))
     >= mines (config s) →
     ∀ p, p ∈ clippedBlock (config s) excludeRow excludeCol →
       ∃ cell, getCell (board s') p.1 p.2 = Some cell ∧ isMine cell = false).
Proof.
  intros Hwf Hnone Hmines Hclick.
  destruct (placeMines_spec rnd excludeRow excludeCol s) as (s' & Hrun & W & E & M & N);
    try done.
  { intros r c. unfold mineAt.
    destruct (getCell (board s) r c) as [cell|] eqn:Hcell; [|done].
    by eapply (countCells_zero isMine). }
  assert (config s' = config s) as Hcfg by (by rewrite E).
  assert (∀ r c, inBounds s r c →
            linearIndex (cols (config s)) (r, c)
              ∈ exclusionSet (config s) excludeRow excludeCol →
            ∃ cell, getCell (board s') r c = Some cell ∧ isMine cell = false) as Hsafe.
  { intros r c Hb Hin. destruct (wfState_getCell s' r c W) as [cell Hcell].
    { unfold inBounds. by rewrite Hcfg. }
    exists cell. split; [done|]. apply not_true_is_false. intros Hm.
    apply (M r c); [|done]. unfold mineAt. rewrite Hcell. done. }
  exists s'. split; [done|]. split; [by rewrite E|]. split; [lia|]. split.
  - apply Hsafe; [done|]. apply clicked_in_exclusionSet; apply Hclick.
  - intros Hroom [r c] Hp. apply Hsafe.
    + destruct (proj1 (elem_of_clippedBlock _ _ _ _) Hp) as [_ Hb]. exact Hb.
    + unfold exclusionSet. rewrite size_exclusionZone.
      rewrite decide_False by lia.
      rewrite exclusionZone_list. apply elem_of_list_to_set.
      by apply list_elem_of_fmap_2.
Qed.

Lemma placeMines_first_click_safe_witness :
  (∃ s', placeMines demoRandom 4 4 (createInitialState (mkConfig 9 9 10)) = Some s' ∧
     minesPlaced s' = true ∧
     Z.of_nat (mineCells (board s')) = 10 ∧
     (∃ cell, getCell (board s') 4 4 = Some cell ∧ isMine cell = false) ∧
     (9 * 9 - Z.of_nat (length (clippedBlock (mkConfig 9 9 10) 4 4)) >= 10 →
      ∀ p, p ∈ clippedBlock (mkConfig 9 9 10) 4 4 →
        ∃ cell, getCell (board s') p.1 p.2 = Some cell ∧ isMine cell = false)) ∧
  (∃ s', placeMines demoRandom 1 1 (createInitialState (mkConfig 3 3 8)) = Some s' ∧
     minesPlaced s' = true ∧
     Z.of_nat (mineCells (board s')) = 8 ∧
     ∃ cell, getCell (board s') 1 1 = Some cell ∧ isMine cell = false).
Proof.
  split.
  - apply (placeMines_first_click_safe demoRandom
             (createInitialState (mkConfig 9 9 10)) 4 4).
    + apply wfState_createInitialState.
    + vm_compute. reflexivity.
    + simpl. lia.
    + unfold inBounds. simpl. lia.
  - destruct (placeMines_first_click_safe demoRandom
                (createInitialState (mkConfig 3 3 8)) 1 1)
      as (s' & Hrun & Hplaced & Hmines & Hcell & _).
    + apply wfState_createInitialState.
    + vm_compute. reflexivity.
    + simpl. lia.
    + unfold inBounds. simpl. lia.
    + exists s'. auto.
Defined.

(** ** Counting identities *)

Lemma countCells_ext p q b : (∀ c, p c = q c) → countCells p b = countCells q b.
Proof.
  intros H. unfold countCells. f_equal. apply list_filter_iff. intros c. by rewrite H.
Qed.

Lemma countCells_split p q b :
  countCells p b
  = (countCells (λ c, p c && q c) b + countCells (λ c, p c && negb (q c)) b)%nat.
Proof.
  unfold countCells. induction (concat b) as [|x l IH]; [done|].
  rewrite !filter_cons.
  destruct (p x), (q x); simpl; repeat case_decide; try done; simpl; lia.
Qed.

Lemma countCells_true b : countCells (λ _, true) b = length (concat b).
Proof.
  unfold countCells. induction (concat b) as [|x l IH]; [done|].
  rewrite filter_cons. simpl. by rewrite IH.
Qed.

Lemma length_concat_wfState s :
  wfState s → 0 ≤ rows (config s) → 0 ≤ cols (config s) →
  Z.of_nat (length (concat (board s))) = rows (config s) * cols (config s).
Proof.
  intros [Hl Hf] Hr Hc.
  assert (length (concat (board s))
          = (length (board s) * Z.to_nat (cols (config s)))%nat) as ->.
  { clear Hl. induction Hf as [|line b Hline _ IH]; [done|].
    simpl. rewrite length_app, IH, Hline. done. }
  rewrite Hl. lia.
Qed.

(** Mines, closed safe cells and open cells make up the board. *)
Lemma cells_partition s :
  wfState s → 0 ≤ rows (config s) → 0 ≤ cols (config s) →
  rows (config s) * cols (config s)
  = Z.of_nat (mineCells (board s)) + Z.of_nat (closedSafe (board s))
    + Z.of_nat (openCells (board s)) - Z.of_nat (openMines (board s)).
Proof.
  intros Hwf Hr Hc. rewrite <- (length_concat_wfState s) by done.
  rewrite <- countCells_true.
  rewrite (countCells_split (λ _, true) isMine).
  rewrite (countCells_split (λ c, true && negb (isMine c)) isOpen).
  unfold openCells. rewrite (countCells_split isOpen isMine).
  unfold mineCells, closedSafe, openMines.
  rewrite (countCells_ext (λ c, true && isMine c) isMine) by done.
  rewrite (countCells_ext (λ c, true && negb (isMine c) && isOpen c)
             (λ c, isOpen c && negb (isMine c)))
    by (intros c; destruct (isMine c), (isOpen c); done).
  rewrite (countCells_ext (λ c, true && negb (isMine c) && negb (isOpen c))
             (λ c, negb (isMine c) && negb (isOpen c))) by done.
  rewrite (countCells_ext (λ c, isOpen c && isMine c) (λ c, isMine c && isOpen c))
    by (intros c; destruct (isMine c), (isOpen c); done).
  lia.
Qed.

Lemma elem_of_concat_getCell (b : Board) cell :
  cell ∈ concat b → ∃ r c, getCell b r c = Some cell.
Proof.
  intros Hin.
  assert (∃ i line j, b !! i = Some line ∧ line !! j = Some cell) as (i & line & j & Hl & Hc).
  { induction b as [|l b IH]; simpl in Hin; [by apply not_elem_of_nil in Hin|].
    apply elem_of_app in Hin as [Hin|Hin].
    - apply list_elem_of_lookup in Hin as [j Hj]. by exists 0%nat, l, j.
    - destruct (IH Hin) as (i & line & j & ? & ?). by exists (S i), line, j. }
  exists (Z.of_nat i), (Z.of_nat j). unfold getCell.
  rewrite decide_True by lia. rewrite !Nat2Z.id, Hl. done.
Qed.

Lemma countCells_zero_iff p b :
  countCells p b = 0%nat ↔ ∀ r c cell, getCell b r c = Some cell → p cell = false.
Proof.
  split.
  - intros Hz r c cell. by apply countCells_zero.
  - intros Hall. unfold countCells.
    assert (Forall (λ c, p c = false) (concat b)) as Hf.
    { apply Forall_forall. intros cell (r & c & Hc)%elem_of_concat_getCell. eauto. }
    induction Hf as [|x l Hx _ IH]; [done|].
    rewrite filter_cons, decide_False by (by rewrite Hx). done.
Qed.

Lemma allSafeOpen_closedSafe b : allSafeOpen b ↔ closedSafe b = 0%nat.
Proof.
  unfold closedSafe. rewrite countCells_zero_iff. unfold allSafeOpen.
  split; intros H r c cell Hc.
  - destruct (isMine cell) eqn:Hm; [done|]. by rewrite (H r c cell).
  - intros Hm. specialize (H r c cell Hc). rewrite Hm in H.
    by destruct (isOpen cell).
Qed.

Lemma noMineOpen_openMines b : noMineOpen b ↔ openMines b = 0%nat.
Proof.
  unfold openMines. rewrite countCells_zero_iff. unfold noMineOpen.
  split; intros H r c cell Hc.
  - destruct (isMine cell) eqn:Hm; [|done]. by rewrite (H r c cell).
  - intros Hm. specialize (H r c cell Hc). by rewrite Hm in H.
Qed.

(** ** The phases of a session *)

Lemma openMines_le_openCells b : (openMines b ≤ openCells b)%nat.
Proof.
  unfold openCells, openMines. rewrite (countCells_split isOpen isMine).
  rewrite (countCells_ext (λ c, isOpen c && isMine c) (λ c, isMine c && isOpen c))
    by (intros c; destruct (isMine c), (isOpen c); done).
  lia.
Qed.

(** The invariant looks at the configuration, the board and four fields. *)
Lemma sessionInv_ext s s' :
  config s' = config s → board s' = board s → openCount s' = openCount s →
  minesPlaced s' = minesPlaced s → isGameOver s' = isGameOver s →
  didWin s' = didWin s → sessionInv s → sessionInv s'.
Proof.
  unfold sessionInv, wfState, fresh, inPlay, won, lost, safeCells.
  intros -> -> -> -> -> ->. done.
Qed.

(** In every phase, the session is won exactly when every safe cell is
    open and no mine is. *)
Lemma sessionInv_won_iff s :
  sessionInv s →
  (isGameOver s = true ∧ didWin s = true
   ↔ allSafeOpen (board s) ∧ noMineOpen (board s)).
Proof.
  intros (Hwf & (Hr & Hc & Hm) & Hphase).
  rewrite allSafeOpen_closedSafe, noMineOpen_openMines.
  pose proof (cells_partition s Hwf) as Hpart.
  pose proof (openMines_le_openCells (board s)) as Hle.
  unfold fresh, inPlay, won, lost, safeCells in Hphase.
  destruct Hphase as [H|[H|[H|H]]].
  - destruct H as (-> & _ & _ & Hmc & Hoc & _). split; [by intros [? _]|].
    intros [Hcs Hom]. lia.
  - destruct H as (-> & _ & _ & Hmc & Hoc & Hom & Hlt). split; [by intros [? _]|].
    intros [Hcs _]. lia.
  - destruct H as (-> & -> & _ & _ & Hcs & Hom). done.
  - destruct H as (-> & -> & Hom). split; [by intros [_ ?]|].
    intros [_ H0]. lia.
Qed.

Lemma placeMines_openCells rnd r c s s' :
  placeMines rnd r c s = Some s' → openCells (board s') = openCells (board s).
Proof.
  unfold placeMines. intros H.
  destruct (markMines _ s) as [s1|] eqn:H1; [|done]. simpl in H.
  destruct (fillAdjacent s1) as [s2|] eqn:H2; simplify_eq/=.
  transitivity (openCells (board s1)).
  - revert H2. unfold fillAdjacent. rewrite forEach_nested.
    apply (forEach_inv (λ s', openCells (board s') = openCells (board s1))); [done|].
    intros [r' c'] sa sb _ Hk H. simpl in H.
    destruct (getCell (board sa) r' c') as [cell|]; [|done]. simpl in H.
    destruct (isMine cell); [by simplify_eq|].
    destruct (countAdjacentMines sa r' c'); simplify_eq/=.
    rewrite <- Hk. unfold openCells. by apply countCells_updCell_same.
  - revert H1. unfold markMines.
    apply (forEach_inv (λ s', openCells (board s') = openCells (board s))); [done|].
    intros i sa sb _ Hk H.
    destruct (_ !! Z.to_nat i) as [index|]; [|done]. simpl in H.
    destruct (getCell (board sa) _ _); simplify_eq/=.
    rewrite <- Hk. unfold openCells. by apply countCells_updCell_same.
Qed.

Lemma startTimer_fields now s :
  config (startTimer now s) = config s ∧ board (startTimer now s) = board s ∧
  openCount (startTimer now s) = openCount s ∧
  minesPlaced (startTimer now s) = minesPlaced s ∧
  isGameOver (startTimer now s) = isGameOver s ∧
  didWin (startTimer now s) = didWin s.
Proof. unfold startTimer, updateTimer. by destruct (timerId s). Qed.

Lemma stopTimer_fields s :
  config (stopTimer s) = config s ∧ board (stopTimer s) = board s ∧
  openCount (stopTimer s) = openCount s ∧
  minesPlaced (stopTimer s) = minesPlaced s ∧
  isGameOver (stopTimer s) = isGameOver s ∧
  didWin (stopTimer s) = didWin s.
Proof. unfold stopTimer. by destruct (timerId s). Qed.

(** The reveal and the win check, from a state in play. *)
Lemma click_inPlay s r c :
  wfState s → validConfig (config s) → inPlay s → inBounds s r c →
  ∃ s', (x ← openCell s r c;
         if isGameOver x.1 then Some x.1 else w ← checkWin x.1; Some w.1) = Some s' ∧
        sessionInv s'.
Proof.
  intros Hwf Hcfg Hplay Hb.
  pose proof Hplay as (Hover & Hwin & Hplaced & Hmc & Hoc & Hom & Hlt).
  assert (∀ s3, wfState s3 → config s3 = config s → isGameOver s3 = false →
            didWin s3 = false → minesPlaced s3 = true →
            mineCells (board s3) = mineCells (board s) →
            openCount s3 = Z.of_nat (openCells (board s3)) →
            openMines (board s3) = 0%nat →
            ∃ s', (if isGameOver s3 then Some s3 else w ← checkWin s3; Some w.1) = Some s' ∧
                  sessionInv s') as Hcheck.
  { intros s3 W3 C3 O3 D3 P3 M3 N3 X3. rewrite O3. unfold checkWin.
    pose proof (cells_partition s3 W3) as Hpart. rewrite C3 in Hpart.
    destruct Hcfg as (Hr & Hc & Hm).
    case_decide as Hge.
    - rewrite endGame_win. simpl. eexists. split; [done|].
      destruct (stopTimer_fields (set_didWin true (set_isGameOver true s3)))
        as (E1 & E2 & E3 & E4 & E5 & E6).
      split; [|split].
      + unfold wfState. rewrite E1, E2. done.
      + rewrite E1. simpl. by rewrite C3.
      + right. right. left. unfold won. rewrite E1, E2, E4, E5, E6. simpl.
        rewrite C3, M3. split_and!; try done. rewrite C3 in Hge. lia.
    - simpl. eexists. split; [done|]. split; [done|]. split; [by rewrite C3|].
      right. left. unfold inPlay, safeCells. rewrite C3, M3. split_and!; try done.
      rewrite C3 in Hge. lia. }
  unfold openCell.
  destruct (wfState_getCell s r c Hwf Hb) as [cell Hcell]. rewrite Hcell. simpl.
  destruct (isOpen cell || isFlagged cell) eqn:Hblk.
  { simpl. by apply Hcheck. }
  apply orb_false_iff in Hblk as [Hclosed Hunflagged].
  set (s2 := set_openCount (openCount s + 1) (updState (set_isOpen true) r c s)).
  assert (wfState s2) as W2 by apply (wfState_updState _ r c s Hwf).
  pose proof (openCells_open _ _ _ _ Hcell Hclosed) as Hop2.
  pose proof (countCells_updCell (λ c, isMine c && isOpen c) (set_isOpen true)
                (board s) r c cell Hcell) as Hom2.
  simpl in Hom2. rewrite Hclosed, andb_false_r, andb_true_r in Hom2.
  fold (openMines (board s)) in Hom2.
  fold (openMines (updCell (set_isOpen true) r c (board s))) in Hom2.
  destruct (isMine cell) eqn:Hmine.
  - unfold endGame.
    destruct (revealMines_cells
                (stopTimer (set_didWin false (set_isGameOver true s2))))
      as (s3 & Hrun & W3 & E3 & Hcells).
    { by apply wfState_stopTimer. }
    rewrite Hrun. simpl.
    destruct (stopTimer_fields (set_didWin false (set_isGameOver true s2)))
      as (E1 & E2 & _ & _ & E5 & E6).
    assert (isGameOver s3 = true) as Hover3 by (by rewrite E3; simpl; rewrite E5).
    rewrite Hover3. eexists. split; [done|]. split; [done|]. split.
    { rewrite E3. simpl. by rewrite E1. }
    right. right. right. split; [done|]. split.
    { rewrite E3. simpl. by rewrite E6. }
    destruct (openMines (board s3)) eqn:Hz; [exfalso|lia].
    pose proof (Hcells r c) as Hrc. rewrite E2 in Hrc. simpl in Hrc.
    rewrite (getCell_updCell_eq _ _ _ _ _ Hcell) in Hrc. simpl in Hrc.
    apply (countCells_zero _ _ _ _ _ Hz) in Hrc.
    unfold revealCell in Hrc. simpl in Hrc. rewrite Hmine in Hrc. simpl in Hrc.
    rewrite Hmine in Hrc. done.
  - assert (mineCells (board s2) = mineCells (board s)) as Hmc2.
    { unfold mineCells. simpl. by apply countCells_updCell_same. }
    case_decide as Hadj.
    + destruct (floodOpen_total s2 r c W2) as [s3 Hflood]. rewrite Hflood. simpl.
      apply floodOpen_spec in Hflood as (E & W & _ & _ & O & _ & M & X).
      apply Hcheck.
      * auto.
      * by rewrite E.
      * by rewrite E.
      * by rewrite E.
      * by rewrite E.
      * congruence.
      * simpl in O. rewrite Hop2 in O. lia.
      * rewrite X. simpl. lia.
    + apply (Hcheck s2); try done.
      * simpl. rewrite Hop2. lia.
      * simpl. lia.
Qed.

Lemma sessionInv_counts s s' :
  wfState s' → config s' = config s → openCount s' = openCount s →
  minesPlaced s' = minesPlaced s → isGameOver s' = isGameOver s →
  didWin s' = didWin s →
  mineCells (board s') = mineCells (board s) →
  openCells (board s') = openCells (board s) →
  openMines (board s') = openMines (board s) →
  closedSafe (board s') = closedSafe (board s) →
  sessionInv s → sessionInv s'.
Proof.
  unfold sessionInv, fresh, inPlay, won, lost, safeCells.
  intros W -> -> -> -> -> -> -> -> -> (_ & ? & ?). done.
Qed.

Lemma handleCellClick_inv now rnd s r c :
  sessionInv s → inBounds s r c →
  ∃ s', handleCellClick now rnd s r c = Some s' ∧ sessionInv s'.
Proof.
  intros Hinv Hb. pose proof Hinv as (Hwf & Hcfg & Hphase).
  unfold handleCellClick.
  destruct (isGameOver s) eqn:Hover; [by exists s|].
  destruct (wfState_getCell s r c Hwf Hb) as [cell Hcell]. rewrite Hcell. simpl.
  destruct (isOpen cell || isFlagged cell); [by exists s|].
  destruct Hphase as [Hfresh|[Hplay|[Hwon|Hlost]]].
  - destruct Hfresh as (_ & Hwin & Hplaced & Hmc & Hoc & Hcount).
    rewrite Hplaced. pose proof Hcfg as (Hr & Hc & Hm).
    destruct (placeMines_spec rnd r c s) as (s1 & Hrun & W1 & E1 & _ & N1); try done.
    { intros r' c'. unfold mineAt.
      destruct (getCell (board s) r' c') as [x|] eqn:Hx; [|done].
      by eapply (countCells_zero isMine). }
    pose proof (placeMines_openCells _ _ _ _ _ Hrun) as Hop1.
    rewrite Hrun. simpl.
    destruct (startTimer_fields now s1) as (F1 & F2 & F3 & F4 & F5 & F6).
    assert (config s1 = config s) as Hc1 by (by rewrite E1).
    apply click_inPlay.
    + unfold wfState. by rewrite F1, F2.
    + by rewrite F1, Hc1.
    + unfold inPlay, safeCells. rewrite F1, F2, F3, F4, F5, F6, Hc1.
      pose proof (openMines_le_openCells (board s1)) as Hle.
      rewrite E1. simpl. rewrite E1 in N1, Hop1, Hle. simpl in N1, Hop1, Hle.
      split_and!; try done; lia.
    + unfold inBounds. by rewrite F1, Hc1.
  - destruct Hplay as (? & ? & Hplaced & ?). rewrite Hplaced.
    by apply click_inPlay.
  - destruct Hwon as (? & _). congruence.
  - destruct Hlost as (? & _). congruence.
Qed.

Lemma toggleFlag_inv s r c :
  sessionInv s → inBounds s r c →
  ∃ s', toggleFlag s r c = Some s' ∧ sessionInv s'.
Proof.
  intros Hinv Hb. pose proof Hinv as (Hwf & _).
  unfold toggleFlag. destruct (isGameOver s); [by exists s|].
  destruct (wfState_getCell s r c Hwf Hb) as [cell Hcell]. rewrite Hcell. simpl.
  destruct (isOpen cell); [by exists s|].
  eexists. split; [done|].
  eapply (sessionInv_counts s); try done.
  - apply (wfState_updState _ r c s Hwf).
  - simpl. by apply countCells_updCell_same.
  - simpl. by apply countCells_updCell_same.
  - simpl. by apply countCells_updCell_same.
  - simpl. by apply countCells_updCell_same.
Qed.

Lemma hintPools_total s : wfState s → is_Some (hintPools s).
Proof.
  intros Hwf. unfold hintPools. rewrite forEach_nested.
  fold (coords (rows (config s)) (cols (config s))).
  destruct (forEach_total (λ _ _, True)
    (λ p (pools : list (Z * Z) * list (Z * Z)),
       cell ← getCell (board s) p.1 p.2;
       if isOpen cell || isFlagged cell || isMine cell then Some pools else
       if decide (adjacent cell = 0)
       then Some (pools.1 ++ [(p.1, p.2)], pools.2)
       else Some (pools.1, pools.2 ++ [(p.1, p.2)]))
    (coords (rows (config s)) (cols (config s))) ([], [])) as (x & -> & _); [done| |done].
  intros done [r c] rest pools Hsplit _. simpl.
  destruct (wfState_getCell s r c Hwf) as [cell ->].
  { apply elem_of_coords. rewrite Hsplit. apply elem_of_app. right. left. }
  simpl. destruct (_ || _); [by eexists|]. case_decide; by eexists.
Qed.

Lemma handleHint_inv now rnd s :
  sessionInv s → ∃ s', handleHint now rnd s = Some s' ∧ sessionInv s'.
Proof.
  intros Hinv. pose proof Hinv as (Hwf & (Hr & Hc & _) & _).
  unfold handleHint. destruct (isGameOver s); [by exists s|].
  destruct (minesPlaced s); simpl.
  - unfold findHintCell. destruct (hintPools_total s Hwf) as [pools ->]. simpl.
    case_decide; simpl.
    + by exists s.
    + destruct (_ !! _); eexists; (split; [done|]); [|done].
      by eapply (sessionInv_ext s).
  - destruct (handleCellClick_inv now (afterDraws 2 rnd) s
                (Z.of_nat (randomBelow rnd 0 (Z.to_nat (rows (config s)))))
                (Z.of_nat (randomBelow rnd 1 (Z.to_nat (cols (config s))))))
      as (s1 & -> & Hinv1); [done| |].
    { pose proof (randomBelow_lt rnd 0 (Z.to_nat (rows (config s)))).
      pose proof (randomBelow_lt rnd 1 (Z.to_nat (cols (config s)))).
      unfold inBounds. lia. }
    simpl. eexists. split; [done|]. by eapply (sessionInv_ext s1).
Qed.

Lemma sessionInv_createInitialState cfg :
  validConfig cfg → sessionInv (createInitialState cfg).
Proof.
  intros Hcfg. split; [apply wfState_createInitialState|]. split; [done|].
  left. unfold fresh. simpl. split_and!; try done.
  - by apply countCells_createEmptyBoard.
  - by apply countCells_createEmptyBoard.
Qed.

(** Every user-interface event returns and keeps the invariant. *)
Lemma step_inv s e :
  sessionInv s → uiEvent s e → ∃ s', step s e = Some s' ∧ sessionInv s'.
Proof.
  intros Hinv He. destruct e as [now rnd r c|r c|now rnd|now cfg|now|now]; simpl in *.
  - by apply handleCellClick_inv.
  - by apply toggleFlag_inv.
  - by apply handleHint_inv.
  - eexists. split; [done|].
    eapply (sessionInv_ext (createInitialState cfg));
      [..|by apply sessionInv_createInitialState]; done.
  - eexists. split; [done|]. eapply (sessionInv_ext s); [..|done];
      unfold resetTimerOnly; simpl; by destruct (timerId s).
  - eexists. split; [done|]. destruct (timerId s); [|done].
    eapply (sessionInv_ext s); [..|done]; unfold updateTimer; by destruct (startTime s).
Qed.

(** ** WON is entered once *)

Lemma isWon_absorbing s e s' :
  isWon s = true → isNewGame e = false → step s e = Some s' → isWon s' = true.
Proof.
  unfold isWon. intros [Hover Hwin]%andb_true_iff Hng Hstep.
  destruct e as [now rnd r c|r c|now rnd|now cfg|now|now]; simpl in *; try done.
  - unfold handleCellClick in Hstep. rewrite Hover in Hstep. simplify_eq.
    by rewrite Hover, Hwin.
  - unfold toggleFlag in Hstep. rewrite Hover in Hstep. simplify_eq.
    by rewrite Hover, Hwin.
  - unfold handleHint in Hstep. rewrite Hover in Hstep. simplify_eq.
    by rewrite Hover, Hwin.
  - simplify_eq. unfold resetTimerOnly. simpl.
    destruct (timerId s); simpl; by rewrite Hover, Hwin.
  - simplify_eq. destruct (timerId s); [|by rewrite Hover, Hwin].
    unfold updateTimer. destruct (startTime s); simpl; by rewrite Hover, Hwin.
Qed.

Lemma winTransitions_won s events s' :
  isWon s = true → Forall (λ e, isNewGame e = false) events →
  run s events = Some s' →
  winTransitions s events = 0%nat ∧ isWon s' = true.
Proof.
  unfold run. revert s. induction events as [|e events IH]; intros s Hw Hall Hrun.
  - simpl in Hrun. by simplify_eq.
  - apply Forall_cons in Hall as [He Hall]. simpl in *.
    destruct (step s e) as [s1|] eqn:Hstep; [|done]. simpl in Hrun.
    pose proof (isWon_absorbing s e s1 Hw He Hstep) as Hw1.
    destruct (IH s1 Hw1 Hall Hrun) as [-> ?]. by rewrite Hw.
Qed.

Lemma winTransitions_once s events s' :
  isWon s = false → Forall (λ e, isNewGame e = false) events →
  run s events = Some s' →
  winTransitions s events = (if isWon s' then 1 else 0)%nat.
Proof.
  unfold run. revert s. induction events as [|e events IH]; intros s Hw Hall Hrun.
  - simpl in Hrun. simplify_eq. by rewrite Hw.
  - apply Forall_cons in Hall as [He Hall]. simpl in *.
    destruct (step s e) as [s1|] eqn:Hstep; [|done]. simpl in Hrun.
    rewrite Hw. simpl. destruct (isWon s1) eqn:Hw1.
    + destruct (winTransitions_won s1 events s' Hw1 Hall Hrun) as [-> ->]. done.
    + by rewrite (IH s1 Hw1 Hall Hrun).
Qed.

(** ** Leaderboard: sorting *)

Lemma insertByTime_Permutation e l : insertByTime e l ≡ₚ e :: l.
Proof.
  induction l as [|e' l IH]; simpl; [done|].
  case_decide; [done|]. rewrite IH. apply Permutation_swap.
Qed.

Lemma sortByTime_Permutation l : sortByTime l ≡ₚ l.
Proof.
  induction l as [|e l IH]; simpl; [done|].
  by rewrite insertByTime_Permutation, IH.
Qed.

Lemma insertByTime_sorted e l :
  StronglySorted byTime l → StronglySorted byTime (insertByTime e l).
Proof.
  induction 1 as [|e' l Hs IH Hall]; simpl.
  - repeat constructor.
  - case_decide as Hle.
    + constructor; [by constructor|]. constructor; [done|].
      eapply Forall_impl; [done|]. unfold byTime. intros x Hx. lia.
    + constructor; [done|]. rewrite insertByTime_Permutation.
      constructor; [unfold byTime; lia|done].
Qed.

Lemma sortByTime_sorted l : StronglySorted byTime (sortByTime l).
Proof.
  induction l as [|e l IH]; simpl; [constructor|]. by apply insertByTime_sorted.
Qed.

Lemma StronglySorted_take {A} (R : A → A → Prop) n (l : list A) :
  StronglySorted R l → StronglySorted R (take n l).
Proof.
  intros H. revert n. induction H as [|x l Hs IH Hall]; intros [|n]; simpl;
    try constructor; [done|].
  eapply Forall_forall. intros y Hy. rewrite Forall_forall in Hall.
  apply Hall. by eapply subseteq_take.
Qed.

(** ** Leaderboard: the loader *)

Section LeaderboardProofs.
Variable JSON_parse : string → option Json.
Variable StringToNumber : JSString → Number.
Variable ObjectToNumber : Json → option Number.
Variable trim : JSString → JSString.

Local Abbreviation sanitizeItem' := (sanitizeItem StringToNumber ObjectToNumber trim).
Local Abbreviation sanitizeKey' := (sanitizeKey StringToNumber ObjectToNumber trim).
Local Abbreviation load := (loadLeaderboard JSON_parse StringToNumber ObjectToNumber trim).
Local Abbreviation validTime' := (validTime StringToNumber ObjectToNumber).
Local Abbreviation invalidTime' := (invalidTime StringToNumber ObjectToNumber).
Local Abbreviation sanitizedKey' := (sanitizedKey StringToNumber ObjectToNumber).
Local Abbreviation keptEntries' := (keptEntries StringToNumber ObjectToNumber).

Lemma inRange_spec t : inRange t = true ↔ 0 ≤ t ≤ 999.
Proof.
  unfold inRange. rewrite andb_true_iff, !bool_decide_eq_true. lia.
Qed.

(** One raw item with an invalid time adds no entry; one with a valid time
    adds one entry, whose time is that time. *)
Lemma sanitizeItem_spec item st st' :
  sanitizeItem' item st = Some st' →
  (invalidTime' item ∧ st'.1 = st.1) ∨
  (∃ e, validTime' item (time e) ∧ st'.1 = st.1 ++ [e]).
Proof.
  assert (∀ v name migrated,
    rawTime item = Some v →
    (x ← ToNumber StringToNumber ObjectToNumber v;
     match finiteFloor x with
     | Some t => if inRange t then Some (st.1 ++ [mkEntry name t], migrated) else Some st
     | None => Some st
     end) = Some st' →
    (invalidTime' item ∧ st'.1 = st.1) ∨
    (∃ e, validTime' item (time e) ∧ st'.1 = st.1 ++ [e])) as Hgen.
  { intros v name migrated Hraw H.
    destruct (ToNumber _ _ v) as [x|] eqn:Hx; [|done]. simpl in H.
    destruct (finiteFloor x) as [t|] eqn:Ht.
    - destruct (inRange t) eqn:Hr; simplify_eq.
      + apply inRange_spec in Hr. right. eexists. split; [|done]. by exists v, x.
      + left. split; [|done]. intros v' x' t' Hv' Hx' Ht' Hin. simplify_eq.
        apply inRange_spec in Hin. congruence.
    - simplify_eq. left. split; [|done].
      intros v' x' t' Hv' Hx' Ht'. simplify_eq. }
  destruct item as [|b|x|str|items|fields]; intros H.
  - simpl in H. simplify_eq. left. split; [|done]. by intros v x t Hv.
  - simpl in H. simplify_eq. left. split; [|done]. by intros v x t Hv.
  - exact (Hgen (Some (JNum x)) DEFAULT_NICKNAME true eq_refl H).
  - exact (Hgen (Some (JStr str)) DEFAULT_NICKNAME true eq_refl H).
  - exact (Hgen (getProp "time" (JArr items))
             (normalizeNickname trim (getProp "name" (JArr items)))
             match getProp "name" (JArr items) with
             | Some (JStr v) =>
                 if decide (v = normalizeNickname trim (getProp "name" (JArr items)))
                 then st.2 else true
             | _ => true
             end eq_refl H).
  - exact (Hgen (getProp "time" (JObj fields))
             (normalizeNickname trim (getProp "name" (JObj fields)))
             match getProp "name" (JObj fields) with
             | Some (JStr v) =>
                 if decide (v = normalizeNickname trim (getProp "name" (JObj fields)))
                 then st.2 else true
             | _ => true
             end eq_refl H).
Qed.

Lemma sanitizeItems_spec value st r :
  forEach value sanitizeItem' st = Some r →
  ∃ es, keptEntries' value es ∧ r.1 = st.1 ++ es.
Proof.
  revert st. induction value as [|item value IH]; intros st H; simpl in H.
  - simplify_eq. exists []. split; [constructor|by rewrite app_nil_r].
  - destruct (sanitizeItem' item st) as [st1|] eqn:H1; [|done]. simpl in H.
    destruct (IH st1 H) as (es & Hkept & Heq).
    apply sanitizeItem_spec in H1 as [[Hinv H1]|(e & Hval & H1)]; rewrite H1 in Heq.
    + exists es. split; [by constructor|done].
    + exists (e :: es). split; [by constructor|]. by rewrite <- app_assoc in Heq.
Qed.

Lemma keptEntries_invalid value es :
  Forall invalidTime' value → keptEntries' value es → es = [].
Proof.
  intros Hall Hkept. induction Hkept as [|item items es Hinv _ IH|item items e es Hval _ IH].
  - done.
  - apply Forall_cons in Hall as [_ Hall]. auto.
  - apply Forall_cons in Hall as [Hinv _]. exfalso.
    destruct Hval as (v & x & Hv & Hx & Ht & Hr). by apply (Hinv v x (time e)).
Qed.

Lemma keptEntries_times value es e :
  keptEntries' value es → e ∈ es → 0 ≤ time e ≤ 999.
Proof.
  intros Hkept. induction Hkept as [|item items es Hinv _ IH|item items e' es Hval _ IH].
  - by intros ?%not_elem_of_nil.
  - done.
  - intros [->|He]%elem_of_cons; [|auto].
    by destruct Hval as (v & x & _ & _ & _ & Hr).
Qed.

Lemma sanitizeKey_spec fields kv st st' :
  kv ∈ fields → sanitizeKey' kv st = Some st' →
  (∀ key entries, st'.1 !! key = Some entries →
     st.1 !! key = Some entries ∨ sanitizedKey' fields key entries) ∧
  (∀ key, st.1 !! key = None →
     (kv.1 = key → ∀ value, kv.2 = JArr value → Forall invalidTime' value) ∨ kv.1 ≠ key →
     st'.1 !! key = None).
Proof.
  intros Hkv. unfold sanitizeKey. destruct kv as [k v]. simpl.
  destruct v as [| | | |value|]; try (intros ?; simplify_eq; by auto).
  intros H. destruct (forEach value _ _) as [r|] eqn:Hitems; [|done]. simpl in H.
  apply sanitizeItems_spec in Hitems as (es & Hkept & Hes). simpl in Hes. subst es.
  case_decide as Hlen; simplify_eq; simpl; [|by auto].
  unfold assignKey. case_decide as Hproto; [by auto|]. split.
  - intros key entries. rewrite lookup_insert. case_decide as Hk; [|by auto].
    intros ?; simplify_eq. right. exists value, r.1.
    split_and!; try done. intros Hnil. rewrite Hnil in Hlen. simpl in Hlen. lia.
  - intros key Hn [Hall|Hne].
    + destruct (decide (k = key)) as [->|Hne]; [|by rewrite lookup_insert_ne].
      rewrite (keptEntries_invalid value r.1) in Hlen; [simpl in Hlen; lia| |done].
      by apply Hall.
    + by rewrite lookup_insert_ne.
Qed.

Lemma NoDup_fst_functional {A B} (l : list (A * B)) x y1 y2 :
  NoDup l.*1 → (x, y1) ∈ l → (x, y2) ∈ l → y1 = y2.
Proof.
  induction l as [|[a b] l IH]; csimpl; intros Hnd H1 H2.
  - by apply not_elem_of_nil in H1.
  - apply NoDup_cons in Hnd as [Hfresh Hnd].
    apply elem_of_cons in H1 as [H1|H1], H2 as [H2|H2]; simplify_eq; auto.
    + exfalso. apply Hfresh. apply list_elem_of_fmap. by exists (a, y2).
    + exfalso. apply Hfresh. apply list_elem_of_fmap. by exists (a, y1).
Qed.

Lemma sanitizeFields_spec fields r :
  forEach fields sanitizeKey' (∅, false) = Some r →
  (∀ key entries, r.1 !! key = Some entries → sanitizedKey' fields key entries) ∧
  (∀ key value, NoDup fields.*1 → (key, JArr value) ∈ fields →
     Forall invalidTime' value → r.1 !! key = None).
Proof.
  apply (forEach_inv (λ st : LeaderboardStore * bool,
    (∀ key entries, st.1 !! key = Some entries → sanitizedKey' fields key entries) ∧
    (∀ key value, NoDup fields.*1 → (key, JArr value) ∈ fields →
       Forall invalidTime' value → st.1 !! key = None))).
  - split; [|done]. intros key entries. simpl. by rewrite lookup_empty.
  - intros kv st st' Hkv [Hsome Hnone] Hstep.
    destruct (sanitizeKey_spec fields kv st st' Hkv Hstep) as [Hs Hn]. split.
    + intros key entries [?|?]%Hs; auto.
    + intros key value Hnd Hin Hall. apply Hn; [by eapply Hnone|].
      destruct (decide (kv.1 = key)) as [Heq|Hne]; [left|by right].
      intros _ value' Hv. destruct kv as [k v]. simpl in *. subst.
      pose proof (NoDup_fst_functional fields key _ _ Hnd Hkv Hin) as Heq.
      by simplify_eq.
Qed.

(** C9. For whatever [localStorage.getItem] and [JSON.parse] deliver, the
    loader returns a store (an exception inside becomes the empty store).
    Every key of the store holds the first five, ascending by time, of
    the entries that the raw items under that key leave, where an item
    whose coerced time is not a finite integer in [0, 999] leaves none and
    every other item leaves one entry with its coerced time: the list is
    not empty, has at most 5 entries, is sorted, and all its times are in
    [0, 999].  A key whose raw items all have an invalid time is absent.
    A failed read, an absent or empty payload, malformed JSON and a
    payload that is not an object give the empty store. *)
Theorem loadLeaderboard_sanitizes read :
  (∀ key entries, (load read).1 !! key = Some entries →
     entries ≠ [] ∧ (length entries ≤ 5)%nat ∧ StronglySorted byTime entries ∧
     (∀ e, e ∈ entries → 0 ≤ time e ≤ 999) ∧
     ∃ raw fields value es,
       read = ReadString raw ∧ JSON_parse raw = Some (JObj fields) ∧
       (key, JArr value) ∈ fields ∧ keptEntries' value es ∧
       entries = take 5 (sortByTime es)) ∧
  (∀ raw fields key value,
     read = ReadString raw → JSON_parse raw = Some (JObj fields) →
     NoDup fields.*1 → (key, JArr value) ∈ fields →
     Forall invalidTime' value → (load read).1 !! key = None) ∧
  (read = ReadThrows ∨ read = ReadNull ∨ read = ReadString "" ∨
   (∃ raw, read = ReadString raw ∧
      (JSON_parse raw = None ∨
       ∃ j, JSON_parse raw = Some j ∧ ∀ fields, j ≠ JObj fields)) →
   load read = (∅, false)).
Proof.
  split_and!.
  - intros key entries. unfold loadLeaderboard.
    destruct read as [| |raw]; try (by simpl; rewrite lookup_empty).
    case_decide; [by simpl; rewrite lookup_empty|].
    destruct (JSON_parse raw) as [[| | | | |fields]|] eqn:Hparse;
      try (by simpl; rewrite lookup_empty).
    destruct (forEach fields _ _) as [r|] eqn:Hrun; [|by simpl; rewrite lookup_empty].
    intros Hkey. apply sanitizeFields_spec in Hrun as [Hsome _].
    destruct (Hsome key entries Hkey) as (value & es & Hin & Hkept & Hne & ->).
    split_and!.
    + destruct (sortByTime es) as [|e l] eqn:Hs; [|done].
      pose proof (sortByTime_Permutation es) as Hp. rewrite Hs in Hp.
      by apply Permutation_nil_l in Hp.
    + rewrite length_take. unfold LEADERBOARD_LIMIT. lia.
    + apply StronglySorted_take, sortByTime_sorted.
    + intros e He%subseteq_take. rewrite sortByTime_Permutation in He.
      by eapply keptEntries_times.
    + by exists raw, fields, value, es.
  - intros raw fields key value -> Hparse Hnd Hin Hall. unfold loadLeaderboard.
    case_decide; [by simpl; rewrite lookup_empty|]. rewrite Hparse.
    destruct (forEach fields _ _) as [r|] eqn:Hrun; [|by simpl; rewrite lookup_empty].
    apply sanitizeFields_spec in Hrun as [_ Hnone]. by eapply Hnone.
  - unfold loadLeaderboard.
    intros [->|[->|[->|(raw & -> & [Hnone|(j & Hj & Hobj)])]]]; try done.
    + case_decide; [done|]. by rewrite Hnone.
    + case_decide; [done|]. rewrite Hj. destruct j; try done. by destruct (Hobj fields).
Qed.
End LeaderboardProofs.

Lemma loadLeaderboard_sanitizes_witness :
  demoLoad.1 !! "16x16-40" = None ∧
  demoLoad.1 !! "9x9-10"
    = Some [mkEntry DEFAULT_NICKNAME 17; mkEntry DEFAULT_NICKNAME 30] ∧
  StronglySorted byTime [mkEntry DEFAULT_NICKNAME 17; mkEntry DEFAULT_NICKNAME 30].
Proof.
  split; [|split].
  - unfold demoLoad.
    eapply (proj1 (proj2 (loadLeaderboard_sanitizes (λ _, Some demoPayload)
              (λ _, NaN) (λ _, Some NaN) (λ s, s) (ReadString "stored")))
              "stored" _ "16x16-40" [demoNumber 1000; demoNumber (-1)]).
    + reflexivity.
    + reflexivity.
    + repeat (constructor; [set_solver|]). constructor.
    + set_solver.
    + apply Forall_cons.
      split; [intros v x t Hv Hx Ht; simplify_eq/=; rewrite Z.div_1_r; lia|].
      apply Forall_cons.
      split; [intros v x t Hv Hx Ht; simplify_eq/=; rewrite Z.div_1_r; lia|].
      by apply Forall_nil.
  - vm_compute. reflexivity.
  - eapply (proj1 (loadLeaderboard_sanitizes (λ _, Some demoPayload)
              (λ _, NaN) (λ _, Some NaN) (λ s, s) (ReadString "stored"))
              "9x9-10").
    vm_compute. reflexivity.
Defined.

(** ** The cascade of floodOpen is complete *)

Lemma floodInv_config s s' : floodInv s s' → config s' = config s.
Proof. intros (E & _). by rewrite E. Qed.

Lemma settled_mono s s' r c :
  floodInv s s' → settled (board s) r c → settled (board s') r c.
Proof.
  intros (_ & _ & Hcells & _) (cell & Hcell & Hs).
  destruct (Hcells r c) as [Heq|(x & Hx & _ & _ & _ & Hnew)].
  - exists cell. by rewrite Heq.
  - exists (set_isOpen true x). by rewrite Hnew.
Qed.

Lemma blockSettled_mono s s' r c :
  floodInv s s' → blockSettled s r c → blockSettled s' r c.
Proof.
  intros Hi Hb dr dc Hdr Hdc Hin. eapply settled_mono; [done|].
  apply Hb; [done..|]. unfold inBounds in *. by rewrite <- (floodInv_config s s').
Qed.

Lemma openedBlank_irrefl s r c : ¬ openedBlank s s r c.
Proof. intros (cell & cell' & H1 & Ho & H2 & Ho' & _). congruence. Qed.

(** A blank cell opened between [s] and [s2] was opened before or after
    any state [s1] in between. *)
Lemma openedBlank_split s s1 s2 r c :
  floodInv s s1 → floodInv s1 s2 → openedBlank s s2 r c →
  openedBlank s s1 r c ∨ openedBlank s1 s2 r c.
Proof.
  intros (_ & _ & C1 & _) (_ & _ & C2 & _) (cell & cell2 & Hc & Ho & Hc2 & Ho2 & Ha).
  destruct (C1 r c) as [Heq|(x & Hx & _ & _ & _ & Hnew)].
  - right. exists cell, cell2. by rewrite Heq.
  - left. rewrite Hc in Hx. simplify_eq.
    exists x, (set_isOpen true x). split_and!; try done.
    destruct (C2 r c) as [Heq|(y & Hy & Hyo & _)].
    + rewrite Heq, Hnew in Hc2. by simplify_eq.
    + rewrite Hnew in Hy. by simplify_eq.
Qed.

(** One visit settles the neighbour it looks at and pushes it when it
    opened it blank. *)
Lemma floodVisit_closure row col dr dc s st s' st' :
  floodVisit row col dr dc (s, st) = Some (s', st') →
  st ⊆ st' ∧
  (inBounds s (row + dr) (col + dc) → settled (board s') (row + dr) (col + dc)) ∧
  (∀ r c, openedBlank s s' r c → (r, c) ∈ st').
Proof.
  unfold floodVisit. cbn [fst snd]. intros H.
  case_decide as Hb.
  { simplify_eq. split; [done|]. split; [unfold inBounds; lia|].
    intros r c Ho. by apply openedBlank_irrefl in Ho. }
  destruct (getCell (board s) (row + dr) (col + dc)) as [nb|] eqn:Hnb; [|done].
  simpl in H.
  destruct (isOpen nb || isFlagged nb || isMine nb) eqn:Hs.
  { simplify_eq. split; [done|]. split; [intros _; by exists nb|].
    intros r c Ho. by apply openedBlank_irrefl in Ho. }
  destruct (getCell_Some_nonneg _ _ _ _ Hnb) as [Hr0 Hc0].
  injection H as <- <-. split_and!.
  - case_decide; [|done]. set_solver.
  - intros _. exists (set_isOpen true nb). split; [|done].
    simpl. by apply getCell_updCell_eq.
  - intros r c (cell & cell' & Hc & Ho & Hc' & Ho' & Ha). simpl in Hc'.
    rewrite getCell_updCell in Hc' by done.
    case_decide as Heq; [|congruence]. destruct Heq as [-> ->].
    rewrite Hnb in Hc'. simplify_eq/=. rewrite decide_True by done. left.
Qed.

(** The nine visits settle the whole block around the popped cell. *)
Lemma floodStep_closure row col s st s' st' :
  floodStep row col (s, st) = Some (s', st') →
  st ⊆ st' ∧ blockSettled s' row col ∧
  (∀ r c, openedBlank s s' r c → (r, c) ∈ st').
Proof.
  unfold floodStep. rewrite forEach_nested. fold offsets. intros H.
  pose (I := λ (done : list (Z * Z)) (x : GameState * list (Z * Z)),
    floodInv s x.1 ∧ st ⊆ x.2 ∧
    (∀ d, d ∈ done → inBounds s (row + d.1) (col + d.2) →
       settled (board x.1) (row + d.1) (col + d.2)) ∧
    (∀ r c, openedBlank s x.1 r c → (r, c) ∈ x.2)).
  assert (I offsets (s', st')) as (Hi & Hsub & Hset & Hop).
  { eapply (forEach_prefix I); [| |exact H].
    - split_and!; [apply floodInv_refl|done| |].
      + by intros d ?%not_elem_of_nil.
      + intros r c Ho. by apply openedBlank_irrefl in Ho.
    - intros done [dr dc] rest [s1 st1] [s2 st2] _ (Hi1 & Hsub1 & Hset1 & Hop1) Hv.
      simpl in *. pose proof Hv as Hv'.
      apply floodVisit_spec in Hv' as [Hi2 _].
      apply floodVisit_closure in Hv as (Hsub2 & Hset2 & Hop2).
      split_and!.
      + eapply floodInv_trans; eauto.
      + set_solver.
      + intros d [Hd| ->]%elem_of_snoc Hin.
        * eapply settled_mono; [done|]. by apply Hset1.
        * simpl in *. apply Hset2. unfold inBounds in *.
          by rewrite (floodInv_config s s1).
      + intros r c Ho.
        destruct (openedBlank_split s s1 s2 r c Hi1 Hi2 Ho) as [Ho1|Ho2].
        * apply Hsub2. by apply Hop1.
        * by apply Hop2. }
  split; [done|]. split; [|done].
  intros dr dc Hdr Hdc Hin. apply (Hset (dr, dc)).
  - by apply elem_of_offsets.
  - simpl. unfold inBounds in *. by rewrite <- (floodInv_config s s').
Qed.

(** When the loop returns, the block around every cell that was on the
    stack and around every cell that was opened blank is settled. *)
Lemma floodLoop_closure fuel stack s s' :
  floodLoop fuel stack s = Returned s' →
  ∀ r c, (r, c) ∈ stack ∨ openedBlank s s' r c → blockSettled s' r c.
Proof.
  revert stack s. induction fuel as [|fuel IH]; intros [|[row col] stack] s H;
    simpl in H; simplify_eq.
  - intros r c [?%not_elem_of_nil|?%openedBlank_irrefl]; done.
  - intros r c [?%not_elem_of_nil|?%openedBlank_irrefl]; done.
  - destruct (floodStep row col (s, stack)) as [[s1 st1]|] eqn:Hs; [|done].
    pose proof Hs as Hs'. apply floodStep_spec in Hs' as [Hi1 _].
    apply floodStep_closure in Hs as (Hsub & Hblock & Hop).
    pose proof (floodLoop_spec _ _ _ _ H) as Hi2.
    intros r c [Hin|Ho].
    + apply elem_of_cons in Hin as [Heq|Hin].
      * simplify_eq. by eapply blockSettled_mono.
      * eapply IH; [done|]. left. by apply Hsub.
    + eapply IH; [done|].
      destruct (openedBlank_split s s1 s' r c Hi1 Hi2 Ho) as [Ho1|Ho2]; auto.
Qed.

(** X1. On a board of the configured dimensions [floodOpen] returns and
    leaves the cascade complete: around the start cell, and around every
    cell that it opened and that shows no number, every cell of the board
    is open, flagged or a mine. *)
Theorem floodOpen_cascade_complete s startRow startCol :
  wfState s →
  ∃ s', floodOpen s startRow startCol = Some s' ∧
    blockSettled s' startRow startCol ∧
    ∀ r c, openedBlank s s' r c → blockSettled s' r c.
Proof.
  intros Hwf. destruct (floodOpen_total s startRow startCol Hwf) as [s' Hrun].
  exists s'. split; [done|].
  unfold floodOpen in Hrun.
  destruct (floodLoop _ _ s) as [s1| |] eqn:Hl; simplify_eq.
  pose proof (floodLoop_closure _ _ _ _ Hl) as Hclosure.
  split.
  - apply Hclosure. left. apply list_elem_of_singleton. done.
  - intros r c Ho. apply Hclosure. by right.
Qed.

Lemma floodOpen_cascade_complete_witness :
  ∃ s', floodOpen demoState 0 0 = Some s' ∧
    blockSettled s' 0 0 ∧
    ∀ r c, openedBlank demoState s' r c → blockSettled s' r c.
Proof. apply (floodOpen_cascade_complete demoState 0 0). solve_wf. Defined.

(** ** placeMines: the number of mines, the frame and the failure *)

Lemma sameMarks_refl b : sameMarks b b.
Proof. intros r c. by destruct (getCell b r c). Qed.

Lemma sameMarks_trans b1 b2 b3 : sameMarks b1 b2 → sameMarks b2 b3 → sameMarks b1 b3.
Proof.
  intros H1 H2 r c. specialize (H1 r c). specialize (H2 r c).
  destruct (getCell b1 r c), (getCell b2 r c), (getCell b3 r c); try done.
  destruct H1 as (? & ? & ?), H2 as (? & ? & ?). split_and!; congruence.
Qed.

Lemma sameMarks_updCell f r c b :
  (∀ x, isOpen (f x) = isOpen x) → (∀ x, isFlagged (f x) = isFlagged x) →
  (∀ x, isWrongFlag (f x) = isWrongFlag x) → 0 ≤ r → 0 ≤ c →
  sameMarks b (updCell f r c b).
Proof.
  intros Ho Hf Hw Hr Hc r' c'. rewrite getCell_updCell by done.
  case_decide as Heq.
  - destruct Heq as [-> ->]. destruct (getCell b r c); simpl; auto.
  - by destruct (getCell b r' c').
Qed.

Lemma markMines_frame positions s s' :
  markMines positions s = Some s' →
  sameButBoard s s' ∧ sameMarks (board s) (board s').
Proof.
  unfold markMines.
  apply (forEach_inv (λ x, sameButBoard s x ∧ sameMarks (board s) (board x))).
  - split; [by destruct s|apply sameMarks_refl].
  - intros i s1 s2 _ [E1 M1] H.
    destruct (positions !! Z.to_nat i) as [index|]; [|done]. simpl in H.
    destruct (getCell _ _ _) as [cell|] eqn:Hcell; [|done]. simplify_eq/=.
    destruct (getCell_Some_nonneg _ _ _ _ Hcell). split.
    + rewrite E1. done.
    + eapply sameMarks_trans; [done|]. by apply sameMarks_updCell.
Qed.

Lemma fillAdjacent_frame s s' :
  fillAdjacent s = Some s' →
  sameButBoard s s' ∧ sameMarks (board s) (board s').
Proof.
  unfold fillAdjacent. rewrite forEach_nested.
  apply (forEach_inv (λ x, sameButBoard s x ∧ sameMarks (board s) (board x))).
  - split; [by destruct s|apply sameMarks_refl].
  - intros [r c] s1 s2 _ [E1 M1] H. simpl in H.
    destruct (getCell (board s1) r c) as [cell|] eqn:Hcell; [|done]. simpl in H.
    destruct (isMine cell); [by simplify_eq|].
    destruct (countAdjacentMines s1 r c); simplify_eq/=.
    destruct (getCell_Some_nonneg _ _ _ _ Hcell). split.
    + rewrite E1. done.
    + eapply sameMarks_trans; [done|]. by apply sameMarks_updCell.
Qed.

(** Whenever [placeMines] returns it has set [minesPlaced] and changed
    nothing else but [isMine] and [adjacent] of the cells. *)
Lemma placeMines_frame rnd r c s s' :
  placeMines rnd r c s = Some s' →
  s' = set_minesPlaced true (set_board (board s') s) ∧
  sameMarks (board s) (board s').
Proof.
  unfold placeMines. intros H.
  destruct (markMines _ s) as [s1|] eqn:H1; [|done]. simpl in H.
  destruct (fillAdjacent s1) as [s2|] eqn:H2; [|done]. simplify_eq/=.
  apply markMines_frame in H1 as [E1 M1].
  apply fillAdjacent_frame in H2 as [E2 M2]. split.
  - rewrite E2, E1. done.
  - by eapply sameMarks_trans.
Qed.

Lemma no_mineCells_mineAt b :
  mineCells b = 0%nat → ∀ r c, mineAt b r c = false.
Proof.
  intros Hz r c. unfold mineAt.
  destruct (getCell b r c) as [cell|] eqn:Hcell; [|done].
  by eapply (countCells_zero isMine).
Qed.

(** With fewer mines than cells [placeMines] returns and has placed
    every mine. *)
Lemma placeMines_returns rnd s excludeRow excludeCol :
  wfState s → mineCells (board s) = 0%nat →
  mines (config s) < rows (config s) * cols (config s) →
  inBounds s excludeRow excludeCol →
  ∃ s', placeMines rnd excludeRow excludeCol s = Some s' ∧ wfState s' ∧
    mineCells (board s') = Z.to_nat (mines (config s)).
Proof.
  intros Hwf Hnone Hlt Hclick.
  destruct (decide (0 < mines (config s))) as [Hpos|Hle].
  - destruct (placeMines_spec rnd excludeRow excludeCol s)
      as (s' & Hrun & W & _ & _ & Hn); try done.
    + by apply no_mineCells_mineAt.
    + exists s'. split; [done|]. split; [done|]. lia.
  - unfold placeMines, markMines.
    rewrite (seqZ_nil 0 (mines (config s))) by lia. simpl.
    destruct (fillAdjacent_total s Hwf) as [s2 H2]. rewrite H2. simpl.
    eexists. split; [done|]. simpl.
    rewrite (fillAdjacent_mineCells _ _ H2).
    apply fillAdjacent_spec in H2 as (W2 & _); [|done].
    split; [done|]. lia.
Qed.

(** X2. On a board of the configured dimensions that holds no mine, with
    fewer mines configured than there are cells and a click on the board,
    [placeMines] returns; the board then holds exactly [mines] mines;
    [minesPlaced] is set and no other field of the state changes; and
    every cell keeps its open, flagged and wrong-flag marks. *)
Theorem placeMines_places_every_mine rnd s excludeRow excludeCol :
  wfState s → mineCells (board s) = 0%nat →
  mines (config s) < rows (config s) * cols (config s) →
  inBounds s excludeRow excludeCol →
  ∃ s', placeMines rnd excludeRow excludeCol s = Some s' ∧
    s' = set_minesPlaced true (set_board (board s') s) ∧
    mineCells (board s') = Z.to_nat (mines (config s)) ∧
    sameMarks (board s) (board s').
Proof.
  intros Hwf Hnone Hlt Hclick.
  destruct (placeMines_returns rnd s excludeRow excludeCol)
    as (s' & Hrun & _ & Hn); try done.
  exists s'. split; [done|].
  destruct (placeMines_frame _ _ _ _ _ Hrun) as [E M]. done.
Qed.

Lemma placeMines_places_every_mine_witness :
  ∃ s', placeMines demoRandom 4 4 (createInitialState (mkConfig 9 9 10)) = Some s' ∧
    s' = set_minesPlaced true
           (set_board (board s') (createInitialState (mkConfig 9 9 10))) ∧
    mineCells (board s') = Z.to_nat 10 ∧
    sameMarks (board (createInitialState (mkConfig 9 9 10))) (board s').
Proof.
  apply (placeMines_places_every_mine demoRandom
           (createInitialState (mkConfig 9 9 10)) 4 4).
  - apply wfState_createInitialState.
  - vm_compute. reflexivity.
  - simpl. lia.
  - unfold inBounds. simpl. lia.
Defined.

Lemma forEach_None {A S} (xs : list A) (body : A → S → option S) x s :
  x ∈ xs → (∀ s1, body x s1 = None) → forEach xs body s = None.
Proof.
  intros Hin Hnone. revert s. induction xs as [|y xs IH]; intros s.
  - by apply not_elem_of_nil in Hin.
  - simpl. apply elem_of_cons in Hin as [<-|Hin].
    + by rewrite Hnone.
    + destruct (body y s); simpl; [by apply IH|done].
Qed.

Lemma length_filter_lt {A} (P : A → Prop) `{!∀ x, Decision (P x)} (l : list A) x :
  x ∈ l → ¬ P x → (length (filter P l) < length l)%nat.
Proof.
  intros Hin Hx. induction l as [|y l IH]; [by apply not_elem_of_nil in Hin|].
  rewrite filter_cons. apply elem_of_cons in Hin as [<-|Hin].
  - rewrite decide_False by done. simpl.
    pose proof (length_filter P l). lia.
  - specialize (IH Hin). case_decide; simpl; lia.
Qed.

(** X3. With a click on the board, [placeMines] returns exactly when the
    configuration has fewer mines than cells; with as many mines as cells
    or more it runs out of positions and throws. *)
Theorem placeMines_returns_iff rnd s excludeRow excludeCol :
  wfState s → mineCells (board s) = 0%nat → inBounds s excludeRow excludeCol →
  (is_Some (placeMines rnd excludeRow excludeCol s)
   ↔ mines (config s) < rows (config s) * cols (config s)).
Proof.
  intros Hwf Hnone Hclick. split.
  - intros [s' Hrun]. apply Z.lt_nge. intros Hge.
    assert (placeMines rnd excludeRow excludeCol s = None) as Hfail; [|congruence].
    clear Hrun. unfold placeMines.
    set (excl := exclusionSet (config s) excludeRow excludeCol).
    set (cands := candidatePositions (rows (config s)) (cols (config s)) excl).
    assert (Z.of_nat (length cands) < rows (config s) * cols (config s)) as Hshort.
    { unfold cands. rewrite candidatePositions_filter, length_fmap.
      rewrite <- (length_coords (rows (config s)) (cols (config s)))
        by (unfold inBounds in Hclick; lia).
      apply inj_lt.
      apply (length_filter_lt _ _ (excludeRow, excludeCol)).
      - by apply elem_of_coords.
      - intros Hout. apply Hout. apply clicked_in_exclusionSet; apply Hclick. }
    assert (markMines (shuffle rnd cands) s = None) as ->; [|done].
    unfold markMines.
    apply (forEach_None _ _ (Z.of_nat (length cands))).
    + apply elem_of_seqZ. lia.
    + intros s1. rewrite Nat2Z.id.
      rewrite (lookup_ge_None_2 (shuffle rnd cands)); [done|].
      by rewrite shuffle_Permutation.
  - intros Hlt.
    destruct (placeMines_returns rnd s excludeRow excludeCol)
      as (s' & -> & _); done.
Qed.

Lemma placeMines_returns_iff_witness :
  is_Some (placeMines demoRandom 0 0 (createInitialState (mkConfig 2 2 4)))
  ↔ 4 < 2 * 2.
Proof.
  apply (placeMines_returns_iff demoRandom (createInitialState (mkConfig 2 2 4)) 0 0).
  - apply wfState_createInitialState.
  - vm_compute. reflexivity.
  - unfold inBounds. simpl. lia.
Defined.

(** ** What a click does to the cells *)

(** The first step of [openCell] on a closed, unflagged cell that is not
    a mine is a step of the cascade. *)
Lemma floodInv_open s r c cell :
  getCell (board s) r c = Some cell →
  isOpen cell = false → isFlagged cell = false → isMine cell = false →
  floodInv s (set_openCount (openCount s + 1) (updState (set_isOpen true) r c s)).
Proof.
  intros Hcell Ho Hf Hm.
  pose proof (closedCells_open _ _ _ _ Hcell Ho) as Hcl.
  pose proof (openCells_open _ _ _ _ Hcell Ho) as Hop.
  destruct (getCell_Some_nonneg _ _ _ _ Hcell) as [Hr0 Hc0].
  split_and!; [done|apply wfState_updState| |simpl; lia..| | |].
  - intros r' c'. simpl. rewrite getCell_updCell by done.
    case_decide as Heq; [|by left]. destruct Heq as [-> ->].
    right. exists cell. rewrite Hcell. done.
  - by apply countCells_updCell_same.
  - by apply countCells_updCell_same.
  - pose proof (countCells_updCell (λ c, isMine c && isOpen c) (set_isOpen true)
                  (board s) _ _ cell Hcell) as Hx.
    simpl in Hx. rewrite Hm, Ho in Hx. simpl in Hx. unfold openMines. simpl. lia.
Qed.

(** [openCell] on a cell that is not a mine returns, and is a sequence of
    steps of the cascade; the cell is open afterwards unless it is
    flagged. *)
Lemma openCell_safe s r c cell :
  wfState s → getCell (board s) r c = Some cell → isMine cell = false →
  ∃ s' opened, openCell s r c = Some (s', opened) ∧ floodInv s s' ∧
    (isFlagged cell = false →
     ∃ cell', getCell (board s') r c = Some cell' ∧ isOpen cell' = true).
Proof.
  intros Hwf Hcell Hm. unfold openCell. rewrite Hcell. simpl.
  destruct (isOpen cell) eqn:Ho; simpl.
  { exists s, false. split; [done|]. split; [apply floodInv_refl|]. eauto. }
  destruct (isFlagged cell) eqn:Hf; simpl.
  { exists s, false. split; [done|]. split; [apply floodInv_refl|done]. }
  rewrite Hm.
  pose proof (floodInv_open s r c cell Hcell Ho Hf Hm) as Hi2.
  set (s2 := set_openCount (openCount s + 1) (updState (set_isOpen true) r c s)) in *.
  assert (getCell (board s2) r c = Some (set_isOpen true cell)) as Hcell2.
  { simpl. by apply getCell_updCell_eq. }
  case_decide as Ha.
  - destruct (floodOpen_total s2 r c) as [s3 H3]; [by apply Hi2|].
    rewrite H3. simpl. exists s3, true. split; [done|].
    apply floodOpen_spec in H3. split; [by eapply floodInv_trans|].
    intros _. destruct H3 as (_ & _ & C3 & _).
    destruct (C3 r c) as [Heq|(x & Hx & Hxo & _)].
    + rewrite Heq, Hcell2. eauto.
    + rewrite Hcell2 in Hx. by simplify_eq.
  - exists s2, true. split; [done|]. split; [done|]. eauto.
Qed.

Lemma floodInv_fields s s' :
  floodInv s s' →
  isGameOver s' = isGameOver s ∧ didWin s' = didWin s ∧
  minesPlaced s' = minesPlaced s ∧ timerId s' = timerId s.
Proof. intros (E & _). by rewrite E. Qed.

(** X4. While the game is on and the mines are placed, a click on a cell
    that is not a mine returns and cannot lose; every cell is left as it
    was or was closed, unflagged and not a mine and is now open, so that
    no flagged cell and no mine is opened; the clicked cell is open
    afterwards unless it is flagged; and [openCount] grows by the number
    of cells opened. *)
Theorem click_on_safe_cell now rnd s row col cell :
  wfState s → isGameOver s = false → minesPlaced s = true →
  getCell (board s) row col = Some cell → isMine cell = false →
  ∃ s', handleCellClick now rnd s row col = Some s' ∧
    (isGameOver s' = true → didWin s' = true) ∧
    (∀ r c, floodCell (getCell (board s) r c) (getCell (board s') r c)) ∧
    (isFlagged cell = false →
     ∃ cell', getCell (board s') row col = Some cell' ∧ isOpen cell' = true) ∧
    openCount s' - openCount s
    = Z.of_nat (openCells (board s')) - Z.of_nat (openCells (board s)).
Proof.
  intros Hwf Hover Hplaced Hcell Hm. unfold handleCellClick.
  rewrite Hover, Hcell. simpl.
  destruct (isOpen cell || isFlagged cell) eqn:Hblk.
  { exists s. split; [done|]. split; [congruence|]. split; [intros; apply floodCell_refl|].
    split; [|lia]. intros Hf. rewrite Hf, orb_false_r in Hblk. eauto. }
  rewrite Hplaced.
  destruct (openCell_safe s row col cell Hwf Hcell Hm) as (s1 & opened & Hrun & Hi & Hopen).
  cbn [mbind option_bind]. rewrite Hrun. simpl.
  destruct (floodInv_fields _ _ Hi) as (Ho1 & Hw1 & _).
  rewrite Ho1, Hover. pose proof Hi as (_ & _ & Hcells & _ & Hcount & _).
  unfold checkWin. case_decide.
  - rewrite endGame_win. simpl. eexists. split; [done|].
    rewrite stopTimer_board.
    destruct (stopTimer_fields (set_didWin true (set_isGameOver true s1)))
      as (_ & _ & E3 & _ & _ & E6).
    rewrite E3, E6. simpl. split_and!; try done. lia.
  - simpl. exists s1. split; [done|]. split; [congruence|]. split_and!; try done. lia.
Qed.

Lemma click_on_safe_cell_witness :
  ∃ s', handleCellClick 5 demoRandom demoState 0 0 = Some s' ∧
    (isGameOver s' = true → didWin s' = true) ∧
    (∀ r c, floodCell (getCell (board demoState) r c) (getCell (board s') r c)) ∧
    (isFlagged (demoCell 0) = false →
     ∃ cell', getCell (board s') 0 0 = Some cell' ∧ isOpen cell' = true) ∧
    openCount s' - openCount demoState
    = Z.of_nat (openCells (board s')) - Z.of_nat (openCells (board demoState)).
Proof.
  apply (click_on_safe_cell 5 demoRandom demoState 0 0 (demoCell 0)).
  - solve_wf.
  - reflexivity.
  - reflexivity.
  - reflexivity.
  - reflexivity.
Defined.

(** X5. While the game is on, a click on a closed, unflagged mine loses
    the game: the game is over and not won, the timer is stopped,
    [openCount] has counted the clicked cell only, and the board is the
    old one with every mine opened and every flagged cell that is not a
    mine opened and marked as a wrong flag. *)
Theorem click_on_mine_loses now rnd s row col cell :
  wfState s → isGameOver s = false → minesPlaced s = true →
  getCell (board s) row col = Some cell →
  isOpen cell = false → isFlagged cell = false → isMine cell = true →
  ∃ s', handleCellClick now rnd s row col = Some s' ∧
    s' = set_board (board s')
           (stopTimer (set_didWin false (set_isGameOver true
              (set_openCount (openCount s + 1) s)))) ∧
    ∀ r c, getCell (board s') r c = revealCell <$> getCell (board s) r c.
Proof.
  intros Hwf Hover Hplaced Hcell Ho Hf Hm. unfold handleCellClick.
  rewrite Hover, Hcell. simpl. rewrite Ho, Hf, Hplaced. simpl.
  unfold openCell. rewrite Hcell. simpl. rewrite Ho, Hf, Hm. simpl.
  unfold endGame.
  set (s2 := set_openCount (openCount s + 1) (updState (set_isOpen true) row col s)).
  destruct (revealMines_cells (stopTimer (set_didWin false (set_isGameOver true s2))))
    as (s3 & Hrun & W3 & E3 & Hcells).
  { apply wfState_stopTimer. apply (wfState_updState _ row col s Hwf). }
  rewrite Hrun. simpl.
  assert (isGameOver s3 = true) as Hover3.
  { rewrite E3. simpl.
    by destruct (stopTimer_fields (set_didWin false (set_isGameOver true s2)))
      as (_ & _ & _ & _ & -> & _). }
  rewrite Hover3. exists s3. split; [done|]. split.
  - rewrite E3. unfold stopTimer. simpl. by destruct (timerId s).
  - intros r c. rewrite Hcells, stopTimer_board. simpl.
    destruct (getCell_Some_nonneg _ _ _ _ Hcell) as [Hr0 Hc0].
    rewrite getCell_updCell by done. case_decide as Heq; [|done].
    destruct Heq as [-> ->]. rewrite Hcell. simpl. f_equal.
    unfold revealCell. simpl. rewrite Hm. by destruct cell.
Qed.

Lemma click_on_mine_loses_witness :
  ∃ s', handleCellClick 5 demoRandom demoState 2 2 = Some s' ∧
    s' = set_board (board s')
           (stopTimer (set_didWin false (set_isGameOver true
              (set_openCount (openCount demoState + 1) demoState)))) ∧
    ∀ r c, getCell (board s') r c = revealCell <$> getCell (board demoState) r c.
Proof.
  apply (click_on_mine_loses 5 demoRandom demoState 2 2 (set_isMine true (demoCell 0)));
    try reflexivity.
  solve_wf.
Defined.

(** ** The first click *)

(** The first click of a session: the mines are placed around it and the
    clicked cell is opened. *)
Lemma first_click_opens now rnd s row col :
  sessionInv s → fresh s → inBounds s row col →
  ∃ s', handleCellClick now rnd s row col = Some s' ∧
    (isGameOver s' = true → didWin s' = true) ∧
    ∀ cell, getCell (board s) row col = Some cell → isFlagged cell = false →
      minesPlaced s' = true ∧
      ∃ cell', getCell (board s') row col = Some cell' ∧
        isOpen cell' = true ∧ isMine cell' = false.
Proof.
  intros Hinv Hfresh Hb.
  destruct Hinv as (Hwf & Hcfg & _).
  destruct Hfresh as (Hover & Hwin & Hplaced & Hmc & Hoc & Hcount).
  unfold handleCellClick. rewrite Hover.
  destruct (wfState_getCell s row col Hwf Hb) as [cell Hcell]. rewrite Hcell. simpl.
  assert (isOpen cell = false) as Hclosed by (by eapply (countCells_zero isOpen)).
  rewrite Hclosed. simpl.
  destruct (isFlagged cell) eqn:Hflag.
  { exists s. split; [done|]. split; [congruence|]. intros x Hx. simplify_eq. congruence. }
  rewrite Hplaced. destruct Hcfg as (Hr & Hc & Hm).
  destruct (placeMines_spec rnd row col s) as (s1 & Hrun & W1 & E1 & M1 & _); try done.
  { by apply no_mineCells_mineAt. }
  destruct (placeMines_frame _ _ _ _ _ Hrun) as [_ Hmarks].
  rewrite Hrun. cbn [mbind option_bind].
  destruct (startTimer_fields now s1) as (F1 & F2 & F3 & F4 & F5 & F6).
  assert (config s1 = config s) as Hc1 by (by rewrite E1).
  destruct (wfState_getCell s1 row col W1) as [cell1 Hcell1].
  { unfold inBounds. by rewrite Hc1. }
  assert (isMine cell1 = false) as Hsafe.
  { apply not_true_is_false. intros Hmine. apply (M1 row col).
    - unfold mineAt. by rewrite Hcell1.
    - apply clicked_in_exclusionSet; apply Hb. }
  assert (isFlagged cell1 = false) as Hflag1.
  { specialize (Hmarks row col). rewrite Hcell, Hcell1 in Hmarks.
    destruct Hmarks as (_ & -> & _). done. }
  destruct (openCell_safe (startTimer now s1) row col cell1)
    as (s2 & opened & Hopen & Hi & Hcell2); try done.
  { unfold wfState. by rewrite F1, F2. }
  { by rewrite F2. }
  rewrite Hopen. simpl.
  destruct (floodInv_fields _ _ Hi) as (Ho2 & Hw2 & Hp2 & _).
  assert (minesPlaced s2 = true) as Hplaced2.
  { rewrite Hp2, F4, E1. done. }
  assert (isGameOver s2 = false) as Hover2.
  { rewrite Ho2, F5, E1. done. }
  rewrite Hover2.
  destruct (Hcell2 Hflag1) as (cell2 & Hc2 & Hopen2).
  assert (isMine cell2 = false) as Hsafe2.
  { destruct Hi as (_ & _ & Hcells & _).
    destruct (Hcells row col) as [Heq|(x & Hx & _ & _ & Hxm & Hnew)].
    - rewrite Heq, F2, Hcell1 in Hc2. by simplify_eq.
    - rewrite Hnew in Hc2. by simplify_eq. }
  unfold checkWin. case_decide.
  - rewrite endGame_win. simpl. eexists. split; [done|].
    destruct (stopTimer_fields (set_didWin true (set_isGameOver true s2)))
      as (_ & E2 & _ & E4 & _ & E6).
    rewrite E2, E4, E6. simpl. split; [done|]. intros x Hx _. split; [done|]. eauto.
  - simpl. exists s2. split; [done|]. split; [congruence|].
    intros x Hx _. split; [done|]. eauto.
Qed.



(** ** Winning *)

(** Unless the session is lost, no mine is open. *)
Lemma noMineOpen_unless_lost s :
  sessionInv s → (isGameOver s = true → didWin s = true) → noMineOpen (board s).
Proof.
  intros (_ & _ & Hphase) Hnl. rewrite noMineOpen_openMines.
  pose proof (openMines_le_openCells (board s)) as Hle.
  destruct Hphase as [H|[H|[H|H]]].
  - destruct H as (_ & _ & _ & _ & Hoc & _). lia.
  - by destruct H as (_ & _ & _ & _ & _ & Hom & _).
  - by destruct H as (_ & _ & _ & _ & _ & Hom).
  - destruct H as (Hover & Hwin & _). specialize (Hnl Hover). congruence.
Qed.

(** A click on a cell that is not a mine, while the game is on: the
    session is not lost, and the cell is open afterwards unless it is
    flagged. *)
Lemma handleCellClick_safe now rnd s row col :
  sessionInv s → isGameOver s = false → inBounds s row col →
  mineAt (board s) row col = false →
  ∃ s', handleCellClick now rnd s row col = Some s' ∧ sessionInv s' ∧
    (isGameOver s' = true → didWin s' = true) ∧
    ∃ cell, getCell (board s') row col = Some cell ∧ isMine cell = false ∧
      (isFlagged cell = false → isOpen cell = true).
Proof.
  intros Hinv Hover Hb Hsafe.
  destruct (handleCellClick_inv now rnd s row col Hinv Hb) as (s' & Hrun & Hinv').
  exists s'. split; [done|]. split; [done|].
  pose proof Hinv as (Hwf & Hcfg & Hphase).
  destruct (wfState_getCell s row col Hwf Hb) as [cell Hcell].
  assert (isMine cell = false) as Hm.
  { unfold mineAt in Hsafe. by rewrite Hcell in Hsafe. }
  unfold handleCellClick in Hrun. rewrite Hover, Hcell in Hrun. simpl in Hrun.
  destruct (isOpen cell || isFlagged cell) eqn:Hblk.
  { injection Hrun as <-. split; [congruence|]. exists cell. split_and!; [done..|].
    intros Hf. by rewrite Hf, orb_false_r in Hblk. }
  apply orb_false_iff in Hblk as [Hclosed Hunflagged].
  destruct Hphase as [Hfresh|[Hplay|[Hwon|Hlost]]].
  - destruct (first_click_opens now rnd s row col Hinv Hfresh Hb)
      as (s1 & Hrun1 & Hnl & Hopen).
    unfold handleCellClick in Hrun1. rewrite Hover, Hcell in Hrun1. simpl in Hrun1.
    rewrite Hclosed, Hunflagged in Hrun1. simpl in Hrun1.
    rewrite Hrun in Hrun1. injection Hrun1 as <-.
    split; [done|].
    destruct (Hopen cell Hcell Hunflagged) as (_ & cell' & Hcell' & Hopen' & Hm').
    exists cell'. auto.
  - destruct Hplay as (_ & _ & Hplaced & _). rewrite Hplaced in Hrun.
    destruct (openCell_safe s row col cell Hwf Hcell Hm)
      as (s1 & opened & Hopen & Hi & Hcell1).
    cbn [mbind option_bind] in Hrun. rewrite Hopen in Hrun. simpl in Hrun.
    destruct (floodInv_fields _ _ Hi) as (Ho1 & Hw1 & _).
    rewrite Ho1, Hover in Hrun.
    destruct (Hcell1 Hunflagged) as (cell1 & Hc1 & Hopen1).
    assert (isMine cell1 = false) as Hm1.
    { destruct Hi as (_ & _ & Hcells & _).
      destruct (Hcells row col) as [Heq|(x & Hx & _ & _ & Hxm & Hnew)].
      - rewrite Heq, Hcell in Hc1. by simplify_eq.
      - rewrite Hnew in Hc1. by simplify_eq. }
    unfold checkWin in Hrun. case_decide.
    + rewrite endGame_win in Hrun. simpl in Hrun. injection Hrun as <-.
      destruct (stopTimer_fields (set_didWin true (set_isGameOver true s1)))
        as (_ & E2 & _ & _ & _ & E6).
      rewrite E2, E6. simpl. split; [done|]. exists cell1. auto.
    + simpl in Hrun. injection Hrun as <-. split; [congruence|]. exists cell1. auto.
  - destruct Hwon as (? & _). congruence.
  - destruct Hlost as (? & _). congruence.
Qed.

(** C2. [checkWin] returns [true] and ends the game as won exactly when
    [openCount >= rows*cols - mines], and otherwise returns [false] and
    changes nothing.  A fresh session of a valid configuration satisfies
    the session invariant, and every user-interface event returns and
    keeps it.  While the game is on, a click on a cell that is not a mine
    returns and leaves that cell open unless it is flagged, and the
    session is WON after it exactly when every cell that is not a mine is
    open then, whatever is flagged and in whatever order the cells were
    opened.  In every state of a session, WON implies that every cell
    that is not a mine is open.  In a run without a new game the status
    WON is entered once if the run ends won and never otherwise. *)
Theorem win_exactly_when_all_safe_cells_open :
  (∀ s, checkWin s
        = Some (if decide (openCount s >= safeCells s)
                then (stopTimer (set_didWin true (set_isGameOver true s)), true)
                else (s, false))) ∧
  (∀ cfg, validConfig cfg → sessionInv (createInitialState cfg)) ∧
  (∀ s e, sessionInv s → uiEvent s e → ∃ s', step s e = Some s' ∧ sessionInv s') ∧
  (∀ now rnd s row col,
     sessionInv s → isGameOver s = false → inBounds s row col →
     mineAt (board s) row col = false →
     ∃ s', handleCellClick now rnd s row col = Some s' ∧
       (∃ cell, getCell (board s') row col = Some cell ∧ isMine cell = false ∧
          (isFlagged cell = false → isOpen cell = true)) ∧
       (isWon s' = true ↔ allSafeOpen (board s'))) ∧
  (∀ s, sessionInv s → isWon s = true → allSafeOpen (board s)) ∧
  (∀ s events s', isWon s = false → Forall (λ e, isNewGame e = false) events →
     run s events = Some s' →
     winTransitions s events = (if isWon s' then 1 else 0)%nat).
Proof.
  split_and!.
  - intros s. unfold checkWin, safeCells. by case_decide.
  - apply sessionInv_createInitialState.
  - apply step_inv.
  - intros now rnd s row col Hinv Hover Hb Hsafe.
    destruct (handleCellClick_safe now rnd s row col Hinv Hover Hb Hsafe)
      as (s' & Hrun & Hinv' & Hnl & Hcell).
    exists s'. split; [done|]. split; [done|].
    unfold isWon. rewrite andb_true_iff, (sessionInv_won_iff s' Hinv').
    split; [by intros [? _]|]. intros Hall. split; [done|].
    by apply noMineOpen_unless_lost.
  - intros s Hinv. unfold isWon. rewrite andb_true_iff, (sessionInv_won_iff s Hinv).
    by intros [? _].
  - apply winTransitions_once.
Qed.

Lemma win_exactly_when_all_safe_cells_open_witness :
  run (createInitialState (mkConfig 3 3 2)) winEvents = Some wonState ∧
  handleCellClick 2 demoRandom lastMoveState 2 2 = Some wonState ∧
  isWon lastMoveState = false ∧ isWon wonState = true ∧
  allSafeOpen (board wonState) ∧
  winTransitions (createInitialState (mkConfig 3 3 2)) winEvents = 1%nat.
Proof.
  pose proof win_exactly_when_all_safe_cells_open as (_ & _ & _ & Hclick & _ & Honce).
  assert (handleCellClick 2 demoRandom lastMoveState 2 2 = Some wonState) as Hlast
    by (vm_compute; reflexivity).
  split_and!; [vm_compute; reflexivity|exact Hlast|reflexivity|reflexivity| |].
  - destruct (Hclick 2 demoRandom lastMoveState 2 2) as (s' & Hrun & _ & Hiff).
    + split; [solve_wf|]. split; [unfold validConfig; simpl; lia|].
      right. left. unfold inPlay. vm_compute. by repeat split.
    + reflexivity.
    + unfold inBounds. simpl. lia.
    + reflexivity.
    + rewrite Hlast in Hrun. injection Hrun as <-. by apply Hiff.
  - apply (Honce _ _ wonState).
    + reflexivity.
    + repeat constructor.
    + vm_compute. reflexivity.
Defined.

(** ** toggleFlag twice *)

Lemma list_alter_fixed {A} (f : A → A) (l : list A) i :
  (∀ x, l !! i = Some x → f x = x) → alter f i l = l.
Proof.
  intros Hfix. apply list_eq. intros j. destruct (decide (j = i)) as [->|Hne].
  - rewrite list_lookup_alter_eq. destruct (l !! i) eqn:Hl; [|done].
    simpl. f_equal. by apply Hfix.
  - by rewrite list_lookup_alter_ne.
Qed.

Lemma updCell_fixed f r c b :
  (∀ x, getCell b r c = Some x → f x = x) → 0 ≤ r → 0 ≤ c → updCell f r c b = b.
Proof.
  intros Hfix Hr Hc. unfold updCell. apply list_alter_fixed. intros line Hline.
  apply list_alter_fixed. intros x Hx. apply Hfix.
  unfold getCell. rewrite decide_True by done. rewrite Hline. done.
Qed.

Lemma updCell_updCell f g r c b :
  updCell f r c (updCell g r c b) = updCell (f ∘ g) r c b.
Proof.
  unfold updCell. rewrite list_alter_alter_eq. apply list_alter_ext; [|done].
  intros line _. simpl. by rewrite list_alter_alter_eq.
Qed.

(** X7. On a board of the configured dimensions, toggling the flag of a
    cell of the board twice returns both times and gives back the state
    the first toggle started from. *)
Theorem toggleFlag_twice s row col :
  wfState s → inBounds s row col →
  ∃ s1, toggleFlag s row col = Some s1 ∧ toggleFlag s1 row col = Some s.
Proof.
  intros Hwf Hb. unfold toggleFlag.
  destruct (isGameOver s) eqn:Hover.
  { exists s. by rewrite Hover. }
  destruct (wfState_getCell s row col Hwf Hb) as [cell Hcell]. rewrite Hcell. simpl.
  destruct (isOpen cell) eqn:Hopen.
  { exists s. by rewrite Hover, Hcell; simpl; rewrite Hopen. }
  eexists. split; [done|]. simpl. rewrite Hover.
  rewrite (getCell_updCell_eq _ _ _ _ _ Hcell). simpl. rewrite Hopen.
  f_equal. unfold updState, set_flags, set_board. simpl.
  rewrite updCell_updCell.
  destruct (getCell_Some_nonneg _ _ _ _ Hcell) as [Hr0 Hc0].
  rewrite updCell_fixed; [| |done..].
  2:{ intros x Hx. rewrite Hcell in Hx. injection Hx as <-.
      destruct cell as [m o f a w]. simpl. unfold set_isFlagged. simpl.
      by rewrite negb_involutive. }
  destruct s. simpl in *. f_equal. destruct (isFlagged cell); simpl; lia.
Qed.

Lemma toggleFlag_twice_witness :
  ∃ s1, toggleFlag demoState 1 1 = Some s1 ∧ toggleFlag s1 1 1 = Some demoState.
Proof.
  apply (toggleFlag_twice demoState 1 1).
  - solve_wf.
  - unfold inBounds. simpl. lia.
Defined.

(** ** The cell that a hint shows *)

(** The two pools of [findHintCell]: the hintable cells that show no
    number, and the other hintable cells. *)
Lemma hintPools_split s pools :
  hintPools s = Some pools →
  ∀ p,
    (p ∈ pools.1 ↔
       p ∈ coords (rows (config s)) (cols (config s)) ∧
       ∃ cell, getCell (board s) p.1 p.2 = Some cell ∧ hintable cell ∧
         adjacent cell = 0) ∧
    (p ∈ pools.2 ↔
       p ∈ coords (rows (config s)) (cols (config s)) ∧
       ∃ cell, getCell (board s) p.1 p.2 = Some cell ∧ hintable cell ∧
         adjacent cell ≠ 0).
Proof.
  unfold hintPools. rewrite forEach_nested.
  fold (coords (rows (config s)) (cols (config s))).
  apply (forEach_prefix (λ done pools, ∀ p,
    (p ∈ pools.1 ↔ p ∈ done ∧
       ∃ cell, getCell (board s) p.1 p.2 = Some cell ∧ hintable cell ∧
         adjacent cell = 0) ∧
    (p ∈ pools.2 ↔ p ∈ done ∧
       ∃ cell, getCell (board s) p.1 p.2 = Some cell ∧ hintable cell ∧
         adjacent cell ≠ 0))).
  - intros p. simpl. split; (split; [by intros ?%not_elem_of_nil|]);
      by intros [?%not_elem_of_nil _].
  - intros done [r c] rest [zs cs] pools' _ IH H. simpl in *.
    destruct (getCell (board s) r c) as [cell|] eqn:Hcell; [|done]. simpl in H.
    assert (∀ (Q : Cell → Prop) (p : Z * Z),
              (p ∈ done ++ [(r, c)] ∧
               ∃ x, getCell (board s) p.1 p.2 = Some x ∧ hintable x ∧ Q x)
              ↔ (p ∈ done ∧
                 ∃ x, getCell (board s) p.1 p.2 = Some x ∧ hintable x ∧ Q x)
                ∨ (p = (r, c) ∧ hintable cell ∧ Q cell)) as Hsnoc.
    { intros Q p. rewrite elem_of_snoc. split.
      - intros [[Hd| ->] (x & Hx & Hh & Hq)]; [left; eauto|].
        right. simpl in Hx. rewrite Hcell in Hx. by simplify_eq.
      - intros [[Hd Hx]|(-> & Hh & Hq)]; [by auto|].
        split; [by right|]. by exists cell. }
    intros p. destruct (IH p) as [IH1 IH2].
    rewrite (Hsnoc (λ x, adjacent x = 0)), (Hsnoc (λ x, adjacent x ≠ 0)).
    rewrite <- IH1, <- IH2. clear Hsnoc IH IH1 IH2.
    destruct (isOpen cell || isFlagged cell || isMine cell) eqn:Hblk.
    + simplify_eq. simpl.
      assert (¬ hintable cell) as Hnot.
      { intros (Ho & Hf & Hm). by rewrite Ho, Hf, Hm in Hblk. }
      split; (split; [by left|]); by intros [?|(_ & ? & _)].
    + assert (hintable cell) as Hh.
      { unfold hintable. by destruct (isOpen cell), (isFlagged cell), (isMine cell). }
      case_decide as Ha; simplify_eq; simpl.
      * rewrite elem_of_snoc. split.
        -- split; [intros [?|?]; auto|]. intros [?|(? & _)]; auto.
        -- split; [by left|]. by intros [?|(_ & _ & ?)].
      * rewrite elem_of_snoc. split.
        -- split; [by left|]. by intros [?|(_ & _ & ?)].
        -- split; [intros [?|?]; auto|]. intros [?|(? & _)]; auto.
Qed.

(** X8. On a board of the configured dimensions [findHintCell] returns.
    It returns no cell exactly when no cell of the board is closed,
    unflagged and not a mine.  A cell it returns is on the board, closed,
    unflagged and not a mine, and it shows no number whenever some cell
    of the board that is closed, unflagged and not a mine shows none. *)
Theorem findHintCell_safe rnd s :
  wfState s →
  ∃ hint, findHintCell rnd s = Some hint ∧
    match hint with
    | None => ¬ hintAvailable s
    | Some p =>
        ∃ cell, getCell (board s) p.1 p.2 = Some cell ∧ hintable cell ∧
          ((∃ r c blank, getCell (board s) r c = Some blank ∧ hintable blank ∧
              adjacent blank = 0) →
           adjacent cell = 0)
    end.
Proof.
  intros Hwf. unfold findHintCell.
  destruct (hintPools_total s Hwf) as [[zs cs] Hp]. rewrite Hp. simpl.
  pose proof (hintPools_split s _ Hp) as Hpools. simpl in Hpools.
  destruct (decide (0 < length zs)%nat) as [Hz|Hz].
  - rewrite decide_False by lia.
    destruct (lookup_lt_is_Some_2 zs (randomBelow rnd 0 (length zs))) as [p Hl].
    { apply randomBelow_lt. lia. }
    rewrite Hl. eexists. split; [done|]. simpl.
    apply list_elem_of_lookup_2 in Hl. apply Hpools in Hl as (_ & cell & Hc & Hh & Ha).
    exists cell. done.
  - assert (zs = []) as -> by (destruct zs; [done|simpl in Hz; lia]).
    destruct (decide (length cs = 0%nat)) as [Hc0|Hc0].
    + apply length_zero_iff_nil in Hc0 as ->. eexists. split; [done|]. simpl.
      intros (r & c & cell & Hc & Ho & Hf & Hm).
      assert ((r, c) ∈ coords (rows (config s)) (cols (config s))) as Hin.
      { apply elem_of_coords. by eapply wfState_getCell_inv. }
      destruct (Hpools (r, c)) as [H1 H2].
      destruct (decide (adjacent cell = 0)).
      * eapply not_elem_of_nil, H1. split; [done|]. exists cell. done.
      * eapply not_elem_of_nil, H2. split; [done|]. exists cell. done.
    + destruct (lookup_lt_is_Some_2 cs (randomBelow rnd 0 (length cs))) as [p Hl].
      { apply randomBelow_lt. lia. }
      rewrite Hl. eexists. split; [done|]. simpl.
      apply list_elem_of_lookup_2 in Hl. apply Hpools in Hl as (_ & cell & Hc & Hh & Ha).
      exists cell. split; [done|]. split; [done|].
      intros (r & c & blank & Hb & Hhb & Hab). exfalso.
      eapply not_elem_of_nil, (Hpools (r, c)). split.
      * apply elem_of_coords. by eapply wfState_getCell_inv.
      * exists blank. done.
Qed.

Lemma findHintCell_safe_witness :
  ∃ hint, findHintCell demoRandom demoState = Some hint ∧
    match hint with
    | None => ¬ hintAvailable demoState
    | Some p =>
        ∃ cell, getCell (board demoState) p.1 p.2 = Some cell ∧ hintable cell ∧
          ((∃ r c blank, getCell (board demoState) r c = Some blank ∧
              hintable blank ∧ adjacent blank = 0) →
           adjacent cell = 0)
    end.
Proof. apply (findHintCell_safe demoRandom demoState). solve_wf. Defined.

(** ** The timer runs exactly while the game is in play *)

Lemma timerId_stopTimer s : timerId (stopTimer s) = false.
Proof. unfold stopTimer. by destruct (timerId s) eqn:H. Qed.

Lemma stopTimer_clock s :
  elapsed (stopTimer s) = elapsed s ∧ startTime (stopTimer s) = startTime s.
Proof. unfold stopTimer. by destruct (timerId s). Qed.

(** What [endGame] does to the fields that the timer invariant reads. *)
Lemma endGame_clock won s s' :
  endGame won s = Some s' →
  minesPlaced s' = minesPlaced s ∧ elapsed s' = elapsed s ∧
  startTime s' = startTime s ∧ isGameOver s' = true ∧ timerId s' = false.
Proof.
  unfold endGame. intros H.
  set (s1 := set_didWin won (set_isGameOver true s)) in *.
  destruct (stopTimer_fields s1) as (_ & _ & _ & E4 & E5 & _).
  destruct (stopTimer_clock s1) as [E7 E8].
  pose proof (timerId_stopTimer s1) as E9.
  destruct won.
  - simplify_eq. by rewrite E4, E5, E7, E8, E9.
  - apply revealMines_keeps in H as (E & _). rewrite E. simpl.
    by rewrite E4, E5, E7, E8, E9.
Qed.

Lemma openCell_clock s r c s' b :
  openCell s r c = Some (s', b) →
  minesPlaced s' = minesPlaced s ∧ elapsed s' = elapsed s ∧
  startTime s' = startTime s ∧
  ((isGameOver s' = isGameOver s ∧ timerId s' = timerId s) ∨
   (isGameOver s' = true ∧ timerId s' = false)).
Proof.
  unfold openCell. intros H.
  destruct (getCell (board s) r c) as [cell|]; [|done]. simpl in H.
  destruct (isOpen cell || isFlagged cell); [simplify_eq; split_and!; auto|].
  destruct (isMine cell).
  - destruct (endGame false _) as [s1|] eqn:He; simplify_eq/=.
    apply endGame_clock in He as (? & ? & ? & ? & ?). split_and!; auto.
  - case_decide.
    + destruct (floodOpen _ r c) as [s1|] eqn:Hf; simplify_eq/=.
      apply floodOpen_spec in Hf as (E & _). rewrite E. simpl. split_and!; auto.
    + simplify_eq. simpl. split_and!; auto.
Qed.

Lemma checkWin_clock s s' w :
  checkWin s = Some (s', w) →
  minesPlaced s' = minesPlaced s ∧ elapsed s' = elapsed s ∧
  startTime s' = startTime s ∧
  ((isGameOver s' = isGameOver s ∧ timerId s' = timerId s) ∨
   (isGameOver s' = true ∧ timerId s' = false)).
Proof.
  unfold checkWin. intros H. case_decide.
  - destruct (endGame true s) as [s1|] eqn:He; simplify_eq/=.
    apply endGame_clock in He as (? & ? & ? & ? & ?). split_and!; auto.
  - simplify_eq. split_and!; auto.
Qed.

Lemma clamp_range value lo hi : lo ≤ hi → lo ≤ clamp value lo hi ≤ hi.
Proof. unfold clamp. lia. Qed.

Lemma timerInv_handleCellClick now rnd s r c s' :
  timerInv s → handleCellClick now rnd s r c = Some s' → timerInv s'.
Proof.
  intros Hinv. unfold handleCellClick.
  destruct (isGameOver s) eqn:Hover; [by intros; simplify_eq|].
  destruct (getCell (board s) r c) as [cell|]; [|done]. simpl.
  destruct (isOpen cell || isFlagged cell); [by intros; simplify_eq|].
  intros H.
  assert (∃ s1, openCell s1 r c ≫= (λ x, if isGameOver x.1 then Some x.1
                   else checkWin x.1 ≫= λ w, Some w.1) = Some s' ∧
            timerInv s1 ∧ minesPlaced s1 = true ∧ isGameOver s1 = false)
    as (s1 & Hrest & (He1 & Ht1 & Hs1) & Hp1 & Ho1).
  { destruct (minesPlaced s) eqn:Hplaced.
    - exists s. split; [exact H|]. done.
    - destruct (placeMines rnd r c s) as [s0|] eqn:Hpm; [|done].
      apply placeMines_frame in Hpm as [E _].
      exists (startTimer now s0). split; [exact H|].
      destruct Hinv as (He & Ht & Hs). rewrite Hplaced in Ht. simpl in Ht.
      unfold startTimer. rewrite E. simpl. rewrite Ht.
      unfold timerInv, updateTimer. simpl. rewrite Z.sub_diag. simpl.
      rewrite Hover. split_and!; try done; eauto. }
  clear H. destruct (openCell s1 r c) as [[s2 b]|] eqn:Hopen; [|done].
  apply openCell_clock in Hopen as (Hp2 & He2 & Hs2 & Hcase).
  simpl in Hrest.
  assert (0 ≤ elapsed s2 ≤ 999) as Hel2 by (by rewrite He2).
  destruct (isGameOver s2) eqn:Hover2.
  - simplify_eq. destruct Hcase as [[? _]|[_ Ht2]]; [congruence|].
    split; [done|]. rewrite Ht2, Hover2, andb_false_r. done.
  - destruct Hcase as [[_ Ht2]|[? _]]; [|congruence].
    destruct (checkWin s2) as [[s3 w]|] eqn:Hwin; simplify_eq/=.
    apply checkWin_clock in Hwin as (Hp3 & He3 & Hs3 & Hcase3).
    split; [by rewrite He3|].
    destruct Hcase3 as [[Ho3 Ht3]|[Ho3 Ht3]].
    + rewrite Ht3, Ho3, Hp3, Hover2, Hp2, Hp1, Ht2, Ht1, Hp1, Ho1. split; [done|].
      intros _. rewrite Hs3, Hs2. apply Hs1. by rewrite Ht1, Hp1, Ho1.
    + rewrite Ht3, Ho3, andb_false_r. done.
Qed.

Lemma timerInv_step s e s' : timerInv s → step s e = Some s' → timerInv s'.
Proof.
  intros Hinv. destruct e as [now rnd r c|r c|now rnd|now cfg|now|now]; simpl; intros H.
  - by eapply timerInv_handleCellClick.
  - apply toggleFlag_spec in H as [->|(cell & _ & _ & _ & -> & _)]; done.
  - apply handleHint_spec in H. destruct (isGameOver s); [by subst|].
    destruct (minesPlaced s).
    + by destruct H as ([p|] & _ & ->).
    + destruct H as (r & c & s1 & Hc & ->).
      by apply (timerInv_handleCellClick _ _ _ _ _ _ Hinv) in Hc.
  - simplify_eq. unfold startNewGame, resetTimerOnly. simpl. split_and!; done.
  - simplify_eq. destruct Hinv as (He & Ht & Hs). unfold resetTimerOnly. simpl.
    destruct (timerId s) eqn:Htimer; unfold timerInv; simpl; rewrite Htimer;
      split_and!; try done; eauto.
  - simplify_eq. destruct (timerId s) eqn:Htimer; [|done].
    pose proof Hinv as (He & Ht & Hs). unfold updateTimer.
    destruct (startTime s) as [t0|] eqn:Hst; [|done]. unfold timerInv. simpl.
    split; [apply clamp_range; lia|]. rewrite Htimer, Hst. split; [by rewrite <- Ht|]. eauto.
Qed.

(** X9. In every state that a session reaches, the clock reading is
    between 0 and 999, the interval timer runs exactly when the mines are
    placed and the game is not over, and a running timer has a start
    time; so once the game is over a tick of the timer changes nothing:
    the clock keeps the reading it had when the game ended. *)
Theorem timer_runs_while_in_play s :
  reachable s →
  timerInv s ∧ (isGameOver s = true → ∀ now, step s (Tick now) = Some s).
Proof.
  intros Hreach.
  assert (timerInv s) as Hinv.
  { induction Hreach as [cfg|s e s' _ IH Hstep].
    - unfold timerInv. simpl. split_and!; done.
    - by eapply timerInv_step. }
  split; [done|]. intros Hover now. simpl.
  destruct Hinv as (_ & Ht & _). rewrite Ht, Hover, andb_false_r. done.
Qed.

Lemma timer_runs_while_in_play_witness :
  timerInv wonState ∧ step wonState (Tick 99) = Some wonState.
Proof.
  destruct (timer_runs_while_in_play wonState) as [Hinv Hfrozen].
  - apply (run_reachable (createInitialState (mkConfig 3 3 2)) winEvents).
    + apply reachable_init.
    + vm_compute. reflexivity.
  - split; [exact Hinv|]. apply Hfrozen. reflexivity.
Defined.

(** ** Mines never move and numbers stay right *)

Lemma sameFaces_refl b : sameFaces b b.
Proof. intros r c. by destruct (getCell b r c). Qed.

Lemma sameFaces_trans b1 b2 b3 : sameFaces b1 b2 → sameFaces b2 b3 → sameFaces b1 b3.
Proof.
  intros H1 H2 r c. specialize (H1 r c). specialize (H2 r c).
  destruct (getCell b1 r c), (getCell b2 r c), (getCell b3 r c); try done.
  destruct H1, H2. split; congruence.
Qed.

Lemma sameFaces_updCell f r c b :
  (∀ x, isMine (f x) = isMine x) → (∀ x, adjacent (f x) = adjacent x) →
  0 ≤ r → 0 ≤ c → sameFaces b (updCell f r c b).
Proof.
  intros Hm Ha Hr Hc r' c'. rewrite getCell_updCell by done.
  case_decide as Heq.
  - destruct Heq as [-> ->]. destruct (getCell b r c); simpl; auto.
  - by destruct (getCell b r' c').
Qed.

Lemma floodInv_sameFaces s s' : floodInv s s' → sameFaces (board s) (board s').
Proof.
  intros (_ & _ & Hcells & _) r c.
  destruct (Hcells r c) as [->|(x & -> & _ & _ & _ & ->)]; [|done].
  by destruct (getCell (board s) r c).
Qed.

Lemma revealMines_sameFaces s s' :
  wfState s → revealMines s = Some s' →
  wfState s' ∧ sameFaces (board s) (board s').
Proof.
  intros Hwf Hrun. destruct (revealMines_cells s Hwf) as (s1 & H1 & W1 & _ & Hcells).
  rewrite Hrun in H1. simplify_eq. split; [done|].
  intros r c. rewrite Hcells. destruct (getCell (board s) r c) as [x|]; [|done].
  simpl. unfold revealCell.
  destruct (isMine x) eqn:Hm, (isFlagged x) eqn:Hf; simpl; auto.
Qed.

Lemma endGame_sameFaces won s s' :
  wfState s → endGame won s = Some s' →
  wfState s' ∧ sameFaces (board s) (board s').
Proof.
  intros Hwf. unfold endGame.
  set (s1 := stopTimer (set_didWin won (set_isGameOver true s))).
  assert (wfState s1) as W1 by (by apply wfState_stopTimer).
  assert (board s1 = board s) as Hb by (unfold s1; by rewrite stopTimer_board).
  destruct won; intros H.
  - simplify_eq. split; [done|]. rewrite Hb. apply sameFaces_refl.
  - rewrite <- Hb. by apply revealMines_sameFaces.
Qed.

Lemma openCell_sameFaces s r c s' b :
  wfState s → openCell s r c = Some (s', b) →
  wfState s' ∧ sameFaces (board s) (board s').
Proof.
  intros Hwf. unfold openCell. intros H.
  destruct (getCell (board s) r c) as [cell|] eqn:Hcell; [|done]. simpl in H.
  destruct (isOpen cell || isFlagged cell).
  { simplify_eq. split; [done|apply sameFaces_refl]. }
  destruct (getCell_Some_nonneg _ _ _ _ Hcell) as [Hr0 Hc0].
  set (s2 := set_openCount (openCount s + 1) (updState (set_isOpen true) r c s)) in *.
  assert (wfState s2) as W2 by apply (wfState_updState _ r c s Hwf).
  assert (sameFaces (board s) (board s2)) as F2 by (by apply sameFaces_updCell).
  destruct (isMine cell).
  - destruct (endGame false s2) as [s3|] eqn:He; simplify_eq/=.
    apply endGame_sameFaces in He as [W3 F3]; [|done].
    split; [done|]. by eapply sameFaces_trans.
  - case_decide.
    + destruct (floodOpen s2 r c) as [s3|] eqn:Hf; simplify_eq/=.
      apply floodOpen_spec in Hf. split; [by apply Hf|].
      eapply sameFaces_trans; [done|]. by apply (floodInv_sameFaces s2).
    + by simplify_eq.
Qed.

Lemma checkWin_sameFaces s s' w :
  wfState s → checkWin s = Some (s', w) →
  wfState s' ∧ sameFaces (board s) (board s').
Proof.
  intros Hwf. unfold checkWin. intros H. case_decide.
  - destruct (endGame true s) as [s1|] eqn:He; simplify_eq/=.
    by apply endGame_sameFaces in He.
  - simplify_eq. split; [done|apply sameFaces_refl].
Qed.

(** The part of [handleCellClick] that follows the placement. *)
Lemma reveal_sameFaces s r c s' :
  wfState s →
  (x ← openCell s r c;
   if isGameOver x.1 then Some x.1 else w ← checkWin x.1; Some w.1) = Some s' →
  wfState s' ∧ sameFaces (board s) (board s').
Proof.
  intros Hwf H. destruct (openCell s r c) as [[s1 b]|] eqn:Ho; [|done]. simpl in H.
  apply openCell_sameFaces in Ho as [W1 F1]; [|done].
  destruct (isGameOver s1); [by simplify_eq|].
  destruct (checkWin s1) as [[s2 w]|] eqn:Hw; simplify_eq/=.
  apply checkWin_sameFaces in Hw as [W2 F2]; [|done].
  split; [done|]. by eapply sameFaces_trans.
Qed.

Lemma handleCellClick_sameFaces now rnd s r c s' :
  wfState s → minesPlaced s = true → handleCellClick now rnd s r c = Some s' →
  sameFaces (board s) (board s').
Proof.
  intros Hwf Hplaced. unfold handleCellClick. intros H.
  destruct (isGameOver s); [simplify_eq; apply sameFaces_refl|].
  destruct (getCell (board s) r c) as [cell|]; [|done]. simpl in H.
  destruct (isOpen cell || isFlagged cell); [simplify_eq; apply sameFaces_refl|].
  rewrite Hplaced in H. by apply reveal_sameFaces in H as [_ ?].
Qed.

(** X10. Once the mines are placed, no event but a new game moves a mine
    or changes a number: every cell keeps [isMine] and [adjacent], and no
    cell appears or disappears. *)
Theorem mines_never_move s e s' :
  wfState s → minesPlaced s = true → isNewGame e = false →
  step s e = Some s' → sameFaces (board s) (board s').
Proof.
  intros Hwf Hplaced Hnew.
  destruct e as [now rnd r c|r c|now rnd|now cfg|now|now]; simpl; intros H.
  - by eapply handleCellClick_sameFaces.
  - apply toggleFlag_spec in H as [->|(cell & Hcell & _ & _ & -> & _)];
      [apply sameFaces_refl|].
    destruct (getCell_Some_nonneg _ _ _ _ Hcell). simpl. by apply sameFaces_updCell.
  - apply handleHint_spec in H. destruct (isGameOver s); [subst; apply sameFaces_refl|].
    rewrite Hplaced in H. destruct H as ([p|] & _ & ->); apply sameFaces_refl.
  - done.
  - simplify_eq. unfold resetTimerOnly. simpl. destruct (timerId s); apply sameFaces_refl.
  - simplify_eq. destruct (timerId s); [|apply sameFaces_refl].
    unfold updateTimer. destruct (startTime s); apply sameFaces_refl.
Qed.

Lemma mines_never_move_witness :
  ∃ s', step demoState (Click 5 demoRandom 2 2) = Some s' ∧
    sameFaces (board demoState) (board s').
Proof.
  eexists. split; [vm_compute; reflexivity|].
  apply (mines_never_move demoState (Click 5 demoRandom 2 2)).
  - solve_wf.
  - reflexivity.
  - reflexivity.
  - vm_compute. reflexivity.
Defined.

Lemma minedNeighbours_offsets s r c :
  wfState s →
  minedNeighbours (board s) r c
  = Z.of_nat (length (filter
      (λ d, d ≠ (0, 0) ∧ mineAt (board s) (r + d.1) (c + d.2) = true) offsets)).
Proof.
  intros Hwf. pose proof (countAdjacentMines_count s r c Hwf) as H1.
  rewrite (countAdjacentMines_reference s r c Hwf) in H1. by simplify_eq.
Qed.

Lemma sameFaces_mineAt b b' r c : sameFaces b b' → mineAt b' r c = mineAt b r c.
Proof.
  intros H. specialize (H r c). unfold mineAt.
  destruct (getCell b r c), (getCell b' r c); try done. by destruct H.
Qed.

Lemma numbersRight_sameFaces s s' :
  wfState s → wfState s' → sameFaces (board s) (board s') →
  numbersRight (board s) → numbersRight (board s').
Proof.
  intros W W' F Hn r c cell' Hcell' Hm.
  pose proof (F r c) as Hrc. rewrite Hcell' in Hrc.
  destruct (getCell (board s) r c) as [cell|] eqn:Hcell; [|done].
  destruct Hrc as [Em Ea]. rewrite Ea, (Hn r c cell Hcell) by congruence.
  rewrite !minedNeighbours_offsets by done. do 2 f_equal.
  apply list_filter_iff. intros d. by rewrite (sameFaces_mineAt _ _ _ _ F).
Qed.

Lemma placeMines_numbers rnd r c s s' :
  wfState s → placeMines rnd r c s = Some s' →
  wfState s' ∧ numbersRight (board s').
Proof.
  intros Hwf Hrun. unfold placeMines in Hrun.
  destruct (markMines _ s) as [s1|] eqn:H1; [|done]. simpl in Hrun.
  destruct (fillAdjacent s1) as [s2|] eqn:H2; simplify_eq/=.
  apply keeps_markMines in H1 as (_ & _ & _ & _ & W1).
  apply fillAdjacent_spec in H2 as (W2 & _ & M & Hadj); [|auto].
  split; [done|]. intros r' c' cell Hcell Hm.
  rewrite (minedNeighbours_sameMines _ _ _ _ M). by eapply Hadj.
Qed.

Lemma handleCellClick_numbers now rnd s r c s' :
  wfState s → (minesPlaced s = true → numbersRight (board s)) →
  handleCellClick now rnd s r c = Some s' →
  minesPlaced s' = true → numbersRight (board s').
Proof.
  intros Hwf Hn. unfold handleCellClick. intros H.
  destruct (isGameOver s); [by simplify_eq|].
  destruct (getCell (board s) r c) as [cell|]; [|done]. simpl in H.
  destruct (isOpen cell || isFlagged cell); [by simplify_eq|].
  assert (∃ s1, wfState s1 ∧ numbersRight (board s1) ∧
     (x ← openCell s1 r c;
      if isGameOver x.1 then Some x.1 else w ← checkWin x.1; Some w.1) = Some s')
    as (s1 & W1 & N1 & Hrest).
  { destruct (minesPlaced s) eqn:Hplaced; [exists s; auto|].
    destruct (placeMines rnd r c s) as [s0|] eqn:Hp; [|done]. simpl in H.
    apply placeMines_numbers in Hp as [W0 N0]; [|done].
    destruct (startTimer_fields now s0) as (F1 & F2 & _).
    exists (startTimer now s0). split_and!; [|by rewrite F2|done].
    unfold wfState. by rewrite F1, F2. }
  apply reveal_sameFaces in Hrest as [W' F']; [|done].
  intros _. by apply (numbersRight_sameFaces s1 s').
Qed.

(** X11. In every state that a session reaches with the mines placed,
    every cell that is not a mine carries the number of its mined
    neighbours. *)
Theorem numbers_stay_right s :
  reachable s → minesPlaced s = true → numbersRight (board s).
Proof.
  induction 1 as [cfg|s e s' Hreach IH Hstep]; [done|].
  pose proof (reachable_wfState s Hreach) as Hwf.
  pose proof (wfState_step s e s' Hstep Hwf) as Hwf'.
  destruct e as [now rnd r c|r c|now rnd|now cfg|now|now]; simpl in Hstep.
  - exact (handleCellClick_numbers now rnd s r c s' Hwf IH Hstep).
  - intros Hplaced.
    apply toggleFlag_spec in Hstep as [->|(cell & Hcell & _ & _ & -> & _)]; [auto|].
    destruct (getCell_Some_nonneg _ _ _ _ Hcell).
    eapply (numbersRight_sameFaces s); [done..| |by apply IH].
    simpl. by apply sameFaces_updCell.
  - apply handleHint_spec in Hstep. destruct (isGameOver s); [by subst|].
    destruct (minesPlaced s) eqn:Hplaced.
    + destruct Hstep as ([p|] & _ & ->); simpl; auto.
    + destruct Hstep as (r & c & s1 & Hc & ->). simpl.
      apply (handleCellClick_numbers now (afterDraws 2 rnd) s r c s1 Hwf); [|done].
      by rewrite Hplaced.
  - by simplify_eq.
  - simplify_eq. unfold resetTimerOnly. simpl. by destruct (timerId s).
  - simplify_eq. destruct (timerId s); [|done].
    unfold updateTimer. by destruct (startTime s).
Qed.

Lemma numbers_stay_right_witness : numbersRight (board wonState).
Proof.
  apply (numbers_stay_right wonState).
  - apply (run_reachable (createInitialState (mkConfig 3 3 2)) winEvents).
    + apply reachable_init.
    + vm_compute. reflexivity.
  - reflexivity.
Defined.

(** ** Bounds: what is guarded and what is not *)

Lemma getCell_off_board s r c :
  wfState s → ¬ inBounds s r c → getCell (board s) r c = None.
Proof.
  intros Hwf Hout. destruct (getCell (board s) r c) as [cell|] eqn:Hcell; [|done].
  exfalso. apply Hout. by eapply wfState_getCell_inv.
Qed.

(** X12. On a board of the configured dimensions [countAdjacentMines]
    returns for every pair of coordinates, on the board or off it; the
    result is the number of mined neighbours of the cell and lies between
    0 and 8. *)
Theorem countAdjacentMines_in_range s row col :
  wfState s →
  ∃ n, countAdjacentMines s row col = Some n ∧
    n = minedNeighbours (board s) row col ∧ 0 ≤ n ≤ 8.
Proof.
  intros Hwf. eexists. split; [by apply countAdjacentMines_count|].
  split; [by rewrite minedNeighbours_offsets|]. split; [lia|].
  assert ((0, 0) ∈ offsets) as Hin by (apply elem_of_offsets; lia).
  pose proof (length_filter_lt
    (λ d : Z * Z, d ≠ (0, 0) ∧ mineAt (board s) (row + d.1) (col + d.2) = true)
    offsets (0, 0) Hin) as Hlt.
  assert (length offsets = 9%nat) as Hlen by done.
  rewrite Hlen in Hlt.
  assert (¬ ((0, 0) ≠ ((0, 0) : Z * Z) ∧
             mineAt (board s) (row + (0, 0).1) (col + (0, 0).2) = true)) as Hnot.
  { by intros [? _]. }
  specialize (Hlt Hnot). lia.
Qed.

Lemma countAdjacentMines_in_range_witness :
  ∃ n, countAdjacentMines demoState 1 1 = Some n ∧
    n = minedNeighbours (board demoState) 1 1 ∧ 0 ≤ n ≤ 8.
Proof. apply (countAdjacentMines_in_range demoState 1 1). solve_wf. Defined.

(** X13. [handleCellClick], [toggleFlag] and [openCell] read the cell
    without a bounds check: on a board of the configured dimensions, with
    coordinates off the board, [openCell] throws, and the other two throw
    while the game is on and return without a change once it is over. *)
Theorem off_board_access_throws now rnd s row col :
  wfState s → ¬ inBounds s row col →
  openCell s row col = None ∧
  handleCellClick now rnd s row col = (if isGameOver s then Some s else None) ∧
  toggleFlag s row col = (if isGameOver s then Some s else None).
Proof.
  intros Hwf Hout. pose proof (getCell_off_board s row col Hwf Hout) as Hnone.
  unfold openCell, handleCellClick, toggleFlag. rewrite Hnone.
  by destruct (isGameOver s).
Qed.

Lemma off_board_access_throws_witness :
  openCell demoState 3 0 = None ∧
  handleCellClick 5 demoRandom demoState 3 0 = None ∧
  toggleFlag demoState 0 (-1) = None.
Proof.
  destruct (off_board_access_throws 5 demoRandom demoState 3 0) as (H1 & H2 & _).
  - solve_wf.
  - unfold inBounds. simpl. lia.
  - destruct (off_board_access_throws 5 demoRandom demoState 0 (-1)) as (_ & _ & H3).
    + solve_wf.
    + unfold inBounds. simpl. lia.
    + split_and!; [exact H1|exact H2|exact H3].
Defined.

(** ** Texts: decimal digits and padding *)

Lemma append_nil (b : string) : "" +:+ b = b.
Proof. reflexivity. Qed.

Lemma append_cons c (a b : string) : String c a +:+ b = String c (a +:+ b).
Proof. reflexivity. Qed.

Lemma chars_app (a b : string) : chars (a +:+ b) = chars a ++ chars b.
Proof.
  induction a as [|c a IH]; [done|].
  rewrite append_cons. unfold chars in *. simpl. by rewrite IH.
Qed.

Lemma chars_inj (a b : string) : chars a = chars b → a = b.
Proof.
  unfold chars. intros H.
  rewrite <- (String.string_of_list_ascii_of_string a),
          <- (String.string_of_list_ascii_of_string b). by rewrite H.
Qed.

Lemma length_chars (s : string) : length (chars s) = String.length s.
Proof. induction s as [|c s IH]; [done|]. unfold chars in *. simpl. by rewrite IH. Qed.

Lemma chars_zeros k : chars (zeros k) = replicate k "0"%char.
Proof. induction k as [|k IH]; [done|]. unfold chars in *. simpl. by rewrite IH. Qed.

Lemma isDigit_uint d : Forall isDigit (chars (NilEmpty.string_of_uint d)).
Proof.
  induction d; unfold chars in *; simpl; constructor; try done;
    unfold isDigit, chars; simpl; set_solver.
Qed.

Lemma digits_nonnil n : digits n ≠ Decimal.Nil.
Proof.
  unfold digits. destruct (Z.to_N n); [done|]. apply DecimalPos.Unsigned.to_uint_nonnil.
Qed.

Lemma toString_nonneg n :
  0 ≤ n → toString n = NilEmpty.string_of_uint (digits n).
Proof.
  intros Hn. unfold toString, digits. destruct n as [|p|p]; [done| |lia].
  simpl. pose proof (DecimalPos.Unsigned.to_uint_nonnil p).
  by destruct (Pos.to_uint p).
Qed.

Lemma toString_neg n : n < 0 → toString n = String "-" (toString (- n)).
Proof. intros Hn. destruct n as [|p|p]; [lia..|]. done. Qed.

Lemma toString_inj a b : toString a = toString b → a = b.
Proof.
  unfold toString. intros H. apply DecimalZ.to_int_inj.
  assert (∀ z, Z.to_int z ≠ Decimal.Pos Decimal.Nil ∧
               Z.to_int z ≠ Decimal.Neg Decimal.Nil) as Hnn.
  { intros [|p|p]; simpl; split; try done;
      intros [=Hp]; by apply DecimalPos.Unsigned.to_uint_nonnil in Hp. }
  destruct (Hnn a) as [Ha1 Ha2], (Hnn b) as [Hb1 Hb2].
  pose proof (NilZero.isi _ Ha1 Ha2) as Ia.
  pose proof (NilZero.isi _ Hb1 Hb2) as Ib.
  rewrite H in Ia. congruence.
Qed.

Lemma isDigit_toString n : 0 ≤ n → Forall isDigit (chars (toString n)).
Proof. intros Hn. rewrite toString_nonneg by done. apply isDigit_uint. Qed.

(** Zeros in front of the digits are zeros in front of the numeral. *)
Lemma zeros_uint k d :
  zeros k +:+ NilEmpty.string_of_uint d = NilEmpty.string_of_uint (lead k d).
Proof. induction k as [|k IH]; [done|]. simpl. by rewrite append_cons, IH. Qed.

Lemma of_uint_lead k d : N.of_uint (lead k d) = N.of_uint d.
Proof. induction k as [|k IH]; [done|]. simpl. exact IH. Qed.

Lemma padStart_uint k n :
  0 ≤ n → ∃ d, padStart k (toString n) = NilEmpty.string_of_uint d ∧
               d ≠ Decimal.Nil ∧ N.of_uint d = Z.to_N n.
Proof.
  intros Hn. unfold padStart. rewrite toString_nonneg by done.
  rewrite zeros_uint. eexists. split; [done|]. split.
  - pose proof (digits_nonnil n). destruct (_ - _)%nat; [done|]. done.
  - rewrite of_uint_lead. unfold digits. apply DecimalN.Unsigned.of_to.
Qed.

Lemma padStart_inj k a b :
  0 ≤ a → 0 ≤ b → padStart k (toString a) = padStart k (toString b) → a = b.
Proof.
  intros Ha Hb H.
  destruct (padStart_uint k a Ha) as (da & Ea & _ & Na).
  destruct (padStart_uint k b Hb) as (db & Eb & _ & Nb).
  rewrite Ea, Eb in H.
  assert (da = db) as Hd.
  { pose proof (NilEmpty.usu da) as Ua. rewrite H, NilEmpty.usu in Ua. congruence. }
  subst. rewrite Na in Nb. lia.
Qed.

Lemma isDigit_padStart k n : 0 ≤ n → Forall isDigit (chars (padStart k (toString n))).
Proof.
  intros Hn. destruct (padStart_uint k n Hn) as (d & -> & _). apply isDigit_uint.
Qed.

Lemma padStart_nonempty k n : 0 ≤ n → padStart k (toString n) ≠ "".
Proof.
  intros Hn. destruct (padStart_uint k n Hn) as (d & -> & Hd & _). by destruct d.
Qed.

Lemma length_padStart k s :
  String.length (padStart k s) = (k `max` String.length s)%nat.
Proof.
  unfold padStart. rewrite <- !length_chars, chars_app, length_app, chars_zeros,
    length_replicate, length_chars. lia.
Qed.

Lemma minus_not_digit : ¬ isDigit "-"%char.
Proof. unfold isDigit, chars. simpl. set_solver. Qed.

(** X14. [formatCounter] shows different values differently; a value
    between 0 and 999 is shown with exactly three characters, all of them
    digits; and a negative value is shown as a minus sign in front of
    what is shown for its absolute value. *)
Theorem formatCounter_faithful :
  (∀ v w, v ≠ w → formatCounter v ≠ formatCounter w) ∧
  (∀ v, 0 ≤ v ≤ 999 →
     String.length (formatCounter v) = 3%nat ∧
     Forall isDigit (chars (formatCounter v))) ∧
  (∀ v, v < 0 → formatCounter v = "-" +:+ formatCounter (- v)).
Proof.
  split_and!.
  - intros v w Hne H. apply Hne. unfold formatCounter in H.
    destruct (decide (v < 0)) as [Hv|Hv], (decide (w < 0)) as [Hw|Hw].
    + injection H as H. apply padStart_inj in H; lia.
    + exfalso. pose proof (isDigit_padStart 3 (Z.abs w)) as Hd.
      rewrite <- H in Hd. unfold chars in Hd. simpl in Hd.
      apply Forall_cons in Hd as [Hd _]; [|lia]. by apply minus_not_digit.
    + exfalso. pose proof (isDigit_padStart 3 (Z.abs v)) as Hd.
      rewrite H in Hd. unfold chars in Hd. simpl in Hd.
      apply Forall_cons in Hd as [Hd _]; [|lia]. by apply minus_not_digit.
    + apply padStart_inj in H; lia.
  - intros v Hv. unfold formatCounter. rewrite decide_False by lia.
    rewrite Z.abs_eq by lia. split; [|apply isDigit_padStart; lia].
    rewrite length_padStart.
    assert (Forall (λ n, String.length (toString n) ≤ 3)%nat (seqZ 0 1000)) as Hall.
    { apply (bool_decide_unpack _). vm_compute. exact I. }
    rewrite Forall_forall in Hall. specialize (Hall v).
    rewrite elem_of_seqZ in Hall. lia.
  - intros v Hv. unfold formatCounter.
    rewrite decide_True by lia. rewrite decide_False by lia.
    by rewrite Z.abs_opp.
Qed.

Lemma formatCounter_faithful_witness :
  formatCounter 7 ≠ formatCounter (-7) ∧
  String.length (formatCounter 7) = 3%nat ∧
  formatCounter (-7) = "-" +:+ formatCounter 7.
Proof.
  destruct formatCounter_faithful as (Hinj & Hlen & Hneg). split_and!.
  - apply (Hinj 7 (-7)). lia.
  - apply (Hlen 7). lia.
  - apply (Hneg (-7)). lia.
Defined.

(** ** Texts: times and leaderboard keys *)

Lemma split_at_first {A} (x : A) (l1 r1 l2 r2 : list A) :
  x ∉ l1 → x ∉ l2 → l1 ++ x :: r1 = l2 ++ x :: r2 → l1 = l2 ∧ r1 = r2.
Proof.
  revert l2. induction l1 as [|y l1 IH]; intros [|z l2] H1 H2 H; simplify_eq/=.
  - done.
  - exfalso. apply H2. left.
  - exfalso. apply H1. left.
  - apply not_elem_of_cons in H1 as [_ H1]. apply not_elem_of_cons in H2 as [_ H2].
    destruct (IH l2 H1 H2) as [-> ->]; done.
Qed.

(** A character that is neither a digit nor the minus sign is not in the
    text of an integer. *)
Lemma not_in_toString (a : ascii) n :
  ¬ isDigit a → a ≠ "-"%char → a ∉ chars (toString n).
Proof.
  intros Hd Hm Hin. destruct (decide (0 ≤ n)) as [Hn|Hn].
  - pose proof (isDigit_toString n Hn) as Hall.
    rewrite Forall_forall in Hall. by apply Hd, Hall.
  - rewrite toString_neg in Hin by lia. unfold chars in Hin. simpl in Hin.
    apply elem_of_cons in Hin as [?|Hin]; [done|].
    pose proof (isDigit_toString (- n)) as Hall.
    rewrite Forall_forall in Hall. apply Hd, Hall; [lia|done].
Qed.

Lemma not_in_digits (a : ascii) k n :
  ¬ isDigit a → 0 ≤ n → a ∉ chars (padStart k (toString n)).
Proof.
  intros Hd Hn Hin. pose proof (isDigit_padStart k n Hn) as Hall.
  rewrite Forall_forall in Hall. by apply Hd, Hall.
Qed.

Lemma colon_not_digit : ¬ isDigit ":"%char.
Proof. unfold isDigit, chars. simpl. set_solver. Qed.

Lemma x_not_digit : ¬ isDigit "x"%char.
Proof. unfold isDigit, chars. simpl. set_solver. Qed.

(** X15. [formatTime] shows different numbers of seconds differently. *)
Theorem formatTime_distinct a b : a ≠ b → formatTime a ≠ formatTime b.
Proof.
  intros Hne H. apply Hne. apply (f_equal chars) in H. unfold formatTime in H.
  assert (∀ n, ":"%char ∉ chars (toString n +:+ " 秒")) as Hshort.
  { intros n. rewrite chars_app. intros [Hin|Hin]%elem_of_app.
    - by apply (not_in_toString ":" n colon_not_digit).
    - unfold chars in Hin. simpl in Hin. set_solver. }
  assert (∀ n, ":"%char ∈ chars (toString (n `div` 60) +:+ ":"
                                   +:+ padStart 2 (toString (n `rem` 60)))) as Hlong.
  { intros n. rewrite !chars_app. apply elem_of_app. right. apply elem_of_app. left.
    unfold chars. simpl. left. }
  destruct (decide (a < 60)) as [Ha|Ha], (decide (b < 60)) as [Hb|Hb].
  - rewrite !chars_app in H. apply app_inv_tail in H.
    by apply toString_inj, chars_inj.
  - exfalso. apply (Hshort a). rewrite H. apply Hlong.
  - exfalso. apply (Hshort b). rewrite <- H. apply Hlong.
  - rewrite !chars_app in H. change (chars ":") with [":"%char] in H. simpl in H.
    assert (0 ≤ a `div` 60 ∧ 0 ≤ b `div` 60) as [Hma Hmb].
    { split; apply Z.div_pos; lia. }
    assert (0 ≤ a `rem` 60 ∧ 0 ≤ b `rem` 60) as [Hra Hrb].
    { split; apply Z.rem_nonneg; lia. }
    apply split_at_first in H as [Hm Hr].
    + apply chars_inj, toString_inj in Hm. apply chars_inj, padStart_inj in Hr; [|done..].
      rewrite !Z.rem_mod_nonneg in Hr by lia.
      pose proof (Z.div_mod a 60). pose proof (Z.div_mod b 60). lia.
    + apply not_in_toString; [apply colon_not_digit|done].
    + apply not_in_toString; [apply colon_not_digit|done].
Qed.

Lemma formatTime_distinct_witness : formatTime 59 ≠ formatTime 60.
Proof. apply (formatTime_distinct 59 60). lia. Defined.


Lemma toString_nonempty n : toString n ≠ "".
Proof.
  destruct (decide (0 ≤ n)) as [Hn|Hn].
  - rewrite toString_nonneg by done. pose proof (digits_nonnil n). by destruct (digits n).
  - by rewrite toString_neg by lia.
Qed.

(** Two integers followed by a minus sign and the same rest. *)
Lemma toString_minus_inj a b (ra rb : list ascii) :
  chars (toString a) ++ "-"%char :: ra = chars (toString b) ++ "-"%char :: rb →
  a = b ∧ ra = rb.
Proof.
  assert (∀ n, 0 ≤ n → "-"%char ∉ chars (toString n)) as Hnom.
  { intros n Hn Hin. pose proof (isDigit_toString n Hn) as Hall.
    rewrite Forall_forall in Hall. by apply minus_not_digit, Hall. }
  assert (∀ n r, 0 ≤ n → ∃ c l, chars (toString n) ++ r = c :: l ∧ isDigit c) as Hhead.
  { intros n r Hn. pose proof (isDigit_toString n Hn) as Hall.
    pose proof (toString_nonempty n) as Hne.
    destruct (toString n) as [|c t]; [done|]. unfold chars in *. simpl in *.
    apply Forall_cons in Hall as [Hc _]. eauto. }
  intros H.
  destruct (decide (0 ≤ a)) as [Ha|Ha], (decide (0 ≤ b)) as [Hb|Hb].
  - apply split_at_first in H as [H1 H2]; [|by apply Hnom..].
    split; [|done]. by apply toString_inj, chars_inj.
  - exfalso. rewrite (toString_neg b) in H by lia.
    destruct (Hhead a ("-"%char :: ra) Ha) as (c & l & Hcl & Hc).
    rewrite Hcl in H. unfold chars in H. simpl in H. injection H as -> _.
    by apply minus_not_digit.
  - exfalso. rewrite (toString_neg a) in H by lia.
    destruct (Hhead b ("-"%char :: rb) Hb) as (c & l & Hcl & Hc).
    rewrite Hcl in H. unfold chars in H. simpl in H. injection H as <- _.
    by apply minus_not_digit.
  - rewrite (toString_neg a), (toString_neg b) in H by lia.
    unfold chars in H. simpl in H. injection H as H.
    apply split_at_first in H as [H1 H2]; [|apply Hnom; lia..].
    split; [|done]. apply chars_inj, toString_inj in H1. lia.
Qed.

Lemma getConfigKey_not_proto config : getConfigKey config ≠ "__proto__".
Proof.
  intros H. apply (f_equal chars) in H. unfold getConfigKey in H.
  assert ("x"%char ∈ chars "__proto__") as Hin.
  { rewrite <- H, !chars_app. apply elem_of_app. right. apply elem_of_app. left.
    unfold chars. simpl. left. }
  unfold chars in Hin. simpl in Hin. set_solver.
Qed.

(** X16. Different configurations have different leaderboard keys, and
    no key is ["__proto__"], the one key under which [recordWin] could
    not store. *)
Theorem getConfigKey_distinct :
  (∀ config1 config2, config1 ≠ config2 →
     getConfigKey config1 ≠ getConfigKey config2) ∧
  (∀ config, getConfigKey config ≠ "__proto__").
Proof.
  split.
  - intros [r1 c1 m1] [r2 c2 m2] Hne H. apply Hne.
    apply (f_equal chars) in H. unfold getConfigKey in H. simpl in H.
    rewrite !chars_app in H.
    change (chars "x") with ["x"%char] in H. change (chars "-") with ["-"%char] in H.
    simpl in H.
    apply split_at_first in H as [Hc H];
      [|by apply not_in_toString; [apply x_not_digit|]..].
    apply chars_inj, toString_inj in Hc.
    apply toString_minus_inj in H as [Hr Hm].
    apply chars_inj, toString_inj in Hm. by subst.
  - apply getConfigKey_not_proto.
Qed.

Lemma getConfigKey_distinct_witness :
  getConfigKey (mkConfig 9 16 10) ≠ getConfigKey (mkConfig 16 9 10) ∧
  getConfigKey (mkConfig 9 9 10) = "9x9-10".
Proof.
  split; [|reflexivity].
  apply (proj1 getConfigKey_distinct (mkConfig 9 16 10) (mkConfig 16 9 10)).
  discriminate.
Defined.

(** ** The configuration read from the page *)

Lemma isWhole_fromZ n : isWhole (fromZ n) n.
Proof. simpl. reflexivity. Qed.

Lemma Math_max_whole x y a b :
  isWhole x a → isWhole y b → isWhole (Math_max x y) (Z.max a b).
Proof.
  destruct x as [| |p], y as [| |q]; simpl; try done. intros Hp Hq.
  destruct (Qle_bool p q) eqn:Hle; simpl.
  - apply Qle_bool_iff in Hle. rewrite Hp, Hq in Hle. rewrite <- Zle_Qle in Hle.
    by rewrite Z.max_r.
  - assert (¬ a ≤ b) as Hgt.
    { intros Hab. rewrite Zle_Qle in Hab. rewrite <- Hp, <- Hq in Hab.
      apply Qle_bool_iff in Hab. congruence. }
    by rewrite Z.max_l by lia.
Qed.

Lemma Math_min_whole x y a b :
  isWhole x a → isWhole y b → isWhole (Math_min x y) (Z.min a b).
Proof.
  destruct x as [| |p], y as [| |q]; simpl; try done. intros Hp Hq.
  destruct (Qle_bool p q) eqn:Hle; simpl.
  - apply Qle_bool_iff in Hle. rewrite Hp, Hq in Hle. rewrite <- Zle_Qle in Hle.
    by rewrite Z.min_l.
  - assert (¬ a ≤ b) as Hgt.
    { intros Hab. rewrite Zle_Qle in Hab. rewrite <- Hp, <- Hq in Hab.
      apply Qle_bool_iff in Hab. congruence. }
    by rewrite Z.min_r by lia.
Qed.

Lemma clampNumber_whole x lo hi v a b :
  isWhole x v → isWhole lo a → isWhole hi b →
  isWhole (clampNumber x lo hi) (clamp v a b).
Proof.
  intros Hx Hlo Hhi. unfold clampNumber, clamp.
  apply Math_min_whole; [|done]. by apply Math_max_whole.
Qed.

Lemma Number_mul_whole x y a b :
  isWhole x a → isWhole y b → isWhole (Number_mul x y) (a * b).
Proof.
  destruct x as [| |p], y as [| |q]; simpl; try done. intros -> ->.
  by rewrite inject_Z_mult.
Qed.

Lemma Number_sub_whole x y a b :
  isWhole x a → isWhole y b → isWhole (Number_sub x y) (a - b).
Proof.
  destruct x as [| |p], y as [| |q]; simpl; try done. intros -> ->.
  unfold Z.sub, Qminus. by rewrite inject_Z_plus, inject_Z_opp.
Qed.

Lemma validConfig_difficulties p : validConfig (difficulties p).
Proof. destruct p; unfold validConfig; simpl; lia. Qed.

(** X17. [getConfigFromUI] returns the preset of a preset key, and every
    preset is a valid configuration.  For the custom key, when each of
    the three fields is empty or holds a whole number, the configuration
    has the columns clamped to 6..40, the rows clamped to 6..30 and the
    mines clamped to 1..rows*cols-1, with 12, 12 and 10 for an empty
    field; it is a valid configuration, and the game that [startNewGame]
    starts with it satisfies the session invariant. *)
Theorem getConfigFromUI_valid (StringToNumber : string → Number) :
  (∀ p customCols customRows customMines,
     holdsConfig (getConfigFromUI StringToNumber (preset p)
                    customCols customRows customMines) (difficulties p) ∧
     validConfig (difficulties p)) ∧
  (∀ customCols customRows customMines c r m,
     isWhole (fieldNumber StringToNumber customCols 12) c →
     isWhole (fieldNumber StringToNumber customRows 12) r →
     isWhole (fieldNumber StringToNumber customMines 10) m →
     let cfg := mkConfig (clamp r 6 30) (clamp c 6 40)
                  (clamp m 1 (clamp r 6 30 * clamp c 6 40 - 1)) in
     holdsConfig (getConfigFromUI StringToNumber custom
                    customCols customRows customMines) cfg ∧
     validConfig cfg ∧
     ∀ now s, sessionInv (startNewGame now cfg s)).
Proof.
  split.
  - intros p customCols customRows customMines. split.
    + unfold holdsConfig. simpl. split_and!; reflexivity.
    + apply validConfig_difficulties.
  - intros customCols customRows customMines c r m Hc Hr Hm cfg.
    assert (validConfig cfg) as Hvalid.
    { unfold validConfig, cfg, clamp. simpl. nia. }
    split_and!; [|done|].
    + unfold holdsConfig, getConfigFromUI. simpl. split_and!.
      * apply clampNumber_whole; [done|apply isWhole_fromZ..].
      * apply clampNumber_whole; [done|apply isWhole_fromZ..].
      * apply clampNumber_whole; [done|apply isWhole_fromZ|].
        apply Number_sub_whole; [|apply isWhole_fromZ].
        apply Number_mul_whole; apply clampNumber_whole;
          done || apply isWhole_fromZ.
    + intros now s.
      eapply (sessionInv_ext (createInitialState cfg));
        [..|by apply sessionInv_createInitialState]; done.
Qed.

Lemma getConfigFromUI_valid_witness :
  holdsConfig (getConfigFromUI demoToNumber custom "50" "" "50000")
    (mkConfig 12 40 479) ∧
  validConfig (mkConfig 12 40 479).
Proof.
  destruct (proj2 (getConfigFromUI_valid demoToNumber)
              "50" "" "50000" 50 12 50000) as (H1 & H2 & _).
  - reflexivity.
  - reflexivity.
  - reflexivity.
  - split; [exact H1|exact H2].
Defined.

(** ** findDifficultyKey *)

(** X18. [findDifficultyKey] gives back the key of every preset; when it
    answers a preset key the configuration is that preset; and it answers
    [custom] exactly for the configurations that are no preset. *)
Theorem findDifficultyKey_spec :
  (∀ p, findDifficultyKey (difficulties p) = preset p) ∧
  (∀ config p, findDifficultyKey config = preset p → config = difficulties p) ∧
  (∀ config, findDifficultyKey config = custom ↔ ∀ p, config ≠ difficulties p).
Proof.
  split_and!.
  - by intros [].
  - intros [r c m] p. unfold findDifficultyKey.
    destruct (list_find _ presetKeys) as [[i q]|] eqn:Hfind; [|done].
    intros [= ->]. apply list_find_Some in Hfind as (_ & (Hr & Hc & Hm) & _).
    simpl in *. by destruct (difficulties p); simplify_eq/=.
  - intros [r c m]. unfold findDifficultyKey.
    destruct (list_find _ presetKeys) as [[i q]|] eqn:Hfind.
    + split; [done|]. intros Hno. exfalso.
      apply list_find_Some in Hfind as (_ & (Hr & Hc & Hm) & _). simpl in *.
      apply (Hno q). by destruct (difficulties q); simplify_eq/=.
    + split; [|done]. intros _ p Heq.
      apply list_find_None in Hfind. rewrite Forall_forall in Hfind.
      apply (Hfind p); [destruct p; set_solver|]. by rewrite <- Heq.
Qed.

Lemma findDifficultyKey_spec_witness :
  findDifficultyKey (mkConfig 16 30 99) = preset hard ∧
  findDifficultyKey (mkConfig 30 16 99) = custom.
Proof.
  destruct findDifficultyKey_spec as (H1 & _ & H3). split.
  - apply (H1 hard).
  - apply (H3 (mkConfig 30 16 99)). by intros [].
Defined.

(** ** The active cell and the keyboard *)

Lemma endGame_active won s s' :
  endGame won s = Some s' →
  activeRow s' = activeRow s ∧ activeCol s' = activeCol s.
Proof.
  unfold endGame. intros H.
  assert (∀ x, activeRow (stopTimer x) = activeRow x ∧
               activeCol (stopTimer x) = activeCol x) as Hstop.
  { intros x. unfold stopTimer. by destruct (timerId x). }
  destruct (Hstop (set_didWin won (set_isGameOver true s))) as [E1 E2].
  destruct won.
  - simplify_eq. by rewrite E1, E2.
  - apply revealMines_keeps in H as (E & _). rewrite E. simpl. by rewrite E1, E2.
Qed.

Lemma openCell_active s r c s' b :
  openCell s r c = Some (s', b) →
  activeRow s' = activeRow s ∧ activeCol s' = activeCol s.
Proof.
  unfold openCell. intros H.
  destruct (getCell (board s) r c) as [cell|]; [|done]. simpl in H.
  destruct (isOpen cell || isFlagged cell); [by simplify_eq|].
  destruct (isMine cell).
  - destruct (endGame false _) as [s1|] eqn:He; simplify_eq/=.
    by apply endGame_active in He.
  - case_decide.
    + destruct (floodOpen _ r c) as [s1|] eqn:Hf; simplify_eq/=.
      apply floodOpen_spec in Hf as (E & _). by rewrite E.
    + by simplify_eq.
Qed.

Lemma handleCellClick_active now rnd s r c s' :
  handleCellClick now rnd s r c = Some s' →
  activeRow s' = activeRow s ∧ activeCol s' = activeCol s.
Proof.
  unfold handleCellClick. intros H.
  destruct (isGameOver s); [by simplify_eq|].
  destruct (getCell (board s) r c) as [cell|]; [|done]. simpl in H.
  destruct (isOpen cell || isFlagged cell); [by simplify_eq|].
  assert (∃ s1, (activeRow s1 = activeRow s ∧ activeCol s1 = activeCol s) ∧
     (x ← openCell s1 r c;
      if isGameOver x.1 then Some x.1 else w ← checkWin x.1; Some w.1) = Some s')
    as (s1 & [A1 A2] & Hrest).
  { destruct (minesPlaced s); [by exists s|].
    destruct (placeMines rnd r c s) as [s0|] eqn:Hp; [|done]. simpl in H.
    apply placeMines_frame in Hp as [E _].
    exists (startTimer now s0). split; [|done].
    unfold startTimer, updateTimer. rewrite E. simpl.
    by destruct (timerId s). }
  clear H. destruct (openCell s1 r c) as [[s2 b]|] eqn:Ho; [|done]. simpl in Hrest.
  apply openCell_active in Ho as [B1 B2].
  destruct (isGameOver s2); [simplify_eq; split; congruence|].
  unfold checkWin in Hrest. case_decide.
  - destruct (endGame true s2) as [s3|] eqn:He; simplify_eq/=.
    apply endGame_active in He as [C1 C2]. split; congruence.
  - simplify_eq/=. split; congruence.
Qed.

Lemma moveActiveCell_spec deltaRow deltaCol s :
  0 < rows (config s) → 0 < cols (config s) →
  moveActiveCell deltaRow deltaCol s
  = set_activeCol (clamp (activeCol s + deltaCol) 0 (cols (config s) - 1))
      (set_activeRow (clamp (activeRow s + deltaRow) 0 (rows (config s) - 1)) s).
Proof.
  intros Hr Hc. unfold moveActiveCell, setActiveCell.
  pose proof (clamp_range (activeRow s + deltaRow) 0 (rows (config s) - 1)).
  pose proof (clamp_range (activeCol s + deltaCol) 0 (cols (config s) - 1)).
  case_decide as Hsame.
  - destruct Hsame as [-> ->]. by destruct s.
  - rewrite decide_True by lia. done.
Qed.

(** X19. In a session that satisfies the invariant, with the active cell
    on the board, every key press returns and keeps the invariant and the
    active cell on the board; an arrow key moves the active cell by one
    cell, stopping at the border of the board, and changes nothing else;
    and a key pressed while typing in a field, or any other key, changes
    nothing. *)
Theorem handleKeyDown_keeps_active_cell typing key now rnd s :
  sessionInv s → activeInBounds s →
  ∃ s', handleKeyDown typing key now rnd s = Some s' ∧
    sessionInv s' ∧ activeInBounds s' ∧
    (typing = false →
     ∀ deltaRow deltaCol,
       (key, deltaRow, deltaCol) ∈
         [("ArrowUp", -1, 0); ("ArrowDown", 1, 0);
          ("ArrowLeft", 0, -1); ("ArrowRight", 0, 1)] →
       s' = set_activeCol (clamp (activeCol s + deltaCol) 0 (cols (config s) - 1))
              (set_activeRow (clamp (activeRow s + deltaRow) 0 (rows (config s) - 1))
                 s)) ∧
    (typing = true ∨
     key ∉ ["ArrowUp"; "ArrowDown"; "ArrowLeft"; "ArrowRight"; " "; "Enter"; "f"; "F"] →
     s' = s).
Proof.
  intros Hinv Hact. pose proof Hinv as (Hwf & (Hr & Hc & _) & _).
  assert (∀ deltaRow deltaCol,
            sessionInv (moveActiveCell deltaRow deltaCol s) ∧
            activeInBounds (moveActiveCell deltaRow deltaCol s)) as Hmove.
  { intros deltaRow deltaCol. rewrite moveActiveCell_spec by done. split.
    - by eapply (sessionInv_ext s).
    - unfold activeInBounds, inBounds. simpl.
      pose proof (clamp_range (activeRow s + deltaRow) 0 (rows (config s) - 1)).
      pose proof (clamp_range (activeCol s + deltaCol) 0 (cols (config s) - 1)).
      lia. }
  assert (∃ s1, handleCellClick now rnd s (activeRow s) (activeCol s) = Some s1 ∧
                sessionInv s1 ∧ activeInBounds s1) as Hclick.
  { destruct (handleCellClick_inv now rnd s (activeRow s) (activeCol s) Hinv Hact)
      as (s1 & Hrun & Hinv1).
    exists s1. split; [done|]. split; [done|].
    destruct (handleCellClick_active _ _ _ _ _ _ Hrun) as [A1 A2].
    apply keeps_handleCellClick in Hrun as (Hcfg & _).
    unfold activeInBounds, inBounds. rewrite A1, A2, Hcfg. exact Hact. }
  assert (∃ s1, toggleFlag s (activeRow s) (activeCol s) = Some s1 ∧
                sessionInv s1 ∧ activeInBounds s1) as Hflag.
  { destruct (toggleFlag_inv s (activeRow s) (activeCol s) Hinv Hact)
      as (s1 & Hrun & Hinv1).
    exists s1. split; [done|]. split; [done|].
    apply toggleFlag_spec in Hrun as [->|(cell & _ & _ & _ & -> & _)]; done. }
  unfold handleKeyDown. destruct typing.
  { exists s. split_and!; try done. }
  repeat case_decide; subst.
  - eexists. split; [done|]. destruct (Hmove (-1) 0) as [Hi1 Hi2].
    split_and!; try done.
    + intros _ deltaRow deltaCol Hin. rewrite moveActiveCell_spec by done.
      set_solver.
    + intros [?|Hout]; [done|]. set_solver.
  - eexists. split; [done|]. destruct (Hmove 1 0) as [Hi1 Hi2].
    split_and!; try done.
    + intros _ deltaRow deltaCol Hin. rewrite moveActiveCell_spec by done.
      set_solver.
    + intros [?|Hout]; [done|]. set_solver.
  - eexists. split; [done|]. destruct (Hmove 0 (-1)) as [Hi1 Hi2].
    split_and!; try done.
    + intros _ deltaRow deltaCol Hin. rewrite moveActiveCell_spec by done.
      set_solver.
    + intros [?|Hout]; [done|]. set_solver.
  - eexists. split; [done|]. destruct (Hmove 0 1) as [Hi1 Hi2].
    split_and!; try done.
    + intros _ deltaRow deltaCol Hin. rewrite moveActiveCell_spec by done.
      set_solver.
    + intros [?|Hout]; [done|]. set_solver.
  - destruct Hclick as (s1 & -> & Hi1 & Hi2). exists s1. split_and!; try done.
    + intros _ deltaRow deltaCol Hin. set_solver.
    + intros [?|Hout]; [done|]. set_solver.
  - destruct Hclick as (s1 & -> & Hi1 & Hi2). exists s1. split_and!; try done.
    + intros _ deltaRow deltaCol Hin. set_solver.
    + intros [?|Hout]; [done|]. set_solver.
  - destruct Hflag as (s1 & -> & Hi1 & Hi2). exists s1. split_and!; try done.
    + intros _ deltaRow deltaCol Hin. set_solver.
    + intros [?|Hout]; [done|]. set_solver.
  - exists s. split_and!; try done.
    intros _ deltaRow deltaCol Hin. set_solver.
Qed.

Lemma handleKeyDown_keeps_active_cell_witness :
  ∃ s', handleKeyDown false "ArrowDown" 5 demoRandom
          (createInitialState (mkConfig 9 9 10)) = Some s' ∧
    sessionInv s' ∧ activeInBounds s' ∧ activeRow s' = 1.
Proof.
  destruct (handleKeyDown_keeps_active_cell false "ArrowDown" 5 demoRandom
              (createInitialState (mkConfig 9 9 10)))
    as (s' & Hrun & Hinv & Hact & Hmove & _).
  - apply sessionInv_createInitialState. unfold validConfig. simpl. lia.
  - unfold activeInBounds, inBounds. simpl. lia.
  - exists s'. split_and!; try done.
    rewrite (Hmove eq_refl 1 0); [reflexivity|]. set_solver.
Defined.

(** ** Nicknames and settings *)

Section SettingsProofs.
Variable JSON_parse : string → option Json.
Variable trim : JSString → JSString.

Lemma usableName_normalizeNickname value : usableName (normalizeNickname trim value).
Proof.
  assert (usableName DEFAULT_NICKNAME) as Hdefault.
  { split; [done|]. vm_compute. lia. }
  unfold normalizeNickname. destruct value as [[| | |v| |]|]; try done.
  case_decide as Hempty; [done|]. split.
  - by destruct (trim v).
  - rewrite length_take. lia.
Qed.

(** X20. Whatever [trim] does and whatever value it is given,
    [normalizeNickname] returns a name that is not empty and at most 12
    code units long; so does every way in which the settings get their
    nickname: [loadSettings], [setNickname] and [handleNicknameInput];
    and [setSoundEnabled] leaves the nickname alone. *)
Theorem nickname_always_usable :
  (∀ value, usableName (normalizeNickname trim value)) ∧
  (∀ read, usableName (nickname (loadSettings JSON_parse trim read))) ∧
  (∀ value settings, usableName (nickname (setNickname trim value settings))) ∧
  (∀ value settings,
     usableName (nickname (handleNicknameInput trim value settings))) ∧
  (∀ enabled settings,
     nickname (setSoundEnabled enabled settings) = nickname settings).
Proof.
  assert (usableName DEFAULT_NICKNAME) as Hdefault.
  { apply (usableName_normalizeNickname None). }
  split_and!.
  - apply usableName_normalizeNickname.
  - intros read. unfold loadSettings. destruct read as [| |raw]; try done.
    case_decide; [done|]. destruct (JSON_parse raw) as [parsed|]; [|done].
    destruct parsed; try done; apply usableName_normalizeNickname.
  - intros value settings. apply usableName_normalizeNickname.
  - intros value settings. apply usableName_normalizeNickname.
  - done.
Qed.

(** X21. [loadSettings] returns the defaults (sound on, the default
    nickname) when the read throws, when nothing is stored, when the text
    is empty or does not parse, and when it parses to [null].  After
    [saveSettings] it gives back the sound switch that was saved and the
    normalized form of the nickname that was saved. *)
Theorem loadSettings_round_trip :
  (∀ read,
     read = ReadThrows ∨ read = ReadNull ∨ read = ReadString "" ∨
     (∃ raw, read = ReadString raw ∧
        (JSON_parse raw = None ∨ JSON_parse raw = Some JNull)) →
     loadSettings JSON_parse trim read = mkSettings true DEFAULT_NICKNAME) ∧
  (∀ raw next,
     raw ≠ "" → JSON_parse raw = Some (settingsJson next) →
     loadSettings JSON_parse trim (ReadString raw)
     = mkSettings (soundEnabled next)
         (normalizeNickname trim (Some (JStr (nickname next))))).
Proof.
  split.
  - intros read [->|[->|[->|(raw & -> & Hparse)]]]; try done.
    unfold loadSettings. case_decide; [done|].
    by destruct Hparse as [-> | ->].
  - intros raw [sound nick] Hraw Hparse. unfold loadSettings.
    rewrite decide_False by done. rewrite Hparse. simpl.
    by destruct sound.
Qed.
End SettingsProofs.

Lemma loadSettings_round_trip_witness :
  loadSettings (λ _, Some (settingsJson (mkSettings false (codeUnits "Ada"))))
    (λ s, s) (ReadString "stored")
  = mkSettings false (codeUnits "Ada").
Proof.
  apply (proj2 (loadSettings_round_trip
                  (λ _, Some (settingsJson (mkSettings false (codeUnits "Ada"))))
                  (λ s, s))
           "stored" (mkSettings false (codeUnits "Ada"))).
  - discriminate.
  - reflexivity.
Defined.

(** ** recordWin *)

Lemma insertByTime_front e l : Forall (byTime e) l → insertByTime e l = e :: l.
Proof.
  destruct l as [|e' l]; [done|]. intros [Hle _]%Forall_cons. simpl.
  by rewrite decide_True.
Qed.

Lemma sortByTime_sorted_id l : StronglySorted byTime l → sortByTime l = l.
Proof.
  induction 1 as [|e l Hs IH Hall]; [done|]. simpl. rewrite IH.
  by apply insertByTime_front.
Qed.

Lemma filter_none {A} (P : A → Prop) `{!∀ x, Decision (P x)} (l : list A) :
  Forall (λ x, ¬ P x) l → filter P l = [].
Proof.
  induction 1 as [|x l Hx _ IH]; [done|]. rewrite filter_cons.
  by rewrite decide_False.
Qed.

Lemma filter_all {A} (P : A → Prop) `{!∀ x, Decision (P x)} (l : list A) :
  Forall P l → filter P l = l.
Proof.
  induction 1 as [|x l Hx _ IH]; [done|]. rewrite filter_cons.
  rewrite decide_True by done. by rewrite IH.
Qed.

(** Sorting after a push on a sorted list puts the new record behind the
    records that are not slower. *)
Lemma sortByTime_snoc old e :
  StronglySorted byTime old →
  sortByTime (old ++ [e])
  = filter (λ o, time o ≤ time e) old ++ e :: filter (λ o, time e < time o) old.
Proof.
  induction 1 as [|o l Hs IH Hall]; [done|].
  change (sortByTime ((o :: l) ++ [e])) with (insertByTime o (sortByTime (l ++ [e]))).
  rewrite IH. rewrite !filter_cons.
  destruct (decide (time o ≤ time e)) as [Hle|Hgt].
  - rewrite decide_False by lia. simpl. apply insertByTime_front.
    apply Forall_app. split; [|constructor].
    + apply Forall_forall. intros x [_ Hx]%list_elem_of_filter.
      rewrite Forall_forall in Hall. by apply Hall.
    + done.
    + apply Forall_forall. intros x [_ Hx]%list_elem_of_filter.
      rewrite Forall_forall in Hall. by apply Hall.
  - rewrite decide_True by lia.
    rewrite (filter_none (λ o0, time o0 ≤ time e)), (filter_all (λ o0, time e < time o0)).
    + simpl. rewrite decide_False by done. f_equal. by apply insertByTime_front.
    + eapply Forall_impl; [done|]. unfold byTime. intros x Hx. simpl. lia.
    + eapply Forall_impl; [done|]. unfold byTime. intros x Hx. simpl. lia.
Qed.

Lemma recordsOk_withRecord e old :
  StronglySorted byTime old → (∀ o, o ∈ old → 0 ≤ time o ≤ 999) →
  0 ≤ time e ≤ 999 → recordsOk (withRecord e old).
Proof.
  intros Hsorted Hold He. unfold withRecord. rewrite <- sortByTime_snoc by done.
  split_and!.
  - pose proof (sortByTime_Permutation (old ++ [e])) as Hperm.
    destruct (sortByTime (old ++ [e])) as [|x l] eqn:Hs; [|done].
    apply Permutation_nil_l in Hperm. by destruct old.
  - rewrite length_take. unfold LEADERBOARD_LIMIT. lia.
  - apply StronglySorted_take, sortByTime_sorted.
  - intros x Hx%subseteq_take. rewrite sortByTime_Permutation in Hx.
    apply elem_of_app in Hx as [Hx|Hx%list_elem_of_singleton]; [auto|by subst].
Qed.

Section RecordWinProofs.
Variable trim : JSString → JSString.

(** X22. On a well-formed leaderboard, [recordWin] with a time in
    [0, 999] changes only the records under the key of the
    configuration: the new record is put behind every record that is not
    slower and the five fastest are kept, so that a record that ties with
    the fifth place does not enter a full list.  The leaderboard stays
    well formed. *)
Theorem recordWin_keeps_the_fastest nick config t store :
  storeOk store → 0 ≤ t ≤ 999 →
  recordWin trim nick (getConfigKey config) t store
  = <[getConfigKey config :=
        withRecord (mkEntry (normalizeNickname trim (Some (JStr nick))) t)
          (default [] (store !! getConfigKey config))]> store ∧
  storeOk (recordWin trim nick (getConfigKey config) t store) ∧
  (∀ old, store !! getConfigKey config = Some old →
     length old = LEADERBOARD_LIMIT → (∀ o, o ∈ old → time o ≤ t) →
     recordWin trim nick (getConfigKey config) t store = store).
Proof.
  intros Hok Ht.
  set (key := getConfigKey config).
  set (e := mkEntry (normalizeNickname trim (Some (JStr nick))) t).
  set (old := default [] (store !! key)).
  assert (StronglySorted byTime old ∧ ∀ o, o ∈ old → 0 ≤ time o ≤ 999) as [Hsorted Hold].
  { unfold old. destruct (store !! key) as [l|] eqn:Hl; simpl.
    - destruct (Hok key l Hl) as (_ & _ & ? & ?). done.
    - split; [constructor|]. by intros o ?%not_elem_of_nil. }
  assert (recordWin trim nick key t store = <[key := withRecord e old]> store) as Heq.
  { unfold recordWin, assignKey. rewrite decide_False by apply getConfigKey_not_proto.
    fold key old e. unfold withRecord. by rewrite sortByTime_snoc. }
  split; [done|]. split.
  - rewrite Heq. intros k entries Hk.
    destruct (decide (k = key)) as [->|Hne].
    + rewrite lookup_insert_eq in Hk. simplify_eq. by apply recordsOk_withRecord.
    + rewrite lookup_insert_ne in Hk by done. by eapply Hok.
  - intros l Hl Hlen Hall. rewrite Heq. apply insert_id.
    unfold old. rewrite Hl. simpl. unfold withRecord.
    rewrite (filter_all (λ o, time o ≤ time e)).
    + rewrite take_app_length'; [done|]. done.
    + apply Forall_forall. intros o Ho. simpl. by apply Hall.
Qed.
End RecordWinProofs.

Lemma recordWin_keeps_the_fastest_witness :
  recordWin (λ s, s) (codeUnits "Ada") (getConfigKey (mkConfig 9 9 10)) 30
    {[ "9x9-10" := [mkEntry (codeUnits "Bob") 17; mkEntry (codeUnits "Cy") 30;
                    mkEntry (codeUnits "Di") 41] ]}
    !! "9x9-10"
  = Some [mkEntry (codeUnits "Bob") 17; mkEntry (codeUnits "Cy") 30;
          mkEntry (codeUnits "Ada") 30; mkEntry (codeUnits "Di") 41].
Proof.
  destruct (recordWin_keeps_the_fastest (λ s, s) (codeUnits "Ada") (mkConfig 9 9 10) 30
    {[ "9x9-10" := [mkEntry (codeUnits "Bob") 17; mkEntry (codeUnits "Cy") 30;
                    mkEntry (codeUnits "Di") 41] ]})
    as (Heq & _).
  - intros key entries Hl. apply lookup_singleton_Some in Hl as [_ <-].
    split_and!; [done|unfold LEADERBOARD_LIMIT; simpl; lia|
      repeat constructor; unfold byTime; simpl; lia|].
    intros e He. repeat (apply elem_of_cons in He as [->|He]; [simpl; lia|]).
    by apply not_elem_of_nil in He.
  - lia.
  - rewrite Heq. change (getConfigKey (mkConfig 9 9 10)) with "9x9-10".
    rewrite lookup_insert_eq. vm_compute. reflexivity.
Defined.

(** ** Saving and loading the leaderboard *)

Lemma foldl_insert_lookup (l : list (string * list LeaderboardEntry))
    (acc : LeaderboardStore) k :
  NoDup l.*1 →
  foldl (λ m kv, <[kv.1 := kv.2]> m) acc l !! k
  = match (list_to_map l : LeaderboardStore) !! k with
    | Some v => Some v
    | None => acc !! k
    end.
Proof.
  revert acc. induction l as [|[k0 v0] l IH]; intros acc Hnd; simpl.
  - by rewrite lookup_empty.
  - apply NoDup_cons in Hnd as [Hk0 Hnd]. rewrite IH by done.
    destruct (decide (k = k0)) as [->|Hne].
    + rewrite (not_elem_of_list_to_map_1 _ k0 Hk0 : (list_to_map l : LeaderboardStore) !! k0 = None).
      by rewrite !lookup_insert_eq.
    + by rewrite !lookup_insert_ne.
Qed.

Lemma foldl_insert_list_to_map (l : list (string * list LeaderboardEntry)) :
  NoDup l.*1 → foldl (λ m kv, <[kv.1 := kv.2]> m) (∅ : LeaderboardStore) l = list_to_map l.
Proof.
  intros Hnd. apply map_eq. intros k. rewrite foldl_insert_lookup by done.
  rewrite lookup_empty. by destruct (_ !! k).
Qed.

Section SaveLoadProofs.
Variable JSON_parse : string → option Json.
Variable StringToNumber : JSString → Number.
Variable ObjectToNumber : Json → option Number.
Variable trim : JSString → JSString.

Lemma sanitizeItem_entry e st :
  0 ≤ time e ≤ 999 → normalizeNickname trim (Some (JStr (name e))) = name e →
  sanitizeItem StringToNumber ObjectToNumber trim (entryJson e) st
  = Some (st.1 ++ [e], st.2).
Proof.
  intros Ht Hn. destruct e as [n t]. unfold normalizeNickname in Hn. simpl in *.
  unfold sanitizeItem, entryJson. cbn [name time].
  change (getProp "time" (JObj [("name", JStr n); ("time", JNum (fromZ t))]))
    with (Some (JNum (fromZ t))).
  change (getProp "name" (JObj [("name", JStr n); ("time", JNum (fromZ t))]))
    with (Some (JStr n)).
  simpl. rewrite Z.div_1_r.
  assert (inRange t = true) as ->.
  { unfold inRange. rewrite !bool_decide_eq_true_2 by lia. done. }
  rewrite Hn. by rewrite decide_True.
Qed.

Lemma sanitizeItems_entries es acc migrated :
  (∀ e, e ∈ es → 0 ≤ time e ≤ 999 ∧
                 normalizeNickname trim (Some (JStr (name e))) = name e) →
  forEach (entryJson <$> es) (sanitizeItem StringToNumber ObjectToNumber trim)
    (acc, migrated)
  = Some (acc ++ es, migrated).
Proof.
  revert acc. induction es as [|e es IH]; intros acc Hes.
  - simpl. by rewrite app_nil_r.
  - destruct (Hes e) as [Ht Hn]; [left|].
    rewrite fmap_cons. cbn [forEach].
    rewrite sanitizeItem_entry by done. cbn [mbind option_bind fst snd].
    rewrite IH; [|intros x Hx; apply Hes; by right].
    by rewrite <- app_assoc.
Qed.

Lemma sanitizeKey_entries key es store :
  recordsOk es → key ≠ "__proto__" →
  (∀ e, e ∈ es → normalizeNickname trim (Some (JStr (name e))) = name e) →
  sanitizeKey StringToNumber ObjectToNumber trim (key, JArr (entryJson <$> es))
    (store, false)
  = Some (<[key := es]> store, false).
Proof.
  intros (Hne & Hlen & Hsorted & Htimes) Hkey Hnames. unfold sanitizeKey.
  cbn [fst snd].
  rewrite sanitizeItems_entries by (intros e He; split; auto).
  cbn [mbind option_bind fst snd app].
  rewrite decide_True by (destruct es; [done|simpl; lia]).
  unfold assignKey. rewrite decide_False by done.
  rewrite sortByTime_sorted_id by done. by rewrite take_ge.
Qed.

Lemma sanitizeFields_entries fields acc :
  (∀ key es, (key, es) ∈ fields →
     recordsOk es ∧ key ≠ "__proto__" ∧
     ∀ e, e ∈ es → normalizeNickname trim (Some (JStr (name e))) = name e) →
  forEach ((λ kv, (kv.1, JArr (entryJson <$> kv.2))) <$> fields)
    (sanitizeKey StringToNumber ObjectToNumber trim) (acc, false)
  = Some (foldl (λ m kv, <[kv.1 := kv.2]> m) acc fields, false).
Proof.
  revert acc. induction fields as [|[key es] fields IH]; intros acc Hok; [done|].
  destruct (Hok key es) as (Hes & Hkey & Hnames); [left|].
  rewrite fmap_cons. cbn [forEach fst snd].
  rewrite sanitizeKey_entries by done. cbn [mbind option_bind foldl fst snd].
  apply IH. intros k l Hin. apply Hok. by right.
Qed.

(** X23. A well-formed leaderboard whose names are in normalized form
    survives saving and loading: whatever the order in which the saved
    text lists the keys, [loadLeaderboard] returns the same leaderboard
    and does not save it again. *)
Theorem leaderboard_survives_reload store fields raw :
  storeOk store →
  (∀ key entries e, store !! key = Some entries → e ∈ entries →
     normalizeNickname trim (Some (JStr (name e))) = name e) →
  store !! "__proto__" = None →
  fields ≡ₚ map_to_list store →
  raw ≠ "" → JSON_parse raw = Some (storeJson fields) →
  loadLeaderboard JSON_parse StringToNumber ObjectToNumber trim (ReadString raw)
  = (store, false).
Proof.
  intros Hok Hnames Hproto Hperm Hraw Hparse. unfold loadLeaderboard.
  rewrite decide_False by done. rewrite Hparse. unfold storeJson.
  rewrite sanitizeFields_entries.
  - assert (NoDup fields.*1) as Hnd.
    { rewrite Hperm. apply NoDup_fst_map_to_list. }
    f_equal. rewrite foldl_insert_list_to_map by done.
    rewrite (list_to_map_proper fields (map_to_list store) Hnd Hperm).
    apply list_to_map_to_list.
  - intros key es Hin. rewrite Hperm in Hin. apply elem_of_map_to_list in Hin.
    split_and!.
    + by eapply Hok.
    + intros ->. congruence.
    + intros e He. by eapply Hnames.
Qed.
End SaveLoadProofs.

Lemma leaderboard_survives_reload_witness :
  loadLeaderboard (λ _, Some (storeJson (map_to_list demoStore)))
    (λ _, NaN) (λ _, None) (λ s, s) (ReadString "stored")
  = (demoStore, false).
Proof.
  apply (leaderboard_survives_reload
           (λ _, Some (storeJson (map_to_list demoStore)))
           (λ _, NaN) (λ _, None) (λ s, s)
           demoStore (map_to_list demoStore) "stored").
  - intros key entries Hl. unfold demoStore in Hl.
    apply lookup_singleton_Some in Hl as [_ <-].
    split_and!; [done|unfold LEADERBOARD_LIMIT; simpl; lia|
      repeat constructor; unfold byTime; simpl; lia|].
    intros e He. repeat (apply elem_of_cons in He as [->|He]; [simpl; lia|]).
    by apply not_elem_of_nil in He.
  - intros key entries e Hl He. unfold demoStore in Hl.
    apply lookup_singleton_Some in Hl as [_ <-].
    repeat (apply elem_of_cons in He as [->|He]; [reflexivity|]).
    by apply not_elem_of_nil in He.
  - apply lookup_singleton_ne. discriminate.
  - reflexivity.
  - discriminate.
  - reflexivity.
Defined.

(** ** Leaderboard: names and migration *)

Section MigrationProofs.
Variable JSON_parse : string → option Json.
Variable StringToNumber : JSString → Number.
Variable ObjectToNumber : Json → option Number.
Variable trim : JSString → JSString.

Local Abbreviation sanitizeItem' := (sanitizeItem StringToNumber ObjectToNumber trim).
Local Abbreviation sanitizeKey' := (sanitizeKey StringToNumber ObjectToNumber trim).
Local Abbreviation load := (loadLeaderboard JSON_parse StringToNumber ObjectToNumber trim).

(** One item adds at most one record, with a usable name, and never
    clears the migration flag; a legacy number or string that is kept
    sets it. *)
Lemma sanitizeItem_names item st st' :
  sanitizeItem' item st = Some st' →
  (Forall (λ e, usableName (name e)) st.1 → Forall (λ e, usableName (name e)) st'.1) ∧
  (st.2 = true → st'.2 = true) ∧
  (∀ t, (∃ x, item = JNum x) ∨ (∃ s, item = JStr s) →
        validTime StringToNumber ObjectToNumber item t → st'.2 = true).
Proof.
  assert (usableName DEFAULT_NICKNAME) as Hdefault
    by apply (usableName_normalizeNickname trim None).
  intros H. destruct item as [|b|x|s|items|fields]; simpl in H.
  - simplify_eq. split_and!; [done..|]. by intros t [[? [=]]|[? [=]]].
  - simplify_eq. split_and!; [done..|]. by intros t [[? [=]]|[? [=]]].
  - destruct (finiteFloor x) as [time|] eqn:Hf;
      [destruct (inRange time) eqn:Hr|]; simplify_eq/=.
    + split_and!; [|done..]. intros Hall. apply Forall_app. split; [done|].
      by constructor.
    + split_and!; [done..|].
      intros t _ (v & y & Hv & Hy & Hy' & Ht). simpl in Hv. injection Hv as <-.
      simpl in Hy. injection Hy as <-. rewrite Hf in Hy'. injection Hy' as <-.
      apply inRange_spec in Ht. congruence.
    + split_and!; [done..|].
      intros t _ (v & y & Hv & Hy & Hy' & Ht). simpl in Hv. injection Hv as <-.
      simpl in Hy. injection Hy as <-. rewrite Hf in Hy'. discriminate.
  - destruct (finiteFloor (StringToNumber s)) as [time|] eqn:Hf;
      [destruct (inRange time) eqn:Hr|]; simplify_eq/=.
    + split_and!; [|done..]. intros Hall. apply Forall_app. split; [done|].
      by constructor.
    + split_and!; [done..|].
      intros t _ (v & y & Hv & Hy & Hy' & Ht). simpl in Hv. injection Hv as <-.
      simpl in Hy. injection Hy as <-. rewrite Hf in Hy'. injection Hy' as <-.
      apply inRange_spec in Ht. congruence.
    + split_and!; [done..|].
      intros t _ (v & y & Hv & Hy & Hy' & Ht). simpl in Hv. injection Hv as <-.
      simpl in Hy. injection Hy as <-. rewrite Hf in Hy'. discriminate.
  - simplify_eq. split_and!; [done..|]. by intros t [[? [=]]|[? [=]]].
  - destruct (ToNumber _ _ _) as [x|]; [|done]. simpl in H.
    destruct (finiteFloor x) as [time|]; [|simplify_eq].
    2:{ split_and!; [done..|]. by intros t [[? [=]]|[? [=]]]. }
    destruct (inRange time); simplify_eq.
    2:{ split_and!; [done..|]. by intros t [[? [=]]|[? [=]]]. }
    simpl. split_and!.
    + intros Hall. apply Forall_app. split; [done|]. constructor; [|done].
      apply usableName_normalizeNickname.
    + intros Hm.
      destruct (list_find _ fields) as [[i [k [| | |v| |]]]|]; simpl; try done.
      by case_decide.
    + by intros t [[? [=]]|[? [=]]].
Qed.

Lemma sanitizeItems_names value st st' :
  forEach value sanitizeItem' st = Some st' →
  (Forall (λ e, usableName (name e)) st.1 → Forall (λ e, usableName (name e)) st'.1) ∧
  (st.2 = true → st'.2 = true).
Proof.
  intros H. split.
  - intros Hall. revert H.
    apply (forEach_inv (λ x, Forall (λ e, usableName (name e)) x.1)); [done|].
    intros item s1 s2 _ H1 Hs. by apply (sanitizeItem_names item s1 s2 Hs).
  - intros Hm. revert H. apply (forEach_inv (λ x, x.2 = true)); [done|].
    intros item s1 s2 _ H1 Hs. by apply (sanitizeItem_names item s1 s2 Hs).
Qed.

Lemma sanitizeItems_legacy value item t st st' :
  item ∈ value → (∃ x, item = JNum x) ∨ (∃ s, item = JStr s) →
  validTime StringToNumber ObjectToNumber item t →
  forEach value sanitizeItem' st = Some st' → st'.2 = true.
Proof.
  intros (l1 & l2 & ->)%list_elem_of_split Hshape Hvalid H.
  rewrite forEach_app in H.
  destruct (forEach l1 sanitizeItem' st) as [s1|]; [|done]. simpl in H.
  destruct (sanitizeItem' item s1) as [s2|] eqn:Hitem; [|done]. simpl in H.
  apply (sanitizeItems_names l2 s2 st' H).
  by apply (sanitizeItem_names item s1 s2 Hitem) with t.
Qed.

Lemma sanitizeKey_names kv st st' :
  sanitizeKey' kv st = Some st' →
  (namesUsable st.1 → namesUsable st'.1) ∧ (st.2 = true → st'.2 = true) ∧
  (∀ value item t, kv.2 = JArr value → item ∈ value →
     (∃ x, item = JNum x) ∨ (∃ s, item = JStr s) →
     validTime StringToNumber ObjectToNumber item t → st'.2 = true).
Proof.
  unfold sanitizeKey. intros H. destruct kv as [key j]. simpl in *.
  destruct j as [| | | |value|]; try (simplify_eq; split_and!; [done..|]; by intros).
  destruct (forEach value sanitizeItem' ([], st.2)) as [r|] eqn:Hr; [|done]. simpl in H.
  destruct (sanitizeItems_names value _ r Hr) as [Hnames Hflag]. simpl in *.
  assert (st'.2 = r.2) as Hr2 by (case_decide; by simplify_eq).
  split_and!.
  - intros Hst. case_decide; simplify_eq; [|done]. simpl.
    unfold assignKey. case_decide; [done|].
    intros k entries e Hk He. destruct (decide (k = key)) as [->|Hne].
    + rewrite lookup_insert_eq in Hk. simplify_eq.
      apply subseteq_take in He. rewrite sortByTime_Permutation in He.
      specialize (Hnames (Forall_nil_2 _)). rewrite Forall_forall in Hnames. auto.
    + rewrite lookup_insert_ne in Hk by done. by eapply Hst.
  - intros Hm. rewrite Hr2. auto.
  - intros value' item t [= <-] Hin Hshape Hvalid. rewrite Hr2.
    by eapply sanitizeItems_legacy.
Qed.

(** X24. Every record that [loadLeaderboard] returns has a name that is
    not empty and at most 12 code units long.  When the stored object
    holds, under a key with an array, a legacy item (a number or a
    string) whose time is valid, and the load does not end in an
    exception, the sanitized leaderboard is saved again. *)
Theorem loadLeaderboard_names_and_migration read :
  namesUsable (load read).1 ∧
  (∀ raw fields r key value item t,
     read = ReadString raw → raw ≠ "" → JSON_parse raw = Some (JObj fields) →
     forEach fields sanitizeKey' (∅, false) = Some r →
     (key, JArr value) ∈ fields → item ∈ value →
     (∃ x, item = JNum x) ∨ (∃ s, item = JStr s) →
     validTime StringToNumber ObjectToNumber item t →
     (load read).2 = true).
Proof.
  assert (namesUsable (∅ : LeaderboardStore)) as Hempty.
  { intros key entries e Hk. by rewrite lookup_empty in Hk. }
  split.
  - unfold loadLeaderboard. destruct read as [| |raw]; try done.
    case_decide; [done|]. destruct (JSON_parse raw) as [[| | | | |fields]|]; try done.
    destruct (forEach fields sanitizeKey' (∅, false)) as [r|] eqn:Hr; [|done].
    revert Hr. apply (forEach_inv (λ x, namesUsable x.1)); [done|].
    intros kv s1 s2 _ H1 Hs. by apply (sanitizeKey_names kv s1 s2 Hs).
  - intros raw fields r key value item t -> Hraw Hparse Hrun Hin Hitem Hshape Hvalid.
    unfold loadLeaderboard. rewrite decide_False by done. rewrite Hparse, Hrun.
    apply list_elem_of_split in Hin as (l1 & l2 & ->).
    rewrite forEach_app in Hrun.
    destruct (forEach l1 sanitizeKey' (∅, false)) as [s1|]; [|done]. simpl in Hrun.
    destruct (sanitizeKey' (key, JArr value) s1) as [s2|] eqn:Hkey; [|done].
    simpl in Hrun.
    assert (s2.2 = true) as Hs2.
    { by apply (sanitizeKey_names _ s1 s2 Hkey) with value item t. }
    revert Hrun. apply (forEach_inv (λ x, x.2 = true)); [done|].
    intros kv x1 x2 _ H1 Hs. by apply (sanitizeKey_names kv x1 x2 Hs).
Qed.
End MigrationProofs.

Lemma loadLeaderboard_names_and_migration_witness :
  demoLoad.2 = true.
Proof.
  destruct (loadLeaderboard_names_and_migration (λ _, Some demoPayload) (λ _, NaN)
              (λ _, Some NaN) (λ s, s) (ReadString "stored")) as [_ Hmig].
  apply (Hmig "stored"
           [ ("9x9-10", JArr [demoNumber 30; demoNumber 1000; demoNumber (-1);
                              demoNumber 17]);
             ("16x16-40", JArr [demoNumber 1000; demoNumber (-1)]) ]
           demoLoad "9x9-10"
           [demoNumber 30; demoNumber 1000; demoNumber (-1); demoNumber 17]
           (demoNumber 30) 30).
  - reflexivity.
  - discriminate.
  - reflexivity.
  - vm_compute. reflexivity.
  - left.
  - left.
  - left. exists (Finite (inject_Z 30)). reflexivity.
  - exists (Some (demoNumber 30)), (Finite (inject_Z 30)).
    split_and!; [reflexivity..|lia|lia].
Defined.

(** ** renderCell *)

(** X25. What [renderCell] puts on the button of a closed cell depends on
    nothing but its flag and on whether it is the active cell: two closed
    cells with the same flag are rendered alike, whether they hold a mine
    or not and whatever their numbers; and a number is shown on open
    cells only. *)
Theorem renderCell_hides_closed_cells :
  (∀ cell1 cell2 isActive,
     isOpen cell1 = false → isOpen cell2 = false →
     isFlagged cell1 = isFlagged cell2 →
     renderCell cell1 isActive = renderCell cell2 isActive) ∧
  (∀ cell isActive,
     dataNum (renderCell cell isActive) ≠ None →
     isOpen cell = true ∧ isMine cell = false ∧
     dataNum (renderCell cell isActive) = Some (toString (adjacent cell))).
Proof.
  split.
  - intros cell1 cell2 isActive H1 H2 Hf. unfold renderCell.
    by rewrite H1, H2, Hf.
  - intros cell isActive. unfold renderCell.
    destruct (isOpen cell); [|by destruct (isFlagged cell)].
    destruct (isMine cell); [done|]. destruct (isWrongFlag cell); [done|].
    by case_decide.
Qed.

Lemma renderCell_hides_closed_cells_witness :
  renderCell (demoCell 3) true = renderCell (set_isMine true (demoCell 0)) true.
Proof.
  apply (proj1 renderCell_hides_closed_cells (demoCell 3)
           (set_isMine true (demoCell 0)) true); reflexivity.
Defined.
